(** * Reminders index: ingestion, dual-index maintenance and query routing

    A shallow embedding of [src/indexer.ts], [src/searcher.ts] and the
    conversion helpers of [src/types.ts], followed by the properties of the
    ingestion, indexing and search paths.

    Conventions of the embedding.
    - JavaScript numbers that hold identifiers, counters, limits and
      timestamps are integers ([Z]); a timestamp has no fractional part, so
      [Math.floor] is the identity on it.
    - Strings are [string]; case folding is the ASCII one, which is also what
      SQLite's [LOWER] and [LIKE] implement.
    - [null] and [undefined] are [None].
    - The file system is the [World] record: the source directory, the three
      files of the index directory and the clock.  Temporary copies of the
      source files, the module-level connection cache of the searcher (every
      operation starts from a closed cache, the state [closeConnections]
      leaves) and the progress callback (it never changes control flow) are
      not part of it.
    - Functions that touch the world or throw live in the monad [M]. *)

From stdpp Require Import base decidable option list gmap strings pretty sorting.
From Stdlib Require Import Ascii ZArith QArith.
Local Open Scope Z_scope.

(** ** JavaScript strings *)

Module Js.

Definition lowerChar (c : ascii) : ascii :=
  let n := nat_of_ascii c in
  if bool_decide (65 ≤ n ≤ 90)%nat then ascii_of_nat (n + 32) else c.

Fixpoint toLowerCase (s : string) : string :=
  match s with
  | EmptyString => EmptyString
  | String c s' => String (lowerChar c) (toLowerCase s')
  end.

Definition startsWith (s p : string) : bool := String.prefix p s.

Fixpoint includes (s sub : string) : bool :=
  String.prefix sub s ||
  match s with
  | EmptyString => false
  | String _ s' => includes s' sub
  end.

Definition endsWith (s suf : string) : bool :=
  let n := String.length s in
  let k := String.length suf in
  bool_decide (k ≤ n)%nat && String.eqb (String.substring (n - k) k s) suf.

Definition isWhiteSpace (c : ascii) : bool :=
  let n := nat_of_ascii c in
  bool_decide (n = 32 ∨ 9 ≤ n ≤ 13)%nat.

(** [s.trim() === ''] *)
Fixpoint trimIsEmpty (s : string) : bool :=
  match s with
  | EmptyString => true
  | String c s' => isWhiteSpace c && trimIsEmpty s'
  end.

(** Truthiness of a [string | null | undefined]. *)
Definition truthyStr (s : option string) : bool :=
  match s with
  | Some (String _ _) => true
  | _ => false
  end.

(** [s || dflt] *)
Definition orStr (s : option string) (dflt : string) : string :=
  match s with
  | Some (String c s') => String c s'
  | _ => dflt
  end.

(** Truthiness of a [number | null | undefined]. *)
Definition truthyNum (n : option Z) : bool :=
  match n with
  | Some 0 | None => false
  | Some _ => true
  end.

(** [`${s}`] for a nullable string. *)
Definition showStr (s : option string) : string := default "null" s.

(** [a.slice(0, n)] *)
Definition slice0 {A} (n : Z) (l : list A) : list A :=
  if bool_decide (n < 0)
  then take (Z.to_nat (Z.max (Z.of_nat (length l) + n) 0)) l
  else take (Z.to_nat n) l.

End Js.

(** ** SQLite text operators *)

Module Sql.

(** [text LIKE pattern]: [%] matches any run of characters, [_] any single
    character, every other character matches itself up to ASCII case. *)
Fixpoint like (pattern : string) : string → bool :=
  match pattern with
  | EmptyString => λ text, if text is EmptyString then true else false
  | String p pattern' =>
      if Ascii.eqb p "%" then
        fix star (text : string) : bool :=
          like pattern' text ||
          match text with
          | EmptyString => false
          | String _ text' => star text'
          end
      else if Ascii.eqb p "_" then
        λ text, match text with
               | EmptyString => false
               | String _ text' => like pattern' text'
               end
      else
        λ text, match text with
               | EmptyString => false
               | String c text' =>
                   Ascii.eqb (Js.lowerChar p) (Js.lowerChar c) && like pattern' text'
               end
  end.

(** [rows LIMIT n]: a negative [n] means no upper bound. *)
Definition limit {A} (n : Z) (rows : list A) : list A :=
  if bool_decide (n < 0) then rows else take (Z.to_nat n) rows.

End Sql.


(** ** Data model ([src/types.ts]) *)

(** A row of the join of the source's reminder table with its list table. *)
Record JoinedReminder := mkJoined {
  jr_id : Z;
  jr_title : option string;
  jr_notes : option string;
  jr_completed : Z;
  jr_flagged : Z;
  jr_priority : Z;
  jr_dueDate : option Z;
  jr_creationDate : Z;
  jr_lastModifiedDate : option Z;
  jr_completionDate : option Z;
  jr_listId : Z;
  jr_listName : option string;
  jr_markedForDeletion : Z }.

(** The canonical record held by both indexes. *)
Record IndexedReminder := mkIndexed {
  ir_id : Z;
  ir_title : string;
  ir_notes : string;
  ir_listName : string;
  ir_listId : Z;
  ir_completed : bool;
  ir_flagged : bool;
  ir_priority : Z;
  ir_dueDate : option Z;
  ir_creationDate : Z;
  ir_completionDate : option Z }.

Record SearchResult := mkResult {
  reminder : IndexedReminder;
  score : Q;
  matchedTerms : list string }.

Record SearchOptions := mkOptions {
  so_query : option string;
  so_list : option string;
  so_completed : option bool;
  so_flagged : option bool;
  so_limit : Z }.

(** A JavaScript [Date]: milliseconds since the Unix epoch, [None] for an
    invalid date.  [JSON.stringify] writes an invalid date as [null]. *)
Definition JsDate := option Z.

Record IndexStats := mkStats {
  totalReminders : Z;
  totalLists : Z;
  completedReminders : Z;
  pendingReminders : Z;
  indexedAt : JsDate;
  oldestReminder : JsDate;
  newestReminder : JsDate;
  lastIndexedRowid : option Z }.

Definition APPLE_EPOCH_OFFSET : Z := 978307200.

Definition appleToUnix (appleDate : Z) : Z := appleDate + APPLE_EPOCH_OFFSET.

(** ** The index database *)

(** A row of the [reminders] table (and of its [reminders_fts] mirror). *)
Record Row := mkRow {
  row_id : Z;
  row_title : string;
  row_notes : option string;
  row_list_name : string;
  row_list_id : Z;
  row_completed : Z;
  row_flagged : Z;
  row_priority : Z;
  row_due_date : option Z;
  row_creation_date : Z;
  row_completion_date : option Z }.

(** [index.db]: a database file without tables (what opening a missing file
    creates), or the two tables. *)
Inductive IndexDb :=
  | NoTables
  | Tables (reminders_fts : list Row) (reminders : list Row).

Record DbFile := mkDbFile {
  db_mtime : option Z;
  db_content : IndexDb }.

(** ** The world *)

(** A file of the source directory: its name, its modification time ([None]
    when [statSync] throws) and the joined rows it holds ([None] when the
    file cannot be copied, opened or queried). *)
Record SourceFile := mkSourceFile {
  sf_name : string;
  sf_mtime : option Z;
  sf_rows : option (list JoinedReminder) }.

Inductive SourceDir :=
  | DirAbsent                             (* existsSync is false *)
  | DirUnlistable                         (* exists, readdirSync throws *)
  | DirEntries (files : list SourceFile).

Record World := mkWorld {
  sourceDir : SourceDir;
  indexDbFile : option DbFile;                    (* ~/.reminders/index.db *)
  fuzzyFile : option (list IndexedReminder);      (* ~/.reminders/fuzzy.json *)
  statsFile : option IndexStats;                  (* ~/.reminders/stats.json *)
  clock : Z }.                                    (* Date.now() *)

Definition withIndexDb (f : option DbFile) (w : World) : World :=
  mkWorld (sourceDir w) f (fuzzyFile w) (statsFile w) (clock w).

Definition withFuzzy (f : option (list IndexedReminder)) (w : World) : World :=
  mkWorld (sourceDir w) (indexDbFile w) f (statsFile w) (clock w).

Definition withStats (s : option IndexStats) (w : World) : World :=
  mkWorld (sourceDir w) (indexDbFile w) (fuzzyFile w) s (clock w).

(** ** The monad of world-passing computations that may throw *)

Inductive Error :=
  | SourceNotFound        (* "Reminders databases not found at ..." *)
  | FsError               (* an error thrown by a node:fs call *)
  | SqliteError           (* an error thrown by better-sqlite3 *)
  | IndexNotFound         (* "Index not found. Run `reminders index` first." *)
  | FuzzyIndexNotFound    (* "Fuzzy index not found. ..." *)
  | DuplicateId.          (* MiniSearch: duplicate ID *)

Inductive Result (A : Type) :=
  | Ok (a : A)
  | Throw (e : Error).
Arguments Ok {A} a.
Arguments Throw {A} e.

Definition M (A : Type) : Type := World → Result A * World.

Definition ret {A} (a : A) : M A := λ w, (Ok a, w).

Definition throw {A} (e : Error) : M A := λ w, (Throw e, w).

Definition bind {A B} (m : M A) (k : A → M B) : M B := λ w,
  match m w with
  | (Ok a, w') => k a w'
  | (Throw e, w') => (Throw e, w')
  end.

(** [try { m } catch { h }] *)
Definition catch {A} (m : M A) (h : M A) : M A := λ w,
  match m w with
  | (Ok a, w') => (Ok a, w')
  | (Throw _, w') => h w'
  end.

Definition get : M World := λ w, (Ok w, w).

Definition put (w : World) : M unit := λ _, (Ok tt, w).

Notation "'let*' x ':=' m 'in' k" := (bind m (λ x, k))
  (at level 10, x name, m at level 100, k at level 200).
Notation "m ';;' k" := (bind m (λ _, k))
  (at level 100, k at level 200, right associativity).

(** [for (const x of l) s = body(s, x)] *)
Fixpoint forEach {A S} (body : S → A → M S) (l : list A) (s : S) : M S :=
  match l with
  | [] => ret s
  | x :: l' => let* s' := body s x in forEach body l' s'
  end.

Definition dateNow : M Z := let* w := get in ret (clock w).

(** ** Staleness detection and ingestion ([src/indexer.ts]) *)

Definition indexExists : M bool :=
  let* w := get in
  ret (match indexDbFile w, fuzzyFile w with
       | Some _, Some _ => true
       | _, _ => false
       end).

Definition isDatabaseName (f : string) : bool :=
  Js.startsWith f "Data-" && Js.endsWith f ".sqlite".

Definition findRemindersDatabases : M (list SourceFile) :=
  let* w := get in
  match sourceDir w with
  | DirAbsent => ret []
  | DirUnlistable => throw FsError
  | DirEntries files => ret (filter (λ f, Is_true (isDatabaseName (sf_name f))) files)
  end.

Definition getSourceModTime : M Z :=
  let* dbs := findRemindersDatabases in
  ret (foldl (λ newest db,
                match sf_mtime db with
                | Some mtime => if bool_decide (newest < mtime) then mtime else newest
                | None => newest
                end) 0 dbs).

Definition statIndexDb : M Z :=
  let* w := get in
  match indexDbFile w with
  | Some (mkDbFile (Some mtime) _) => ret mtime
  | _ => throw FsError
  end.

Definition indexNeedsRebuild : M bool :=
  let* present := indexExists in
  if negb present then ret true
  else
    let* dbs := findRemindersDatabases in
    match dbs with
    | [] => ret false
    | _ :: _ =>
        catch (let* sourceModTime := getSourceModTime in
               let* indexModTime := statIndexDb in
               ret (bool_decide (indexModTime < sourceModTime)))
              (ret true)
    end.

(** [new Date(x)] for a date field read back from JSON: [null] is the epoch. *)
Definition reviveDate (d : JsDate) : JsDate := Some (default 0 d).

Definition getStats : M (option IndexStats) :=
  let* w := get in
  match statsFile w with
  | None => ret None
  | Some data =>
      ret (Some (mkStats (totalReminders data) (totalLists data)
                   (completedReminders data) (pendingReminders data)
                   (reviveDate (indexedAt data))
                   (reviveDate (oldestReminder data))
                   (reviveDate (newestReminder data))
                   (lastIndexedRowid data)))
  end.

Definition saveStats (stats : IndexStats) : M unit :=
  let* w := get in put (withStats (Some stats) w).

(** The two source queries.  [WHERE ZMARKEDFORDELETION = 0 ORDER BY
    ZCREATIONDATE ASC], and the same with [AND Z_PK > ?]. *)
Definition byCreation (a b : JoinedReminder) : Prop :=
  jr_creationDate a ≤ jr_creationDate b.

#[global] Instance byCreation_dec : RelDecision byCreation.
Proof. intros a b. unfold byCreation. apply _. Defined.

Definition selectAll (rows : list JoinedReminder) : list JoinedReminder :=
  merge_sort byCreation (filter (λ r, jr_markedForDeletion r = 0) rows).

Definition selectAfter (rowid : Z) (rows : list JoinedReminder) : list JoinedReminder :=
  merge_sort byCreation
    (filter (λ r, jr_markedForDeletion r = 0 ∧ rowid < jr_id r) rows).

(** [`${r.title}|${r.listName}|${r.creationDate}`] *)
Definition dedupKey (r : JoinedReminder) : string :=
  Js.showStr (jr_title r) +:+ "|" +:+ Js.showStr (jr_listName r) +:+ "|" +:+
  pretty (jr_creationDate r).

Definition setId (r : JoinedReminder) (i : Z) : JoinedReminder :=
  mkJoined i (jr_title r) (jr_notes r) (jr_completed r) (jr_flagged r)
    (jr_priority r) (jr_dueDate r) (jr_creationDate r) (jr_lastModifiedDate r)
    (jr_completionDate r) (jr_listId r) (jr_listName r) (jr_markedForDeletion r).

(** The variables of [queryAllDatabases] that live across the files. *)
Record Scan := mkScan {
  allReminders : list JoinedReminder;
  seenTitles : gset string;
  globalIdCounter : Z }.

Definition scanRow (st : Scan) (r : JoinedReminder) : Scan :=
  let key := dedupKey r in
  if decide (key ∈ seenTitles st) then st
  else mkScan (allReminders st ++ [setId r (globalIdCounter st)])
              ({[key]} ∪ seenTitles st)
              (globalIdCounter st + 1).

(** One pass of the loop over the database files; a file that cannot be
    read is skipped by the [catch]. *)
Definition scanFile (st : Scan) (db : SourceFile) : Scan :=
  match sf_rows db with
  | None => st
  | Some rows => foldl scanRow st (selectAll rows)
  end.

Definition queryAllDatabases : M (list JoinedReminder) :=
  let* dbs := findRemindersDatabases in
  match dbs with
  | [] => throw SourceNotFound
  | _ :: _ => ret (allReminders (foldl scanFile (mkScan [] ∅ 1) dbs))
  end.

(** ** Writing the two indexes *)

Definition BATCH_SIZE : Z := 1000.

(** The bound values of the two [INSERT] statements. *)
Definition toRow (r : IndexedReminder) : Row :=
  mkRow (ir_id r) (ir_title r) (Some (ir_notes r)) (ir_listName r) (ir_listId r)
    (if ir_completed r then 1 else 0) (if ir_flagged r then 1 else 0)
    (ir_priority r) (ir_dueDate r) (ir_creationDate r) (ir_completionDate r).

(** [insertFts.run(...)] then [insertReminders.run(...)]; the second one
    fails on an [id] that the table already holds ([INTEGER PRIMARY KEY]). *)
Definition insertRow (db : IndexDb) (r : IndexedReminder) : Result IndexDb :=
  match db with
  | NoTables => Throw SqliteError
  | Tables fts rows =>
      if decide (ir_id r ∈ row_id <$> rows) then Throw SqliteError
      else Ok (Tables (fts ++ [toRow r]) (rows ++ [toRow r]))
  end.

Fixpoint insertRows (db : IndexDb) (batch : list IndexedReminder) : Result IndexDb :=
  match batch with
  | [] => Ok db
  | r :: batch' =>
      match insertRow db r with
      | Ok db' => insertRows db' batch'
      | Throw e => Throw e
      end
  end.

(** [insertBatch]: one transaction; a throw rolls the whole batch back. *)
Definition insertBatch (batch : list IndexedReminder) : M unit :=
  let* w := get in
  match indexDbFile w with
  | None => throw SqliteError
  | Some f =>
      match insertRows (db_content f) batch with
      | Ok db' => put (withIndexDb (Some (mkDbFile (Some (clock w)) db')) w)
      | Throw e => throw e
      end
  end.

(** [batch.push(indexed)] and the flush of a full batch. *)
Definition pushBatch (batch : list IndexedReminder) (indexed : IndexedReminder)
  : M (list IndexedReminder) :=
  let batch := batch ++ [indexed] in
  if bool_decide (BATCH_SIZE ≤ Z.of_nat (length batch))
  then insertBatch batch ;; ret []
  else ret batch.

(** [if (batch.length > 0) insertBatch(batch)] *)
Definition flushBatch (batch : list IndexedReminder) : M unit :=
  match batch with
  | [] => ret tt
  | _ :: _ => insertBatch batch
  end.

(** [miniSearch.add]: a document whose id is already indexed is refused. *)
Definition miniAdd (index : list IndexedReminder) (doc : IndexedReminder)
  : Result (list IndexedReminder) :=
  if decide (ir_id doc ∈ ir_id <$> index) then Throw DuplicateId
  else Ok (index ++ [doc]).

(** [miniSearch.addAll].  [buildIndex] passes the documents in consecutive
    slices of 5000, which adds them in the same order. *)
Fixpoint addAll (index : list IndexedReminder) (docs : list IndexedReminder)
  : Result (list IndexedReminder) :=
  match docs with
  | [] => Ok index
  | doc :: docs' =>
      match miniAdd index doc with
      | Ok index' => addAll index' docs'
      | Throw e => Throw e
      end
  end.

Definition liftResult {A} (r : Result A) : M A :=
  match r with
  | Ok a => ret a
  | Throw e => throw e
  end.

Definition writeFuzzy (index : list IndexedReminder) : M unit :=
  let* w := get in put (withFuzzy (Some index) w).

(** [d ? appleToUnix(d) : null] *)
Definition convertDate (d : option Z) : option Z :=
  match d with
  | Some 0 | None => None
  | Some d => Some (appleToUnix d)
  end.

(** The [IndexedReminder] built in the body of both indexing loops; [now]
    is [Date.now()]. *)
Definition toIndexed (now : Z) (r : JoinedReminder) : IndexedReminder :=
  mkIndexed (jr_id r)
    (Js.orStr (jr_title r) "")
    (Js.orStr (jr_notes r) "")
    (Js.orStr (jr_listName r) "Reminders")
    (jr_listId r)
    (bool_decide (jr_completed r = 1))
    (bool_decide (jr_flagged r = 1))
    (jr_priority r)
    (convertDate (jr_dueDate r))
    (if bool_decide (jr_creationDate r = 0) then now `div` 1000
     else appleToUnix (jr_creationDate r))
    (convertDate (jr_completionDate r)).

(** ** Full rebuild *)

(** The variables of the indexing loop of [buildIndex]; [b_oldestDate] is
    [None] while it is [Infinity]. *)
Record BuildLoop := mkBuildLoop {
  b_oldestDate : option Z;
  b_newestDate : Z;
  b_completedCount : Z;
  b_pendingCount : Z;
  b_indexedReminders : list IndexedReminder;
  b_batch : list IndexedReminder }.

Definition buildStep (st : BuildLoop) (r : JoinedReminder) : M BuildLoop :=
  if negb (Js.truthyStr (jr_title r)) then ret st
  else
    let* now := dateNow in
    let indexed := toIndexed now r in
    let creationDate := ir_creationDate indexed in
    let oldest :=
      match b_oldestDate st with
      | None => creationDate
      | Some o => if bool_decide (creationDate < o) then creationDate else o
      end in
    let newest :=
      if bool_decide (b_newestDate st < creationDate) then creationDate
      else b_newestDate st in
    let completedCount :=
      if ir_completed indexed then b_completedCount st + 1 else b_completedCount st in
    let pendingCount :=
      if ir_completed indexed then b_pendingCount st else b_pendingCount st + 1 in
    let* batch := pushBatch (b_batch st) indexed in
    ret (mkBuildLoop (Some oldest) newest completedCount pendingCount
           (b_indexedReminders st ++ [indexed]) batch).

(** [unlinkSync] of an existing [index.db], [new Database] and the two
    [CREATE] statements. *)
Definition createIndexDb : M unit :=
  let* w := get in
  put (withIndexDb (Some (mkDbFile (Some (clock w)) (Tables [] []))) w).

Definition maxId (indexed : list IndexedReminder) : Z :=
  foldl (λ last r, if bool_decide (last < ir_id r) then ir_id r else last) 0 indexed.

Definition countLists (indexed : list IndexedReminder) : Z :=
  Z.of_nat (size (list_to_set (ir_listId <$> indexed) : gset Z)).

Definition buildIndex : M IndexStats :=
  let* reminders := queryAllDatabases in
  createIndexDb ;;
  let* st := forEach buildStep reminders (mkBuildLoop None 0 0 0 [] []) in
  flushBatch (b_batch st) ;;
  let indexedReminders := b_indexedReminders st in
  let* miniSearch := liftResult (addAll [] indexedReminders) in
  writeFuzzy miniSearch ;;
  let* now := dateNow in
  let stats :=
    mkStats (Z.of_nat (length indexedReminders))
      (countLists indexedReminders)
      (b_completedCount st)
      (b_pendingCount st)
      (Some now)
      ((λ s, s * 1000) <$> b_oldestDate st)
      (Some (b_newestDate st * 1000))
      (Some (maxId indexedReminders)) in
  saveStats stats ;;
  ret stats.

(** ** Incremental update *)

(** The variables of the indexing loop of [updateIndex].  [u_newestDate] is
    kept in milliseconds ([None] is [NaN]): the source divides the stored
    date by 1000 before the loop and multiplies it back after it. *)
Record UpdateLoop := mkUpdateLoop {
  u_newestDate : option Z;
  u_lastRowid : Z;
  u_newCompleted : Z;
  u_newPending : Z;
  u_indexedReminders : list IndexedReminder;
  u_batch : list IndexedReminder }.

Definition updateStep (st : UpdateLoop) (r : JoinedReminder) : M UpdateLoop :=
  if negb (Js.truthyStr (jr_title r)) then ret st
  else
    let* now := dateNow in
    let indexed := toIndexed now r in
    let creationDate := ir_creationDate indexed in
    let newest :=
      match u_newestDate st with
      | Some ms => if bool_decide (ms < creationDate * 1000)
                   then Some (creationDate * 1000) else Some ms
      | None => None
      end in
    let lastRowid :=
      if bool_decide (u_lastRowid st < jr_id r) then jr_id r else u_lastRowid st in
    let newCompleted :=
      if ir_completed indexed then u_newCompleted st + 1 else u_newCompleted st in
    let newPending :=
      if ir_completed indexed then u_newPending st else u_newPending st + 1 in
    let* batch := pushBatch (u_batch st) indexed in
    ret (mkUpdateLoop newest lastRowid newCompleted newPending
           (u_indexedReminders st ++ [indexed]) batch).

(** The rows one database file contributes to [newReminders]. *)
Definition newRows (lastIndexedRowid : Z) (db : SourceFile) : list JoinedReminder :=
  match sf_rows db with
  | None => []
  | Some rows => selectAfter lastIndexedRowid rows
  end.

(** The loop over the database files that fills [newReminders]. *)
Definition collectNew (lastIndexedRowid : Z) (dbs : list SourceFile)
  : list JoinedReminder :=
  dbs ≫= newRows lastIndexedRowid.

(** [new Database(INDEX_DB_PATH)] and the two [prepare] calls: a missing
    file is created empty, and preparing an [INSERT] into a table that does
    not exist throws. *)
Definition openIndexDb : M unit :=
  let* w := get in
  match indexDbFile w with
  | None => put (withIndexDb (Some (mkDbFile (Some (clock w)) NoTables)) w) ;;
            throw SqliteError
  | Some (mkDbFile _ NoTables) => throw SqliteError
  | Some (mkDbFile _ (Tables _ _)) => ret tt
  end.

(** [readFileSync(FUZZY_INDEX_PATH)] and [MiniSearch.loadJSON]. *)
Definition loadFuzzy : M (list IndexedReminder) :=
  let* w := get in
  match fuzzyFile w with
  | None => throw FsError
  | Some index => ret index
  end.

Definition withIndexedAt (now : Z) (s : IndexStats) : IndexStats :=
  mkStats (totalReminders s) (totalLists s) (completedReminders s)
    (pendingReminders s) (Some now) (oldestReminder s) (newestReminder s)
    (lastIndexedRowid s).

(** [None] is the [null] result: no statistics, or no usable
    [lastIndexedRowid]. *)
Definition updateIndex : M (option IndexStats) :=
  let* existing := getStats in
  match existing with
  | None => ret None
  | Some existingStats =>
      if negb (Js.truthyNum (lastIndexedRowid existingStats)) then ret None
      else
        let hwm := default 0 (lastIndexedRowid existingStats) in
        let* dbs := findRemindersDatabases in
        match dbs with
        | [] => throw SourceNotFound
        | _ :: _ =>
            let newReminders := collectNew hwm dbs in
            match newReminders with
            | [] =>
                let* now := dateNow in
                let updatedStats := withIndexedAt now existingStats in
                saveStats updatedStats ;;
                ret (Some updatedStats)
            | _ :: _ =>
                openIndexDb ;;
                let* miniSearch := loadFuzzy in
                let* st := forEach updateStep newReminders
                             (mkUpdateLoop (newestReminder existingStats) hwm 0 0 [] []) in
                flushBatch (u_batch st) ;;
                let indexedReminders := u_indexedReminders st in
                let* miniSearch := liftResult (addAll miniSearch indexedReminders) in
                writeFuzzy miniSearch ;;
                let* now := dateNow in
                let updatedStats :=
                  mkStats (totalReminders existingStats + Z.of_nat (length indexedReminders))
                    (totalLists existingStats)
                    (completedReminders existingStats + u_newCompleted st)
                    (pendingReminders existingStats + u_newPending st)
                    (Some now)
                    (oldestReminder existingStats)
                    (u_newestDate st)
                    (Some (u_lastRowid st)) in
                saveStats updatedStats ;;
                ret (Some updatedStats)
            end
        end
  end.

(** ** Freshness check *)

Inductive Freshness := FreshNone | FreshIncremental | FreshFull.

Definition ensureIndex : M Freshness :=
  let* stale := indexNeedsRebuild in
  if negb stale then ret FreshNone
  else
    let* stats := getStats in
    let* present := indexExists in
    if Js.truthyNum (stats ≫= lastIndexedRowid) && present then
      let* result := updateIndex in
      match result with
      | Some _ => ret FreshIncremental
      | None => buildIndex ;; ret FreshFull
      end
    else buildIndex ;; ret FreshFull.

(** ** Queries ([src/searcher.ts]) *)

Definition getDb : M IndexDb :=
  let* w := get in
  match indexDbFile w with
  | None => throw IndexNotFound
  | Some f => ret (db_content f)
  end.

Definition getMiniSearch : M (list IndexedReminder) :=
  let* w := get in
  match fuzzyFile w with
  | None => throw FuzzyIndexNotFound
  | Some index => ret index
  end.

Definition rowToReminder (r : Row) : IndexedReminder :=
  mkIndexed (row_id r) (row_title r) (default "" (row_notes r)) (row_list_name r)
    (row_list_id r) (bool_decide (row_completed r = 1))
    (bool_decide (row_flagged r = 1)) (row_priority r) (row_due_date r)
    (row_creation_date r) (row_completion_date r).

(** [db.prepare(...)] of a statement that reads the [reminders] table. *)
Definition prepareSelect (db : IndexDb) : M (list Row) :=
  match db with
  | NoTables => throw SqliteError
  | Tables _ rows => ret rows
  end.

(** [ORDER BY due_date ASC NULLS LAST, creation_date DESC] *)
Definition byDueThenNewest (a b : Row) : Prop :=
  match row_due_date a, row_due_date b with
  | Some x, Some y => x < y ∨ (x = y ∧ row_creation_date b ≤ row_creation_date a)
  | Some _, None => True
  | None, Some _ => False
  | None, None => row_creation_date b ≤ row_creation_date a
  end.

#[global] Instance byDueThenNewest_dec : RelDecision byDueThenNewest.
Proof.
  intros a b. unfold byDueThenNewest.
  destruct (row_due_date a), (row_due_date b); apply _.
Defined.

(** The [completedFilter] and [flaggedFilter] fragments of the statements. *)
Definition completedFilter (completed : option bool) (r : Row) : Prop :=
  match completed with
  | Some true => row_completed r = 1
  | Some false => row_completed r = 0
  | None => True
  end.

Definition flaggedFilter (flagged : option bool) (r : Row) : Prop :=
  match flagged with
  | Some true => row_flagged r = 1
  | _ => True
  end.

#[global] Instance completedFilter_dec c r : Decision (completedFilter c r).
Proof. destruct c as [[]|]; simpl; apply _. Defined.

#[global] Instance flaggedFilter_dec f r : Decision (flaggedFilter f r).
Proof. destruct f as [[]|]; simpl; apply _. Defined.

Definition structuredResult (row : Row) : SearchResult :=
  mkResult (rowToReminder row) 1%Q [].

Definition searchByList (db : IndexDb) (list_ : string) (completed : option bool)
    (limit : Z) : M (list SearchResult) :=
  let listLower := Js.toLowerCase list_ in
  let* table := prepareSelect db in
  let pattern := "%" +:+ listLower +:+ "%" in
  let rows :=
    Sql.limit limit
      (merge_sort byDueThenNewest
         (filter (λ r, Is_true (Sql.like pattern (Js.toLowerCase (row_list_name r)))
                       ∧ completedFilter completed r) table)) in
  ret (structuredResult <$> rows).

Definition getAllReminders (db : IndexDb) (completed flagged : option bool)
    (limit : Z) : M (list SearchResult) :=
  let* table := prepareSelect db in
  let rows :=
    Sql.limit limit
      (merge_sort byDueThenNewest
         (filter (λ r, completedFilter completed r ∧ flaggedFilter flagged r) table)) in
  ret (structuredResult <$> rows).

Definition getFlaggedReminders (limit : Z) : M (list IndexedReminder) :=
  ensureIndex ;;
  let* db := getDb in
  let* table := prepareSelect db in
  let rows :=
    Sql.limit limit
      (merge_sort byDueThenNewest
         (filter (λ r, row_flagged r = 1 ∧ row_completed r = 0) table)) in
  ret (rowToReminder <$> rows).

Section Fuzzy.

(** [miniSearch.search(query, { fuzzy, prefix, boost })] without its
    [filter] option: the ranked hits of the MiniSearch library over the
    documents of the index, each with the stored fields of its document. *)
Variable rank : string → list IndexedReminder → list SearchResult.

(** The [filter] callback of [searchByText]. *)
Definition textFilter (listLower : option string) (completed flagged : option bool)
    (result : IndexedReminder) : bool :=
  (if Js.truthyStr listLower
   then Js.includes (Js.toLowerCase (ir_listName result)) (default "" listLower)
   else true) &&
  match completed with
  | Some c => eqb (ir_completed result) c
  | None => true
  end &&
  match flagged with
  | Some true => ir_flagged result
  | _ => true
  end.

Definition searchByText (query : string) (list_ : option string)
    (completed flagged : option bool) (limit : Z) : M (list SearchResult) :=
  let* miniSearch := getMiniSearch in
  let listLower := Js.toLowerCase <$> list_ in
  let hasFilters :=
    Js.truthyStr list_ || bool_decide (is_Some completed) || bool_decide (is_Some flagged) in
  let searchLimit := if hasFilters then limit * 20 else limit in
  let fuzzyResults :=
    filter (λ hit, Is_true (textFilter listLower completed flagged (reminder hit)))
      (rank query miniSearch) in
  match fuzzyResults with
  | [] => ret []
  | _ :: _ =>
      let results :=
        (λ result, mkResult (reminder result) (score result) (matchedTerms result))
          <$> Js.slice0 searchLimit fuzzyResults in
      ret (Js.slice0 limit results)
  end.

Definition hasTextQuery (query : option string) : bool :=
  match query with
  | Some q => Js.truthyStr (Some q) && negb (String.eqb q "*") && negb (Js.trimIsEmpty q)
  | None => false
  end.

Definition search (options : SearchOptions) : M (list SearchResult) :=
  ensureIndex ;;
  let* db := getDb in
  if Js.truthyStr (so_list options) && negb (hasTextQuery (so_query options)) then
    searchByList db (default "" (so_list options)) (so_completed options) (so_limit options)
  else if hasTextQuery (so_query options) then
    searchByText (default "" (so_query options)) (so_list options)
      (so_completed options) (so_flagged options) (so_limit options)
  else
    getAllReminders db (so_completed options) (so_flagged options) (so_limit options).

End Fuzzy.

(** ** Notions used by the statements *)

(** The database files [findRemindersDatabases] finds. *)
Definition databases (w : World) : list SourceFile :=
  match sourceDir w with
  | DirEntries files => filter (λ f, Is_true (isDatabaseName (sf_name f))) files
  | _ => []
  end.

(** The rows [queryAllDatabases] walks through, in the order of its two
    nested loops. *)
Definition scanned (dbs : list SourceFile) : list JoinedReminder :=
  dbs ≫= λ db, default [] (selectAll <$> sf_rows db).

(** The Dedup Key of the specification. *)
Definition dedupTuple (r : JoinedReminder) : option string * option string * Z :=
  (jr_title r, jr_listName r, jr_creationDate r).

(** A row without its identifier. *)
Definition dropId (r : JoinedReminder) : JoinedReminder := setId r 0.

(** [!r.title] is false. *)
Definition hasTitle (r : JoinedReminder) : Prop := Is_true (Js.truthyStr (jr_title r)).

#[global] Instance hasTitle_dec r : Decision (hasTitle r).
Proof. unfold hasTitle. apply _. Defined.

(** The two tables of [index.db]. *)
Definition tables (w : World) : option (list Row * list Row) :=
  match indexDbFile w with
  | Some (mkDbFile _ (Tables fts rows)) => Some (fts, rows)
  | _ => None
  end.

Definition appendRows (batch : list IndexedReminder) (t : list Row * list Row)
  : list Row * list Row :=
  (t.1 ++ (toRow <$> batch), t.2 ++ (toRow <$> batch)).

(** The tables once [batch] is inserted. *)
Definition tablesPlus (w : World) (batch : list IndexedReminder)
  : option (list Row * list Row) :=
  appendRows batch <$> tables w.

(** Everything but [index.db] is the same in both worlds. *)
Definition sameButIndexDb (w w' : World) : Prop :=
  sourceDir w' = sourceDir w ∧ fuzzyFile w' = fuzzyFile w ∧
  statsFile w' = statsFile w ∧ clock w' = clock w.

Definition countCompleted (l : list IndexedReminder) : Z :=
  Z.of_nat (length (filter (λ r, ir_completed r = true) l)).

Definition countPending (l : list IndexedReminder) : Z :=
  Z.of_nat (length (filter (λ r, ir_completed r = false) l)).

(** The three dates of a Stats Record are valid dates. *)
Definition datesValid (s : IndexStats) : Prop :=
  is_Some (indexedAt s) ∧ is_Some (oldestReminder s) ∧ is_Some (newestReminder s).

(** The source directory is replaced by a later state of it. *)
Definition withSourceDir (d : SourceDir) (w : World) : World :=
  mkWorld d (indexDbFile w) (fuzzyFile w) (statsFile w) (clock w).

(** Time passes. *)
Definition withClock (now : Z) (w : World) : World :=
  mkWorld (sourceDir w) (indexDbFile w) (fuzzyFile w) (statsFile w) now.

(** The invariant of the scan of [queryAllDatabases] once the rows [l] are
    processed. *)
Record ScanInv (l : list JoinedReminder) (st : Scan) : Prop := mkScanInv {
  inv_seen : ∀ k, k ∈ seenTitles st ↔ k ∈ dedupKey <$> l;
  inv_counter : globalIdCounter st = Z.of_nat (length (allReminders st)) + 1;
  inv_ids : ∀ i r, allReminders st !! i = Some r → jr_id r = Z.of_nat i + 1;
  inv_nodup : NoDup (dedupKey <$> allReminders st);
  inv_order : sublist (dropId <$> allReminders st) (dropId <$> l);
  inv_first : ∀ o, o ∈ allReminders st →
    ∃ pre r post, l = pre ++ r :: post ∧ o = setId r (jr_id o) ∧
                  ∀ x, x ∈ pre → dedupKey x ≠ dedupKey r;
  inv_all : ∀ r, r ∈ l → ∃ o, o ∈ allReminders st ∧ dedupKey o = dedupKey r }.

(** ** Sample sources, worlds and ranker *)

(** A pending row of the list [listId], named [listName]. *)
Definition sampleRow (pk : Z) (title : option string) (listId : Z)
    (listName : string) (created : Z) (flagged : Z) : JoinedReminder :=
  mkJoined pk title None 0 flagged 0 None created None None listId (Some listName) 0.

Definition sampleFile (name : string) (rows : list JoinedReminder) : SourceFile :=
  mkSourceFile name (Some 1000) (Some rows).

(** A world without index over the given source directory. *)
Definition freshWorld (d : SourceDir) : World := mkWorld d None None None 5000.

(** The world a call leaves behind. *)
Definition after {A} (m : M A) (w : World) : World := (m w).2.

(** Two stores that both hold "Buy milk" of list "Groceries", created at the
    same time; the second store also holds a reminder without title. *)
Definition milkSource : SourceDir :=
  DirEntries
    [sampleFile "Data-local.sqlite"
       [sampleRow 12 (Some "Buy milk") 1 "Groceries" 700000000 0;
        sampleRow 13 (Some "Call mum") 2 "Family" 700000100 1];
     sampleFile "Data-icloud.sqlite"
       [sampleRow 40 (Some "Buy milk") 1 "Groceries" 700000000 0;
        sampleRow 41 None 1 "Groceries" 700000200 0];
     mkSourceFile "notes.txt" (Some 1000) None].

Definition milkWorld : World := freshWorld milkSource.

(** An existing source directory without any file. *)
Definition emptyDirWorld : World := freshWorld (DirEntries []).

(** Two stores; the second one later gains the row "D". *)
Definition storeA : SourceFile :=
  sampleFile "Data-A.sqlite"
    [sampleRow 1 (Some "A") 1 "Home" 100 0; sampleRow 2 (Some "B") 1 "Home" 200 0].

Definition storeB (extra : list JoinedReminder) : SourceFile :=
  sampleFile "Data-B.sqlite" (sampleRow 1 (Some "C") 2 "Work" 300 0 :: extra).

Definition twoStores (extra : list JoinedReminder) : SourceDir :=
  DirEntries [storeA; storeB extra].

Definition rowD : JoinedReminder := sampleRow 2 (Some "D") 2 "Work" 400 0.

(** One store whose only row has the source id 5, and the same store once
    the row with the source id 9 is added. *)
Definition oneStore (extra : list JoinedReminder) : SourceDir :=
  DirEntries
    [sampleFile "Data-A.sqlite" (sampleRow 5 (Some "A") 1 "Home" 100 0 :: extra)].

Definition rowB9 : JoinedReminder := sampleRow 9 (Some "B") 1 "Home" 200 0.

(** The index first built over one row, then updated once the source holds
    the second row. *)
Definition grownWorld : World :=
  after updateIndex (withSourceDir (oneStore [rowB9]) (after buildIndex (freshWorld (oneStore [])))).

(** A stand-in for the MiniSearch ranking: the documents whose title
    contains the query, each with the score 1. *)
Definition titleRank (query : string) (docs : list IndexedReminder) : list SearchResult :=
  (λ d, mkResult d 1%Q [query])
    <$> filter (λ d, Is_true (Js.includes (Js.toLowerCase (ir_title d)) (Js.toLowerCase query))) docs.

(** The titles held by the [reminders] table. *)
Definition titles (w : World) : option (list string) :=
  (λ t : list Row * list Row, row_title <$> t.2) <$> tables w.

(** The canonical record of a titled, pending [sampleRow] with identifier [i]. *)
Definition sampleIndexed (i : Z) (title : string) (listId : Z) (listName : string)
    (created : Z) (flagged : bool) : IndexedReminder :=
  mkIndexed i title "" listName listId false flagged 0 None
    (created + APPLE_EPOCH_OFFSET) None.

Definition buyMilk : IndexedReminder :=
  sampleIndexed 1 "Buy milk" 1 "Groceries" 700000000 false.

Definition callMum : IndexedReminder :=
  sampleIndexed 2 "Call mum" 2 "Family" 700000100 true.

(** What the scan of [milkWorld] keeps. *)
Definition milkKept : list JoinedReminder :=
  [sampleRow 1 (Some "Buy milk") 1 "Groceries" 700000000 0;
   sampleRow 2 (Some "Call mum") 2 "Family" 700000100 1;
   sampleRow 3 None 1 "Groceries" 700000200 0].

(** The index built over [milkWorld]. *)
Definition milkIndex : World := after buildIndex milkWorld.


Definition milkStats : IndexStats :=
  mkStats 2 2 0 2 (Some 5000) (Some 1678307200000) (Some 1678307300000) (Some 2).

(** Browse everything, with a negative limit. *)
Definition browseUnlimited : SearchOptions := mkOptions None None None None (-1).

(** Flagged reminders of the lists whose name contains "groc". *)
Definition flaggedGroceries : SearchOptions :=
  mkOptions None (Some "groc") None (Some true) 10.

(** Pending reminders matching "milk", at most one. *)
Definition pendingMilk : SearchOptions :=
  mkOptions (Some "milk") None (Some false) None 1.

Definition rowUntitled : JoinedReminder := sampleRow 10 None 1 "Home" 300 0.

(** The index built over the one-row store, facing the store once it has
    gained a titled and an untitled row. *)
Definition staleWorld : World :=
  withSourceDir (oneStore [rowB9; rowUntitled]) (after buildIndex (freshWorld (oneStore []))).

Definition staleStats : IndexStats :=
  mkStats 3 1 0 3 (Some 5000) (Some 978307300000) (Some 978307400000) (Some 9).

(** The index built over the two stores, facing the stores later, once the
    second one has gained the row "D". *)
Definition lateWorld : World :=
  withClock 9000
    (withSourceDir (twoStores [rowD]) (after buildIndex (freshWorld (twoStores [])))).

(** The statistics [lateWorld] holds, and what the update makes of them. *)
Definition builtStats : IndexStats :=
  mkStats 3 2 0 3 (Some 5000) (Some 978307300000) (Some 978307500000) (Some 3).

Definition lateStats : IndexStats :=
  mkStats 3 2 0 3 (Some 9000) (Some 978307300000) (Some 978307500000) (Some 3).

(** ** Further notions of the indexer *)

(** Both tables of [index.db] hold the rows of the documents of the fuzzy
    index, in the order of the fuzzy index. *)
Definition mirrored (w : World) : Prop :=
  ∃ index, fuzzyFile w = Some index ∧ tables w = Some (toRow <$> index, toRow <$> index).

(** The high-water-mark on disk. *)
Definition storedMark (w : World) : option Z := statsFile w ≫= lastIndexedRowid.

(** The statistics file describes the fuzzy index: its three counters count
    the documents, and its high-water-mark bounds their identifiers. *)
Definition statsDescribeIndex (w : World) : Prop :=
  ∃ stats index,
    statsFile w = Some stats ∧ fuzzyFile w = Some index ∧
    totalReminders stats = Z.of_nat (length index) ∧
    completedReminders stats = countCompleted index ∧
    pendingReminders stats = countPending index ∧
    ∃ mark, lastIndexedRowid stats = Some mark ∧ ∀ x, x ∈ index → ir_id x ≤ mark.

(** The creation date of a document, in the milliseconds of a [Date]. *)
Definition createdMs (x : IndexedReminder) : Z := ir_creationDate x * 1000.

(** What the loop of [buildIndex] knows of the dates of the documents it has
    indexed so far. *)
Definition BuildDates (st : BuildLoop) : Prop :=
  (b_indexedReminders st = [] → b_oldestDate st = None) ∧
  (∀ x, x ∈ b_indexedReminders st →
     ∃ o, b_oldestDate st = Some o ∧ o ≤ ir_creationDate x ≤ b_newestDate st) ∧
  (b_indexedReminders st ≠ [] →
     ∃ x, x ∈ b_indexedReminders st ∧ b_oldestDate st = Some (ir_creationDate x)) ∧
  (b_newestDate st = 0 ∨
     ∃ x, x ∈ b_indexedReminders st ∧ b_newestDate st = ir_creationDate x) ∧
  0 ≤ b_newestDate st.

(** What the loop of [updateIndex] knows of the documents it has indexed so
    far; [hwm] and [newest] are the mark and the newest date it started
    from. *)
Definition UpdateMarks (hwm newest : Z) (st : UpdateLoop) : Prop :=
  hwm ≤ u_lastRowid st ∧
  (∀ x, x ∈ u_indexedReminders st → ir_id x ≤ u_lastRowid st) ∧
  (u_lastRowid st = hwm ∨
     ∃ x, x ∈ u_indexedReminders st ∧ ir_id x = u_lastRowid st) ∧
  ∃ n, u_newestDate st = Some n ∧ newest ≤ n ∧
       (∀ x, x ∈ u_indexedReminders st → createdMs x ≤ n) ∧
       (n = newest ∨ ∃ x, x ∈ u_indexedReminders st ∧ n = createdMs x).

(** ** Further notions of the freshness check *)

(** The loop of [getSourceModTime] over the database files. *)
Definition newestMtime (dbs : list SourceFile) : Z :=
  foldl (λ newest db,
           match sf_mtime db with
           | Some mtime => if bool_decide (newest < mtime) then mtime else newest
           | None => newest
           end) 0 dbs.

(** [index.db] was last written at the present time of the clock. *)
Definition stamped (w : World) : Prop :=
  ∃ f, indexDbFile w = Some f ∧ db_mtime f = Some (clock w).


(** Every file of the source directory is modified at [t]. *)
Definition touch (t : Z) (d : SourceDir) : SourceDir :=
  match d with
  | DirEntries files =>
      DirEntries ((λ f, mkSourceFile (sf_name f) (Some t) (sf_rows f)) <$> files)
  | _ => d
  end.

(** [lateWorld] once its source files are modified after the index was
    built. *)
Definition touchedWorld : World :=
  withSourceDir (touch 7000 (twoStores [rowD])) lateWorld.


(** The world with other contents in [fuzzy.json] and [stats.json]. *)
Definition reframe (f : option (list IndexedReminder)) (s : option IndexStats)
    (w : World) : World :=
  mkWorld (sourceDir w) (indexDbFile w) f s (clock w).

(** A source whose only database cannot be read, beside an index built
    earlier. *)
Definition lockedWorld : World :=
  withSourceDir (DirEntries [mkSourceFile "Data-local.sqlite" (Some 7000) None]) milkIndex.

(** What the loop of [updateIndex] has done to [index.db]: a record it has
    indexed is in a batch still to be inserted, or was inserted at the
    present time of the clock. *)
Definition UpdateWritten (st : UpdateLoop) (w : World) : Prop :=
  u_indexedReminders st = [] ∨ u_batch st ≠ [] ∨ stamped w.

(** ** Browse functions ([src/searcher.ts]) *)

(** [ORDER BY creation_date DESC] *)
Definition byNewest (a b : Row) : Prop := row_creation_date b ≤ row_creation_date a.

#[global] Instance byNewest_dec : RelDecision byNewest.
Proof. intros a b. unfold byNewest. apply _. Defined.

(** [ORDER BY completion_date DESC]: SQLite sorts [NULL] below every value,
    hence last in descending order. *)
Definition byCompletionNewest (a b : Row) : Prop :=
  match row_completion_date a, row_completion_date b with
  | Some x, Some y => y ≤ x
  | Some _, None => True
  | None, Some _ => False
  | None, None => True
  end.

#[global] Instance byCompletionNewest_dec : RelDecision byCompletionNewest.
Proof.
  intros a b. unfold byCompletionNewest.
  destruct (row_completion_date a), (row_completion_date b); apply _.
Defined.

(** [ORDER BY due_date ASC]: [NULL] first. *)
Definition byDue (a b : Row) : Prop :=
  match row_due_date a, row_due_date b with
  | Some x, Some y => x ≤ y
  | None, _ => True
  | Some _, None => False
  end.

#[global] Instance byDue_dec : RelDecision byDue.
Proof.
  intros a b. unfold byDue. destruct (row_due_date a), (row_due_date b); apply _.
Defined.

(** [ORDER BY completed ASC, due_date ASC NULLS LAST, creation_date DESC] *)
Definition byPendingFirst (a b : Row) : Prop :=
  row_completed a < row_completed b ∨
  (row_completed a = row_completed b ∧ byDueThenNewest a b).

#[global] Instance byPendingFirst_dec : RelDecision byPendingFirst.
Proof. intros a b. unfold byPendingFirst. apply _. Defined.

Definition getRecentReminders (limit : Z) : M (list IndexedReminder) :=
  ensureIndex ;;
  let* db := getDb in
  let* table := prepareSelect db in
  let rows := Sql.limit limit (merge_sort byNewest table) in
  ret (rowToReminder <$> rows).

Definition getPendingReminders (limit : Z) : M (list IndexedReminder) :=
  ensureIndex ;;
  let* db := getDb in
  let* table := prepareSelect db in
  let rows :=
    Sql.limit limit
      (merge_sort byDueThenNewest (filter (λ r, row_completed r = 0) table)) in
  ret (rowToReminder <$> rows).

Definition getCompletedReminders (limit : Z) : M (list IndexedReminder) :=
  ensureIndex ;;
  let* db := getDb in
  let* table := prepareSelect db in
  let rows :=
    Sql.limit limit
      (merge_sort byCompletionNewest (filter (λ r, row_completed r = 1) table)) in
  ret (rowToReminder <$> rows).

(** The [WHERE] clause of [getDueReminders]. *)
Definition dueBy (timestamp : Z) (r : Row) : Prop :=
  row_completed r = 0 ∧ ∃ d, row_due_date r = Some d ∧ d ≤ timestamp.

#[global] Instance dueBy_dec timestamp r : Decision (dueBy timestamp r).
Proof.
  unfold dueBy. destruct (row_due_date r) as [d|].
  - destruct (decide (row_completed r = 0 ∧ d ≤ timestamp)) as [H|H].
    + left. split; [tauto|]. exists d. tauto.
    + right. intros [? (d' & [= <-] & ?)]. tauto.
  - right. intros [? (d' & [=] & ?)].
Defined.

(** [beforeDate] is a valid date, given in milliseconds. *)
Definition getDueReminders (beforeDate : Z) (limit : Z) : M (list IndexedReminder) :=
  ensureIndex ;;
  let* db := getDb in
  let timestamp := beforeDate `div` 1000 in
  let* table := prepareSelect db in
  let rows := Sql.limit limit (merge_sort byDue (filter (dueBy timestamp) table)) in
  ret (rowToReminder <$> rows).

Record ListInfo := mkListInfo {
  li_name : string;
  li_pendingCount : Z;
  li_completedCount : Z }.

(** [ORDER BY name]: the byte order of the [BINARY] collation. *)
Definition byName (a b : string) : Prop := Is_true (String.leb a b).

#[global] Instance byName_dec : RelDecision byName.
Proof. intros a b. unfold byName. apply _. Defined.

(** [SUM(CASE WHEN completed = c THEN 1 ELSE 0 END)] over a group. *)
Definition sumCase (c : Z) (group : list Row) : Z :=
  foldr (λ r acc, (if bool_decide (row_completed r = c) then 1 else 0) + acc) 0 group.

Definition getLists : M (list ListInfo) :=
  ensureIndex ;;
  let* db := getDb in
  let* table := prepareSelect db in
  let rows := filter (λ r, row_list_name r ≠ "") table in
  let names := merge_sort byName (remove_dups (row_list_name <$> rows)) in
  ret ((λ name,
          let group := filter (λ r, row_list_name r = name) rows in
          mkListInfo name (sumCase 0 group) (sumCase 1 group)) <$> names).


(** ** Notions used by the statements on queries *)

(** The orders of the statements, read on the reminders returned. *)
Definition dueThenNewest (a b : IndexedReminder) : Prop :=
  match ir_dueDate a, ir_dueDate b with
  | Some x, Some y => x < y ∨ (x = y ∧ ir_creationDate b ≤ ir_creationDate a)
  | Some _, None => True
  | None, Some _ => False
  | None, None => ir_creationDate b ≤ ir_creationDate a
  end.

(** The rows of the [reminders] table. *)
Definition remindersTable (w : World) : list Row := default [] (snd <$> tables w).


Definition sumZ (l : list Z) : Z := foldr Z.add 0 l.

Definition newestFirst (a b : IndexedReminder) : Prop :=
  ir_creationDate b ≤ ir_creationDate a.

Definition earliestDueFirst (a b : IndexedReminder) : Prop :=
  match ir_dueDate a, ir_dueDate b with
  | Some x, Some y => x ≤ y
  | None, _ => True
  | Some _, None => False
  end.

Definition latestCompletionFirst (a b : IndexedReminder) : Prop :=
  match ir_completionDate a, ir_completionDate b with
  | Some x, Some y => y ≤ x
  | Some _, None => True
  | None, Some _ => False
  | None, None => True
  end.


(** ** A sample index with due dates and a completed reminder *)

Definition choresSource : SourceDir :=
  DirEntries
    [sampleFile "Data-chores.sqlite"
       [mkJoined 1 (Some "Pay rent") None 0 0 1 (Some 100) 10 None None 1 (Some "Home") 0;
        mkJoined 2 (Some "Water plants") None 1 0 0 (Some 50) 20 None (Some 60) 1
          (Some "Home") 0;
        mkJoined 3 (Some "File taxes") None 0 1 5 (Some 300) 30 None None 2 (Some "Work") 0;
        mkJoined 4 (Some "Book flights") None 0 0 9 None 40 None None 2 (Some "Work") 0]].

Definition choresIndex : World := after buildIndex (freshWorld choresSource).

Definition payRent : IndexedReminder :=
  mkIndexed 1 "Pay rent" "" "Home" 1 false false 1 (Some 978307300) 978307210 None.

Definition waterPlants : IndexedReminder :=
  mkIndexed 2 "Water plants" "" "Home" 1 true false 0 (Some 978307250) 978307220
    (Some 978307260).

Definition fileTaxes : IndexedReminder :=
  mkIndexed 3 "File taxes" "" "Work" 2 false true 5 (Some 978307500) 978307230 None.

Definition bookFlights : IndexedReminder :=
  mkIndexed 4 "Book flights" "" "Work" 2 false false 9 None 978307240 None.

(** The number of rows that satisfy a condition. *)
Definition countWhere (P : Row → Prop) `{!∀ r, Decision (P r)} (rows : list Row) : Z :=
  Z.of_nat (length (filter P rows)).



(** * Writing to Reminders ([src/applescript.ts])

    The scripts are run by [/usr/bin/osascript]; what it prints or the
    message of the error it fails with is given by the parameter
    [osascript].  A [Date] is given by what its local-time getters return;
    a [priority] is the string the caller passes. *)

(** ** More of JavaScript strings *)

Module JsStr.

(** The double quote, the backslash and the line feed. *)
Definition quote : ascii := "034"%char.
Definition backslash : ascii := "092"%char.
Definition newline : ascii := "010"%char.

Definition dq : string := String quote EmptyString.
Definition nl : string := String newline EmptyString.

(** [s.replace(/c/g, by)] for a single character [c] and a replacement
    without [$]. *)
Fixpoint replaceAll (c : ascii) (by_ : string) (s : string) : string :=
  match s with
  | EmptyString => EmptyString
  | String a s' =>
      (if Ascii.eqb a c then by_ else String a EmptyString) +:+ replaceAll c by_ s'
  end.

Fixpoint trimStart (s : string) : string :=
  match s with
  | EmptyString => EmptyString
  | String c s' => if Js.isWhiteSpace c then trimStart s' else s
  end.

Fixpoint trimEnd (s : string) : string :=
  match s with
  | EmptyString => EmptyString
  | String c s' =>
      match trimEnd s' with
      | EmptyString => if Js.isWhiteSpace c then EmptyString else String c EmptyString
      | t => String c t
      end
  end.

Definition trim (s : string) : string := trimEnd (trimStart s).

(** [s.split(c)] for a single character [c]. *)
Fixpoint split (c : ascii) (s : string) : list string :=
  match s with
  | EmptyString => [EmptyString]
  | String a s' =>
      if Ascii.eqb a c then EmptyString :: split c s'
      else match split c s' with
           | [] => [String a EmptyString]
           | part :: parts => String a part :: parts
           end
  end.

(** [parts.join(sep)] *)
Fixpoint join (sep : string) (parts : list string) : string :=
  match parts with
  | [] => EmptyString
  | [part] => part
  | part :: parts' => part +:+ sep +:+ join sep parts'
  end.

(** [s.padStart(2, '0')] *)
Definition padStart2 (s : string) : string :=
  match String.length s with
  | O => "00"
  | S O => "0" +:+ s
  | _ => s
  end.

(** [`${b}`] for a boolean. *)
Definition showBool (b : bool) : string := if b then "true" else "false".

End JsStr.

(** ** Escaping and guessing *)

Definition escapeAppleScript (str : string) : string :=
  JsStr.replaceAll JsStr.quote (String JsStr.backslash JsStr.dq)
    (JsStr.replaceAll JsStr.backslash
       (String JsStr.backslash (String JsStr.backslash EmptyString)) str).

Record ListForGuessing := mkListForGuessing { lg_name : string }.

(** The entries of [LIST_KEYWORDS], in the order of [Object.entries]. *)
Definition LIST_KEYWORDS : list (string * list string) :=
  [("groceries", ["grocery"; "groceries"; "food"; "milk"; "bread"; "eggs"; "vegetables";
                  "fruit"; "meat"; "cheese"; "butter"; "shopping"; "store"; "market";
                  "supermarket"]);
   ("shopping", ["buy"; "purchase"; "order"; "amazon"; "shop"]);
   ("work", ["work"; "meeting"; "project"; "client"; "deadline"; "presentation";
             "report"; "email"; "call"; "office"; "boss"; "colleague"]);
   ("home", ["home"; "house"; "clean"; "repair"; "fix"; "maintenance"; "yard"; "garden";
             "laundry"]);
   ("family", ["family"; "mom"; "dad"; "parent"; "kid"; "child"; "spouse"; "wife";
               "husband"; "brother"; "sister"]);
   ("health", ["health"; "doctor"; "appointment"; "medicine"; "prescription"; "gym";
               "exercise"; "workout"; "dentist"]);
   ("finance", ["pay"; "bill"; "bank"; "money"; "finance"; "tax"; "invoice"; "budget"]);
   ("travel", ["travel"; "trip"; "flight"; "hotel"; "vacation"; "pack"; "passport"])].

(** A loop over [listNames] that returns the first name whose lower-case
    form is not empty and passes the test. *)
Fixpoint firstList (test : string → bool) (listNames : list string) : option string :=
  match listNames with
  | [] => None
  | name :: listNames' =>
      let listLower := Js.toLowerCase name in
      if Js.truthyStr (Some listLower) && test listLower then Some name
      else firstList test listNames'
  end.

(** The loop over the entries of [LIST_KEYWORDS]. *)
Fixpoint byKeyword (text : string) (listNames : list string)
    (entries : list (string * list string)) : option string :=
  match entries with
  | [] => None
  | (category, keywords) :: entries' =>
      if existsb (λ kw, Js.includes text kw) keywords then
        match firstList (λ listLower, Js.includes listLower category
                                      || Js.includes category listLower) listNames with
        | Some name => Some name
        | None => byKeyword text listNames entries'
        end
      else byKeyword text listNames entries'
  end.

Definition guessListForReminder (title : string) (notes : option string)
    (availableLists : list ListForGuessing) : option string :=
  match availableLists with
  | [] => None
  | _ :: _ =>
      let text := Js.toLowerCase (title +:+ " " +:+ Js.orStr notes "") in
      let listNames := lg_name <$> availableLists in
      match firstList (λ listLower, Js.includes text listLower) listNames with
      | Some name => Some name
      | None => byKeyword text listNames LIST_KEYWORDS
      end
  end.

(** ** Dates and priorities *)

(** What [getFullYear], [getMonth], [getDate], [getHours] and [getMinutes]
    return for a date. *)
Record LocalDate := mkLocalDate {
  ld_fullYear : Z;
  ld_month : Z;
  ld_date : Z;
  ld_hours : Z;
  ld_minutes : Z }.

Definition ampm (hours : Z) : string := if bool_decide (12 ≤ hours) then "PM" else "AM".

(** [hours % 12 || 12] *)
Definition hour12 (hours : Z) : Z :=
  if bool_decide (hours `rem` 12 = 0) then 12 else hours `rem` 12.

Definition formatAppleScriptDate (date : LocalDate) : string :=
  let year := ld_fullYear date in
  let month := ld_month date + 1 in
  let day := ld_date date in
  let hours := ld_hours date in
  let minutes := ld_minutes date in
  "date " +:+ JsStr.dq +:+ pretty month +:+ "/" +:+ pretty day +:+ "/" +:+ pretty year
  +:+ " " +:+ pretty (hour12 hours) +:+ ":" +:+ JsStr.padStart2 (pretty minutes)
  +:+ " " +:+ ampm hours +:+ JsStr.dq.

(** [priority === 'high' ? 1 : priority === 'medium' ? 5 : 9] *)
Definition createPriorityValue (priority : string) : Z :=
  if String.eqb priority "high" then 1
  else if String.eqb priority "medium" then 5
  else 9.

(** [... : priority === 'low' ? 9 : 0] *)
Definition editPriorityValue (priority : string) : Z :=
  if String.eqb priority "high" then 1
  else if String.eqb priority "medium" then 5
  else if String.eqb priority "low" then 9
  else 0.


(** ** The three operations *)

Record CreateReminderOptions := mkCreateOptions {
  co_title : string;
  co_list : option string;
  co_notes : option string;
  co_dueDate : option LocalDate;
  co_priority : option string;
  co_flagged : option bool;
  co_availableLists : option (list ListForGuessing) }.

Record CreatedReminder := mkCreated {
  cr_title : string;
  cr_list : string;
  cr_id : string;
  cr_wasGuessed : bool }.

Record EditReminderOptions := mkEditOptions {
  eo_searchTitle : string;
  eo_searchList : option string;
  eo_newTitle : option string;
  eo_notes : option string;
  eo_dueDate : option (option LocalDate);     (* [Some None] is [null] *)
  eo_priority : option string;
  eo_flagged : option bool }.

Record EditReminderResult := mkEdited {
  er_originalTitle : string;
  er_newTitle : string;
  er_list : string }.

Record CompleteReminderResult := mkCompleted {
  cp_title : string;
  cp_list : string;
  cp_completed : bool }.

(** The errors the three operations throw, by their message. *)
Inductive ScriptError :=
  | ListNotInReminders (listName : string)   (* List ... does not exist in Reminders *)
  | FailedToCreate (message : string)        (* Failed to create reminder: ... *)
  | NoUpdatesSpecified                       (* No updates specified *)
  | NoPendingMatch (title : string)          (* No pending reminder found matching ... *)
  | ListDoesNotExist (list_ : option string) (* List ... does not exist *)
  | FailedToEdit (message : string)          (* Failed to edit reminder: ... *)
  | FailedToComplete (message : string).     (* Failed to complete reminder: ... *)

(** What [execFileSync] does: it returns what the command has printed, or
    throws an error with a message. *)
Inductive Exec :=
  | Printed (stdout : string)
  | Failed (message : string).

(** A template literal that starts with a line break and holds the given
    lines. *)
Definition scriptOf (lines : list string) : string :=
  JsStr.nl +:+ foldr (λ line rest, line +:+ JsStr.nl +:+ rest) EmptyString lines.

Definition quoted (s : string) : string := JsStr.dq +:+ s +:+ JsStr.dq.

(** The list [createReminder] files the reminder in, and whether it has
    guessed it. *)
Definition chooseList (options : CreateReminderOptions) : string * bool :=
  if Js.truthyStr (co_list options) then (default "" (co_list options), false)
  else
    match co_availableLists options with
    | Some (l :: ls) =>
        match guessListForReminder (co_title options) (co_notes options) (l :: ls) with
        | Some guessed =>
            if Js.truthyStr (Some guessed) then (guessed, true) else ("Reminders", false)
        | None => ("Reminders", false)
        end
    | _ => ("Reminders", false)
    end.

Definition createScript (options : CreateReminderOptions) (listName : string) : string :=
  let escapedTitle := escapeAppleScript (co_title options) in
  let escapedList := escapeAppleScript listName in
  let properties := "name:" +:+ quoted escapedTitle in
  let properties :=
    if Js.truthyStr (co_notes options)
    then properties +:+ ", body:" +:+ quoted (escapeAppleScript (default "" (co_notes options)))
    else properties in
  let properties :=
    match co_dueDate options with
    | Some dueDate => properties +:+ ", due date:" +:+ formatAppleScriptDate dueDate
    | None => properties
    end in
  let properties :=
    if Js.truthyStr (co_priority options)
    then properties +:+ ", priority:"
         +:+ pretty (createPriorityValue (default "" (co_priority options)))
    else properties in
  let properties :=
    match co_flagged options with
    | Some true => properties +:+ ", flagged:true"
    | _ => properties
    end in
  scriptOf
    ["tell application " +:+ quoted "Reminders";
     "  set targetList to list " +:+ quoted escapedList;
     "  set newReminder to make new reminder at end of targetList with properties {"
       +:+ properties +:+ "}";
     "  set reminderId to id of newReminder";
     "  return reminderId";
     "end tell"].

(** The lines of [updates] in [editReminder]. *)
Definition editUpdates (options : EditReminderOptions) : list string :=
  match eo_newTitle options with
  | Some newTitle => ["set name of targetReminder to " +:+ quoted (escapeAppleScript newTitle)]
  | None => []
  end ++
  match eo_notes options with
  | Some notes => ["set body of targetReminder to " +:+ quoted (escapeAppleScript notes)]
  | None => []
  end ++
  match eo_dueDate options with
  | Some None => ["set due date of targetReminder to missing value"]
  | Some (Some dueDate) =>
      ["set due date of targetReminder to " +:+ formatAppleScriptDate dueDate]
  | None => []
  end ++
  match eo_priority options with
  | Some priority =>
      ["set priority of targetReminder to " +:+ pretty (editPriorityValue priority)]
  | None => []
  end ++
  match eo_flagged options with
  | Some flagged => ["set flagged of targetReminder to " +:+ JsStr.showBool flagged]
  | None => []
  end.

Definition editScript (options : EditReminderOptions) : string :=
  let escapedSearchTitle := escapeAppleScript (eo_searchTitle options) in
  let updatesScript := JsStr.join (JsStr.nl +:+ "        ") (editUpdates options) in
  if Js.truthyStr (eo_searchList options) then
    let escapedList := escapeAppleScript (default "" (eo_searchList options)) in
    scriptOf
      ["tell application " +:+ quoted "Reminders";
       "  set targetList to list " +:+ quoted escapedList;
       "  repeat with r in reminders of targetList";
       "    if completed of r is false and name of r contains "
         +:+ quoted escapedSearchTitle +:+ " then";
       "      set targetReminder to r";
       "      set originalName to name of targetReminder";
       "      " +:+ updatesScript;
       "      return originalName & " +:+ quoted "|" +:+ " & (name of targetReminder) & "
         +:+ quoted "|" +:+ " & " +:+ quoted escapedList;
       "    end if";
       "  end repeat";
       "  error " +:+ quoted "No matching reminder found";
       "end tell"]
  else
    scriptOf
      ["tell application " +:+ quoted "Reminders";
       "  repeat with aList in lists";
       "    repeat with r in reminders of aList";
       "      if completed of r is false and name of r contains "
         +:+ quoted escapedSearchTitle +:+ " then";
       "        set targetReminder to r";
       "        set originalName to name of targetReminder";
       "        " +:+ updatesScript;
       "        return originalName & " +:+ quoted "|" +:+ " & (name of targetReminder) & "
         +:+ quoted "|" +:+ " & (name of aList)";
       "      end if";
       "    end repeat";
       "  end repeat";
       "  error " +:+ quoted "No matching reminder found";
       "end tell"].

Definition completeScript (title : string) (list_ : option string) : string :=
  let escapedTitle := escapeAppleScript title in
  if Js.truthyStr list_ then
    let escapedList := escapeAppleScript (default "" list_) in
    scriptOf
      ["tell application " +:+ quoted "Reminders";
       "  set targetList to list " +:+ quoted escapedList;
       "  repeat with r in reminders of targetList";
       "    if completed of r is false and name of r contains "
         +:+ quoted escapedTitle +:+ " then";
       "      set completed of r to true";
       "      return (name of r) & " +:+ quoted "|" +:+ " & " +:+ quoted escapedList;
       "    end if";
       "  end repeat";
       "  error " +:+ quoted "No matching reminder found";
       "end tell"]
  else
    scriptOf
      ["tell application " +:+ quoted "Reminders";
       "  repeat with aList in lists";
       "    repeat with r in reminders of aList";
       "      if completed of r is false and name of r contains "
         +:+ quoted escapedTitle +:+ " then";
       "        set completed of r to true";
       "        return (name of r) & " +:+ quoted "|" +:+ " & (name of aList)";
       "      end if";
       "    end repeat";
       "  end repeat";
       "  error " +:+ quoted "No matching reminder found";
       "end tell"].

Section AppleScript.

Variable osascript : string → Exec.

Definition createReminder (options : CreateReminderOptions)
  : CreatedReminder + ScriptError :=
  let '(listName, wasGuessed) := chooseList options in
  match osascript (createScript options listName) with
  | Printed stdout =>
      inl (mkCreated (co_title options) listName (JsStr.trim stdout) wasGuessed)
  | Failed message =>
      if Js.includes message "list" && Js.includes message "doesn't exist"
      then inr (ListNotInReminders listName)
      else inr (FailedToCreate message)
  end.

Definition editReminder (options : EditReminderOptions)
  : EditReminderResult + ScriptError :=
  match editUpdates options with
  | [] => inr NoUpdatesSpecified
  | _ :: _ =>
      match osascript (editScript options) with
      | Printed stdout =>
          let parts := JsStr.split "|" (JsStr.trim stdout) in
          inl (mkEdited
                 (Js.orStr (parts !! 0%nat) (eo_searchTitle options))
                 (Js.orStr (parts !! 1%nat)
                    (Js.orStr (eo_newTitle options) (eo_searchTitle options)))
                 (Js.orStr (parts !! 2%nat) (Js.orStr (eo_searchList options) "Unknown")))
      | Failed message =>
          if Js.includes message "No matching reminder found"
          then inr (NoPendingMatch (eo_searchTitle options))
          else if Js.includes message "doesn't exist"
          then inr (ListDoesNotExist (eo_searchList options))
          else inr (FailedToEdit message)
      end
  end.

Definition completeReminder (title : string) (list_ : option string)
  : CompleteReminderResult + ScriptError :=
  match osascript (completeScript title list_) with
  | Printed stdout =>
      let parts := JsStr.split "|" (JsStr.trim stdout) in
      inl (mkCompleted (Js.orStr (parts !! 0%nat) title)
             (Js.orStr (parts !! 1%nat) (Js.orStr list_ "Unknown")) true)
  | Failed message =>
      if Js.includes message "No matching reminder found"
      then inr (NoPendingMatch title)
      else if Js.includes message "doesn't exist"
      then inr (ListDoesNotExist list_)
      else inr (FailedToComplete message)
  end.

End AppleScript.

(** ** Notions used by the statements on scripts *)

(** The character an escape sequence of an AppleScript string literal
    stands for. *)
Definition escaped (c : ascii) : option ascii :=
  if Ascii.eqb c JsStr.quote then Some JsStr.quote
  else if Ascii.eqb c JsStr.backslash then Some JsStr.backslash
  else if Ascii.eqb c "n" then Some JsStr.newline
  else if Ascii.eqb c "r" then Some "013"%char
  else if Ascii.eqb c "t" then Some "009"%char
  else None.

(** Reading an AppleScript string literal after its opening quote: the
    string it denotes and the text that follows its closing quote. *)
Fixpoint readLiteral (s : string) : option (string * string) :=
  match s with
  | EmptyString => None
  | String c s' =>
      if Ascii.eqb c JsStr.quote then Some (EmptyString, s')
      else if Ascii.eqb c JsStr.backslash then
        match s' with
        | EmptyString => None
        | String d s'' =>
            match escaped d, readLiteral s'' with
            | Some ch, Some (body, rest) => Some (String ch body, rest)
            | _, _ => None
            end
        end
      else
        match readLiteral s' with
        | Some (body, rest) => Some (String c body, rest)
        | None => None
        end
  end.

(** What [escapeAppleScript] makes of one character. *)
Definition escapeChar (c : ascii) : string :=
  if Ascii.eqb c JsStr.backslash then String JsStr.backslash (String JsStr.backslash "")
  else if Ascii.eqb c JsStr.quote then String JsStr.backslash JsStr.dq
  else String c "".


(** An [osascript] that fails with a message that quotes the script it was
    given, as the message of a failed [execFileSync] does: it starts with
    the command line. *)
Definition quotesScript (osascript : string → Exec) : Prop :=
  ∀ script message, osascript script = Failed message →
    Js.includes message script = true.

(** Sample lists and runs. *)
Definition someLists : list ListForGuessing :=
  [mkListForGuessing "Work"; mkListForGuessing "Groceries"; mkListForGuessing "Home"].

(** Reminders prints the identifier of the reminder it creates. *)
Definition printsId (script : string) : Exec := Printed ("x-apple-reminder://1" +:+ JsStr.nl).

(** Reminders is not running: the command fails. *)
Definition failsWith (stderr : string) (script : string) : Exec :=
  Failed ("Command failed: /usr/bin/osascript -e " +:+ script +:+ JsStr.nl +:+ stderr).

(** * Properties *)

(** ** String and SQL helpers on samples *)
Example lower_ex : Js.toLowerCase "Groceries-2" = "groceries-2".
Proof. reflexivity. Qed.

Example includes_ex : Js.includes "groceries" "cer" = true ∧ Js.includes "groceries" "x" = false.
Proof. split; reflexivity. Qed.

Example endsWith_ex :
  Js.endsWith "Data-1.sqlite" ".sqlite" = true ∧ Js.endsWith "Data-1.sqlite-wal" ".sqlite" = false.
Proof. split; reflexivity. Qed.

Example like_ex :
  Sql.like "%groc%" "groceries" = true ∧ Sql.like "%_%" "work" = true ∧
  Sql.like "%_%" "" = false ∧ Sql.like "%home%" "work" = false.
Proof. repeat split; reflexivity. Qed.

Example slice0_ex : Js.slice0 (-1) [1; 2; 3] = [1; 2] ∧ Js.slice0 2 [1; 2; 3] = [1; 2].
Proof. split; reflexivity. Qed.

Example like_wildcard_ex :
  Sql.like "%_%" "Family" = true ∧ Js.includes "family" "_" = false.
Proof. split; reflexivity. Qed.

(** ** Reasoning in the monad *)
Lemma bind_Ok {A B} (m : M A) (k : A → M B) w b w' :
  bind m k w = (Ok b, w') → ∃ a w1, m w = (Ok a, w1) ∧ k a w1 = (Ok b, w').
Proof.
  unfold bind. destruct (m w) as [[a|e] w1]; [eauto | discriminate].
Qed.

Lemma bind_eq {A B} (m : M A) (k : A → M B) w a w1 :
  m w = (Ok a, w1) → bind m k w = k a w1.
Proof. unfold bind. by intros ->. Qed.

Lemma bind_throw {A B} (m : M A) (k : A → M B) w e w1 :
  m w = (Throw e, w1) → bind m k w = (Throw e, w1).
Proof. unfold bind. by intros ->. Qed.

Ltac inv_bind H :=
  let a := fresh "a" in let w := fresh "w" in let E := fresh "E" in
  apply bind_Ok in H as (a & w & E & H).

Tactic Notation "bind_inv" hyp(H) "as" ident(a) ident(w) ident(E) :=
  apply bind_Ok in H as (a & w & E & H).

(** ** Operations that only read the world *)
Lemma findRemindersDatabases_world w r w' :
  findRemindersDatabases w = (r, w') → w' = w.
Proof.
  unfold findRemindersDatabases, bind, get, ret, throw. simpl.
  destruct (sourceDir w); by intros [= _ <-].
Qed.

Lemma findRemindersDatabases_eq w :
  findRemindersDatabases w =
  (match sourceDir w with DirUnlistable => Throw FsError | _ => Ok (databases w) end, w).
Proof.
  unfold findRemindersDatabases, databases, bind, get, ret, throw. simpl.
  by destruct (sourceDir w).
Qed.

Lemma getStats_world w r w' : getStats w = (r, w') → w' = w.
Proof.
  unfold getStats, bind, get, ret. simpl. destruct (statsFile w); by intros [= _ <-].
Qed.


Lemma getStats_Some w existing :
  getStats w = (Ok (Some existing), w) →
  ∃ data, statsFile w = Some data ∧ lastIndexedRowid existing = lastIndexedRowid data.
Proof.
  unfold getStats, bind, get, ret. simpl.
  destruct (statsFile w) as [data|]; [|done]. intros [= <-]. eauto.
Qed.

Lemma indexExists_eq w :
  indexExists w =
  (Ok (match indexDbFile w, fuzzyFile w with Some _, Some _ => true | _, _ => false end), w).
Proof. done. Qed.

Lemma queryAllDatabases_world w r w' : queryAllDatabases w = (r, w') → w' = w.
Proof.
  unfold queryAllDatabases, bind. rewrite findRemindersDatabases_eq.
  destruct (sourceDir w); simpl.
  2: by intros [= _ <-].
  all: destruct (databases w); by intros [= _ <-].
Qed.

Lemma truthyNum_Some n : Js.truthyNum n = true → ∃ k, n = Some k ∧ k ≠ 0.
Proof. destruct n as [[| |]|]; simpl; try done; eauto. Qed.

Lemma liftResult_Ok {A} (r : Result A) w a w' :
  liftResult r w = (Ok a, w') → r = Ok a ∧ w' = w.
Proof. destruct r; simpl; unfold ret, throw; by intros [= <- <-]. Qed.

Lemma prepareSelect_Ok db rows w w' :
  prepareSelect db w = (Ok rows, w') → w' = w ∧ ∃ fts, db = Tables fts rows.
Proof.
  destruct db; simpl; unfold throw, ret; [done|]. intros [= <- <-]. eauto.
Qed.

(** ** Ingestion: the not-found error *)

(** Claim C7, as amended.  Ingestion raises the not-found error exactly when
    no database file is found: the source directory does not exist, or it
    exists and holds no file named [Data-*.sqlite].  An existing directory
    without such a file raises the same error as a missing one. *)
Theorem source_not_found_iff_no_database w :
  (queryAllDatabases w).1 = Throw SourceNotFound ↔
  sourceDir w = DirAbsent ∨
  ∃ files, sourceDir w = DirEntries files ∧
           ∀ f, f ∈ files → isDatabaseName (sf_name f) = false.
Proof.
  unfold queryAllDatabases, bind. rewrite findRemindersDatabases_eq.
  unfold databases.
  destruct (sourceDir w) as [| |files] eqn:Hdir; simpl.
  - split; [by left | done].
  - split; [done | intros [|(? & ? & _)]; done].
  - destruct (filter _ files) as [|f fs] eqn:Hf; simpl.
    + split; [intros _; right | done].
      exists files. split; [done|]. intros f Hin.
      destruct (isDatabaseName (sf_name f)) eqn:Hn; [|done].
      assert (f ∈ filter (λ f, Is_true (isDatabaseName (sf_name f))) files) as Hx.
      { apply list_elem_of_filter. split; [by rewrite Hn | done]. }
      rewrite Hf in Hx. by apply elem_of_nil in Hx.
    + split; [done|]. intros [|(files' & [= <-] & Hall)]; [done|].
      assert (f ∈ filter (λ f, Is_true (isDatabaseName (sf_name f))) files) as Hx.
      { rewrite Hf. left. }
      apply list_elem_of_filter in Hx as [Hx1 Hx2].
      rewrite (Hall _ Hx2) in Hx1. done.
Qed.

Lemma source_not_found_iff_no_database_witness :
  sourceDir (freshWorld DirAbsent) = DirAbsent ∧
  (queryAllDatabases (freshWorld DirAbsent)).1 = Throw SourceNotFound.
Proof.
  split; [reflexivity|].
  apply (proj2 (source_not_found_iff_no_database (freshWorld DirAbsent))).
  left. reflexivity.
Defined.

(** The directory exists, it is empty, and ingestion raises the not-found
    error all the same. *)
Lemma empty_directory_raises_not_found :
  sourceDir emptyDirWorld = DirEntries [] ∧
  sourceDir emptyDirWorld ≠ DirAbsent ∧
  (queryAllDatabases emptyDirWorld).1 = Throw SourceNotFound.
Proof. split_and!; [reflexivity | discriminate | reflexivity]. Qed.

(** ** Ingestion: deduplication and numbering *)

(** The full query returns the rows that are not marked for deletion, by
    ascending creation date. *)
Lemma selectAll_elem_of rows r :
  r ∈ selectAll rows ↔ r ∈ rows ∧ jr_markedForDeletion r = 0.
Proof.
  unfold selectAll. rewrite merge_sort_Permutation, list_elem_of_filter. tauto.
Qed.

Lemma selectAll_sorted rows : Sorted byCreation (selectAll rows).
Proof.
  apply Sorted_merge_sort. intros a b. unfold byCreation. lia.
Qed.

(** The incremental query returns those of them whose source id is above
    the given one. *)
Lemma selectAfter_elem_of rowid rows r :
  r ∈ selectAfter rowid rows ↔
  r ∈ rows ∧ jr_markedForDeletion r = 0 ∧ rowid < jr_id r.
Proof.
  unfold selectAfter. rewrite merge_sort_Permutation, list_elem_of_filter. tauto.
Qed.

Lemma foldl_scanFile dbs : ∀ st,
  foldl scanFile st dbs = foldl scanRow st (scanned dbs).
Proof.
  induction dbs as [|db dbs IH]; intros st; [done|].
  unfold scanned in *. rewrite bind_cons, foldl_app. simpl. rewrite IH.
  unfold scanFile. by destruct (sf_rows db).
Qed.

Lemma dedupKey_setId r i : dedupKey (setId r i) = dedupKey r.
Proof. done. Qed.

Lemma dropId_setId r i : dropId (setId r i) = dropId r.
Proof. done. Qed.

Lemma dedupKey_tuple r r' : dedupTuple r = dedupTuple r' → dedupKey r = dedupKey r'.
Proof. unfold dedupTuple, dedupKey. by intros [= -> -> ->]. Qed.

Lemma ScanInv_init : ScanInv [] (mkScan [] ∅ 1).
Proof.
  split; simpl; try done.
  - intros k. set_solver.
  - constructor.
  - intros o Ho. by apply elem_of_nil in Ho.
  - intros o Ho. by apply elem_of_nil in Ho.
Qed.

Lemma ScanInv_keys l st k :
  ScanInv l st → k ∈ dedupKey <$> allReminders st → k ∈ dedupKey <$> l.
Proof.
  intros Hinv (o & -> & Ho)%list_elem_of_fmap.
  destruct (inv_first _ _ Hinv o Ho) as (pre & r & post & -> & Heq & _).
  rewrite Heq, dedupKey_setId. apply list_elem_of_fmap. exists r. split; [done|].
  apply elem_of_app. right. left.
Qed.

Lemma ScanInv_step l st r : ScanInv l st → ScanInv (l ++ [r]) (scanRow st r).
Proof.
  intros Hinv. unfold scanRow. destruct (decide (dedupKey r ∈ seenTitles st)) as [Hin|Hnin].
  - split.
    + intros k. rewrite fmap_app, elem_of_app, (inv_seen _ _ Hinv). simpl.
      rewrite list_elem_of_singleton. split; [by left|].
      intros [?| ->]; [done|]. by apply (inv_seen _ _ Hinv).
    + apply Hinv.
    + apply Hinv.
    + apply Hinv.
    + rewrite fmap_app. apply sublist_inserts_r, Hinv.
    + intros o Ho. destruct (inv_first _ _ Hinv o Ho) as (pre & r0 & post & -> & Heq & Hpre).
      exists pre, r0, (post ++ [r]). split; [by rewrite <-app_assoc|done].
    + intros r0 [Hr0| ->%list_elem_of_singleton]%elem_of_app.
      * by apply Hinv.
      * apply (inv_seen _ _ Hinv) in Hin. apply list_elem_of_fmap in Hin as (r1 & Hk & Hr1).
        destruct (inv_all _ _ Hinv r1 Hr1) as (o & Ho & Hko). exists o. split; [done|congruence].
  - assert (dedupKey r ∉ dedupKey <$> l) as Hl by (by rewrite <-(inv_seen _ _ Hinv)).
    assert (dedupKey r ∉ dedupKey <$> allReminders st) as Hall.
    { intros Hk. by apply Hl, (ScanInv_keys _ st). }
    split; simpl.
    + intros k. rewrite fmap_app, elem_of_app, elem_of_union, (inv_seen _ _ Hinv). simpl.
      rewrite elem_of_singleton, list_elem_of_singleton. tauto.
    + rewrite length_app. simpl. rewrite (inv_counter _ _ Hinv). lia.
    + intros i r0 Hi. apply lookup_app_Some in Hi as [Hi|[Hlen Hi]].
      * by apply Hinv.
      * apply list_lookup_singleton_Some in Hi as [Hi <-]. simpl.
        rewrite (inv_counter _ _ Hinv). lia.
    + rewrite fmap_app. simpl. apply NoDup_app. split_and!.
      * apply Hinv.
      * intros k Hk ->%list_elem_of_singleton. done.
      * apply NoDup_singleton.
    + rewrite !fmap_app. apply sublist_app; [apply Hinv|]. simpl. by rewrite dropId_setId.
    + intros o [Ho| ->%list_elem_of_singleton]%elem_of_app.
      * destruct (inv_first _ _ Hinv o Ho) as (pre & r0 & post & -> & Heq & Hpre).
        exists pre, r0, (post ++ [r]). split; [by rewrite <-app_assoc|done].
      * exists l, r, []. split_and!; [done|done|].
        intros x Hx Hk. apply Hl. rewrite <-Hk. apply list_elem_of_fmap. eauto.
    + intros r0 [Hr0| ->%list_elem_of_singleton]%elem_of_app.
      * destruct (inv_all _ _ Hinv r0 Hr0) as (o & Ho & Hko). exists o.
        split; [|done]. apply elem_of_app. by left.
      * exists (setId r (globalIdCounter st)). split; [|done].
        apply elem_of_app. right. left.
Qed.

Lemma ScanInv_foldl l : ScanInv l (foldl scanRow (mkScan [] ∅ 1) l).
Proof.
  induction l as [|r l IH] using rev_ind.
  - apply ScanInv_init.
  - rewrite foldl_app. simpl. by apply ScanInv_step.
Qed.

Lemma queryAllDatabases_Ok w out w' :
  queryAllDatabases w = (Ok out, w') →
  w' = w ∧ databases w ≠ [] ∧
  out = allReminders (foldl scanRow (mkScan [] ∅ 1) (scanned (databases w))).
Proof.
  unfold queryAllDatabases, bind. rewrite findRemindersDatabases_eq.
  assert (∀ dbs, (match dbs with
                  | [] => throw SourceNotFound
                  | _ :: _ => ret (allReminders (foldl scanFile (mkScan [] ∅ 1) dbs))
                  end) w = (Ok out, w') →
                 w' = w ∧ dbs ≠ [] ∧
                 out = allReminders (foldl scanRow (mkScan [] ∅ 1) (scanned dbs))) as Hdbs.
  { intros [|db dbs]; [done|]. intros [= <- <-]. by rewrite <-foldl_scanFile. }
  destruct (sourceDir w); [apply Hdbs | done | apply Hdbs].
Qed.

Lemma queryAllDatabases_eq w :
  databases w ≠ [] →
  queryAllDatabases w =
  (Ok (allReminders (foldl scanRow (mkScan [] ∅ 1) (scanned (databases w)))), w).
Proof.
  intros Hdbs. unfold queryAllDatabases, bind. rewrite findRemindersDatabases_eq.
  assert (sourceDir w ≠ DirUnlistable) as Hdir.
  { intros Hd. unfold databases in Hdbs. by rewrite Hd in Hdbs. }
  rewrite <-foldl_scanFile.
  destruct (sourceDir w); [|done|]; by destruct (databases w).
Qed.

Lemma ids_NoDup out :
  (∀ i r, out !! i = Some r → jr_id r = Z.of_nat i + 1) → NoDup (jr_id <$> out).
Proof.
  intros Hids. apply NoDup_alt. intros i j x Hi Hj.
  apply list_lookup_fmap_Some in Hi as (r & -> & Hr).
  apply list_lookup_fmap_Some in Hj as (r' & Heq & Hr').
  apply Hids in Hr, Hr'. lia.
Qed.

Lemma queryAllDatabases_ids w out w' :
  queryAllDatabases w = (Ok out, w') → NoDup (jr_id <$> filter hasTitle out).
Proof.
  intros (-> & _ & ->)%queryAllDatabases_Ok.
  pose proof (ScanInv_foldl (scanned (databases w))) as Hinv.
  eapply sublist_NoDup; [apply ids_NoDup, Hinv|].
  apply fmap_sublist, sublist_filter.
Qed.



(** The scenario of the specification: "Buy milk" of list "Groceries" is in
    two source files with the same creation timestamp, and the rebuilt index
    holds it once. *)
Example buy_milk_indexed_once :
  titles (after buildIndex milkWorld) = Some ["Buy milk"; "Call mum"] ∧
  fuzzyFile (after buildIndex milkWorld) = Some [buyMilk; callMum].
Proof. split; vm_compute; reflexivity. Qed.

(** Two rows whose keys render to the same string are one record, also when
    title and list name differ. *)
Example rendered_key_collision :
  dedupKey (sampleRow 1 (Some "a|b") 1 "c" 5 0) = dedupKey (sampleRow 2 (Some "a") 2 "b|c" 5 0).
Proof. reflexivity. Qed.

(** ** Writing the indexes *)
Lemma insertRows_Ok fts rows batch db' :
  insertRows (Tables fts rows) batch = Ok db' →
  db' = Tables (fts ++ (toRow <$> batch)) (rows ++ (toRow <$> batch)).
Proof.
  revert fts rows. induction batch as [|r batch IH]; intros fts rows; simpl.
  - intros [= <-]. by rewrite !app_nil_r.
  - case_decide; [done|]. intros ->%IH. by rewrite <-!app_assoc.
Qed.

Lemma insertRows_fresh fts rows batch :
  NoDup ((row_id <$> rows) ++ (ir_id <$> batch)) →
  insertRows (Tables fts rows) batch =
  Ok (Tables (fts ++ (toRow <$> batch)) (rows ++ (toRow <$> batch))).
Proof.
  revert fts rows. induction batch as [|r batch IH]; intros fts rows Hnd; simpl.
  - by rewrite !app_nil_r.
  - apply NoDup_app in Hnd as (Hrows & Hdis & Hb).
    rewrite decide_False; last first.
    { intros Hin. apply (Hdis _ Hin). left. }
    rewrite IH; [by rewrite <-!app_assoc|].
    rewrite fmap_app. simpl. rewrite <-app_assoc. simpl.
    apply NoDup_app. split_and!; [done| |done].
    intros x Hx [->|Hx']%elem_of_cons.
    + apply (Hdis _ Hx). left.
    + apply (Hdis _ Hx). by right.
Qed.

Lemma appendRows_app b1 b2 t : appendRows b2 (appendRows b1 t) = appendRows (b1 ++ b2) t.
Proof. unfold appendRows. simpl. by rewrite fmap_app, !app_assoc. Qed.

Lemma appendRows_nil t : appendRows [] t = t.
Proof. destruct t. unfold appendRows. simpl. by rewrite !app_nil_r. Qed.

Lemma tablesPlus_nil w : tablesPlus w [] = tables w.
Proof.
  unfold tablesPlus. destruct (tables w); simpl; [|done]. by rewrite appendRows_nil.
Qed.

Lemma tablesPlus_app w w' b b' l :
  tablesPlus w' b' = tablesPlus w b →
  tablesPlus w' (b' ++ l) = tablesPlus w (b ++ l).
Proof.
  unfold tablesPlus.
  destruct (tables w), (tables w'); simpl; try done.
  intros Heq. apply (inj Some) in Heq. by rewrite <-!appendRows_app, Heq.
Qed.

Lemma tablesPlus_Some w batch fts rows :
  tablesPlus w batch = Some (fts, rows) →
  ∃ fts0 rows0, tables w = Some (fts0, rows0) ∧
                fts = fts0 ++ (toRow <$> batch) ∧ rows = rows0 ++ (toRow <$> batch).
Proof.
  unfold tablesPlus. destruct (tables w) as [[fts0 rows0]|]; [|done].
  intros [= <- <-]. eauto.
Qed.

Lemma sameButIndexDb_refl w : sameButIndexDb w w.
Proof. done. Qed.

Lemma sameButIndexDb_trans w1 w2 w3 :
  sameButIndexDb w1 w2 → sameButIndexDb w2 w3 → sameButIndexDb w1 w3.
Proof. unfold sameButIndexDb. intros (?&?&?&?) (?&?&?&?). split_and!; congruence. Qed.

Lemma ir_id_toIndexed now (l : list JoinedReminder) : ir_id <$> (toIndexed now <$> l) = jr_id <$> l.
Proof. rewrite <-list_fmap_compose. done. Qed.

Lemma row_id_toRow (l : list IndexedReminder) : row_id <$> (toRow <$> l) = ir_id <$> l.
Proof. rewrite <-list_fmap_compose. done. Qed.

Lemma insertBatch_Ok batch w u w' :
  insertBatch batch w = (Ok u, w') →
  sameButIndexDb w w' ∧ tables w' = tablesPlus w batch.
Proof.
  unfold insertBatch, tablesPlus, tables, bind, get, put, throw. simpl.
  destruct (indexDbFile w) as [[m db]|] eqn:Hdb; [|done]. simpl.
  destruct (insertRows db batch) as [db'|] eqn:Hins; [|done].
  intros [= _ <-]. split; [done|]. simpl.
  destruct db as [|fts rows].
  - destruct batch; simpl in Hins; [by injection Hins as <-|done].
  - apply insertRows_Ok in Hins as ->. done.
Qed.

Lemma insertBatch_fresh batch w fts rows :
  tables w = Some (fts, rows) →
  NoDup ((row_id <$> rows) ++ (ir_id <$> batch)) →
  ∃ w', insertBatch batch w = (Ok tt, w').
Proof.
  unfold insertBatch, tables, bind, get, put, throw. simpl.
  destruct (indexDbFile w) as [[m [|fts' rows']]|]; try done.
  intros [= -> ->] Hnd. simpl. rewrite insertRows_fresh by done. eauto.
Qed.

Lemma pushBatch_Ok batch x w batch' w' :
  pushBatch batch x w = (Ok batch', w') →
  sameButIndexDb w w' ∧ tablesPlus w' batch' = tablesPlus w (batch ++ [x]).
Proof.
  unfold pushBatch. case_bool_decide.
  - intros Hp. inv_bind Hp. injection Hp as <- <-.
    apply insertBatch_Ok in E as [? ?]. split; [done|].
    by rewrite tablesPlus_nil.
  - by intros [= <- <-].
Qed.

Lemma pushBatch_fresh batch x w fts rows :
  tablesPlus w batch = Some (fts, rows) →
  NoDup ((row_id <$> rows) ++ [ir_id x]) →
  ∃ batch' w', pushBatch batch x w = (Ok batch', w').
Proof.
  intros (fts0 & rows0 & Ht & -> & ->)%tablesPlus_Some Hnd.
  unfold pushBatch. case_bool_decide; [|unfold ret; eauto].
  destruct (insertBatch_fresh (batch ++ [x]) w fts0 rows0 Ht) as [w' Hw'].
  { rewrite !fmap_app, row_id_toRow in *. simpl. by rewrite app_assoc. }
  exists [], w'. by rewrite (bind_eq _ _ _ _ _ Hw').
Qed.

Lemma flushBatch_Ok batch w u w' :
  flushBatch batch w = (Ok u, w') →
  sameButIndexDb w w' ∧ tables w' = tablesPlus w batch.
Proof.
  destruct batch as [|x batch]; simpl.
  - intros [= _ <-]. by rewrite tablesPlus_nil.
  - apply insertBatch_Ok.
Qed.

Lemma flushBatch_fresh batch w fts rows :
  tablesPlus w batch = Some (fts, rows) →
  NoDup (row_id <$> rows) →
  ∃ w', flushBatch batch w = (Ok tt, w').
Proof.
  intros (fts0 & rows0 & Ht & -> & ->)%tablesPlus_Some Hnd.
  destruct batch as [|x batch]; [simpl; unfold ret; eauto|].
  apply (insertBatch_fresh _ w fts0 rows0 Ht).
  by rewrite fmap_app, row_id_toRow in Hnd.
Qed.

Lemma addAll_Ok docs : ∀ index index', addAll index docs = Ok index' → index' = index ++ docs.
Proof.
  induction docs as [|d docs IH]; intros index index'; simpl.
  - intros [= <-]. by rewrite app_nil_r.
  - unfold miniAdd. case_decide; [done|]. intros ->%IH. by rewrite <-app_assoc.
Qed.

Lemma addAll_fresh docs : ∀ index,
  NoDup ((ir_id <$> index) ++ (ir_id <$> docs)) → addAll index docs = Ok (index ++ docs).
Proof.
  induction docs as [|d docs IH]; intros index Hnd; simpl.
  - by rewrite app_nil_r.
  - apply NoDup_app in Hnd as (Hi & Hdis & Hd).
    unfold miniAdd. rewrite decide_False; last first.
    { intros Hin. apply (Hdis _ Hin). left. }
    rewrite IH; [by rewrite <-app_assoc|].
    rewrite fmap_app. simpl. rewrite <-app_assoc. simpl.
    apply NoDup_app. split_and!; [done| |done].
    intros x Hx [->|Hx']%elem_of_cons.
    + apply (Hdis _ Hx). left.
    + apply (Hdis _ Hx). by right.
Qed.

Lemma countCompleted_app a b : countCompleted (a ++ b) = countCompleted a + countCompleted b.
Proof. unfold countCompleted. rewrite filter_app, length_app. lia. Qed.

Lemma countPending_app a b : countPending (a ++ b) = countPending a + countPending b.
Proof. unfold countPending. rewrite filter_app, length_app. lia. Qed.

Lemma count_total l : countCompleted l + countPending l = Z.of_nat (length l).
Proof.
  unfold countCompleted, countPending. induction l as [|x l IH]; [done|].
  rewrite !filter_cons.
  repeat case_decide; simpl; destruct (ir_completed x); try done; lia.
Qed.

Lemma countCompleted_one x : countCompleted [x] = if ir_completed x then 1 else 0.
Proof.
  unfold countCompleted. rewrite filter_cons.
  case_decide; destruct (ir_completed x); done.
Qed.

Lemma countPending_one x : countPending [x] = if ir_completed x then 0 else 1.
Proof.
  unfold countPending. rewrite filter_cons.
  case_decide; destruct (ir_completed x); done.
Qed.

Lemma countCompleted_cons x l : countCompleted (x :: l) = countCompleted [x] + countCompleted l.
Proof. apply (countCompleted_app [x]). Qed.

Lemma countPending_cons x l : countPending (x :: l) = countPending [x] + countPending l.
Proof. apply (countPending_app [x]). Qed.

Lemma kept_titled now (l : list JoinedReminder) x :
  x ∈ toIndexed now <$> filter hasTitle l → ir_title x ≠ "".
Proof.
  intros (r & -> & [Hr _]%list_elem_of_filter)%list_elem_of_fmap.
  unfold hasTitle in Hr. simpl. by destruct (jr_title r) as [[|c s]|].
Qed.

Lemma maxId_foldl (l : list IndexedReminder) : ∀ a,
  a ≤ foldl (λ last r, if bool_decide (last < ir_id r) then ir_id r else last) a l ∧
  ∀ x, x ∈ l →
       ir_id x ≤ foldl (λ last r, if bool_decide (last < ir_id r) then ir_id r else last) a l.
Proof.
  induction l as [|y l IH]; intros a; simpl.
  - split; [lia|]. intros x Hx. by apply elem_of_nil in Hx.
  - destruct (IH (if bool_decide (a < ir_id y) then ir_id y else a)) as [Ha Hl].
    split.
    + case_bool_decide; lia.
    + intros x [->|Hx]%elem_of_cons; [|by apply Hl]. case_bool_decide; lia.
Qed.

(** [maxId] bounds every identifier of the list. *)
Lemma maxId_upper l x : x ∈ l → ir_id x ≤ maxId l.
Proof. apply maxId_foldl. Qed.

(** ** The indexing loops *)
Lemma buildStep_skip st r w : ¬ hasTitle r → buildStep st r w = (Ok st, w).
Proof.
  unfold hasTitle, buildStep. by destruct (Js.truthyStr (jr_title r)).
Qed.

Lemma buildStep_Ok st r w st' w' :
  hasTitle r → buildStep st r w = (Ok st', w') →
  sameButIndexDb w w' ∧
  tablesPlus w' (b_batch st') = tablesPlus w (b_batch st ++ [toIndexed (clock w) r]) ∧
  b_indexedReminders st' = b_indexedReminders st ++ [toIndexed (clock w) r] ∧
  b_completedCount st' = b_completedCount st + countCompleted [toIndexed (clock w) r] ∧
  b_pendingCount st' = b_pendingCount st + countPending [toIndexed (clock w) r].
Proof.
  unfold hasTitle, buildStep. destruct (Js.truthyStr (jr_title r)); [|done].
  intros _ Hs. simpl in Hs. inv_bind Hs. injection E as <- <-.
  inv_bind Hs. injection Hs as <- <-. simpl.
  apply pushBatch_Ok in E as [? ?]. split_and!; try done.
  - rewrite countCompleted_one. simpl. destruct (bool_decide _); lia.
  - rewrite countPending_one. simpl. destruct (bool_decide _); lia.
Qed.

Lemma build_loop_Ok rs : ∀ st w st' w',
  forEach buildStep rs st w = (Ok st', w') →
  sameButIndexDb w w' ∧
  tablesPlus w' (b_batch st') =
    tablesPlus w (b_batch st ++ (toIndexed (clock w) <$> filter hasTitle rs)) ∧
  b_indexedReminders st' =
    b_indexedReminders st ++ (toIndexed (clock w) <$> filter hasTitle rs) ∧
  b_completedCount st' =
    b_completedCount st + countCompleted (toIndexed (clock w) <$> filter hasTitle rs) ∧
  b_pendingCount st' =
    b_pendingCount st + countPending (toIndexed (clock w) <$> filter hasTitle rs).
Proof.
  induction rs as [|r rs IH]; intros st w st' w' Hl; simpl in Hl.
  - injection Hl as <- <-. simpl. rewrite !app_nil_r.
    unfold countCompleted, countPending. simpl. split_and!; (done || lia).
  - inv_bind Hl. rewrite filter_cons. destruct (decide (hasTitle r)) as [Ht|Ht].
    + apply buildStep_Ok in E as (Hsame & Htab & Hidx & Hc & Hp); [|done].
      apply IH in Hl as (Hsame' & Htab' & Hidx' & Hc' & Hp').
      assert (clock w0 = clock w) as Hclock by apply Hsame.
      rewrite Hclock in *. rewrite fmap_cons.
      split_and!.
      * by eapply sameButIndexDb_trans.
      * rewrite Htab'. rewrite (tablesPlus_app _ _ _ _ _ Htab). by rewrite <-app_assoc.
      * rewrite Hidx', Hidx. by rewrite <-app_assoc.
      * rewrite countCompleted_cons, Hc', Hc. lia.
      * rewrite countPending_cons, Hp', Hp. lia.
    + rewrite buildStep_skip in E by done. injection E as <- <-. by apply IH.
Qed.

Lemma build_loop_fresh rs : ∀ st w fts rows,
  tablesPlus w (b_batch st) = Some (fts, rows) →
  NoDup ((row_id <$> rows) ++ (jr_id <$> filter hasTitle rs)) →
  ∃ st' w', forEach buildStep rs st w = (Ok st', w').
Proof.
  induction rs as [|r rs IH]; intros st w fts rows Ht Hnd; simpl.
  - unfold ret. eauto.
  - rewrite filter_cons in Hnd. destruct (decide (hasTitle r)) as [Hr|Hr].
    + rewrite fmap_cons in Hnd.
      destruct (pushBatch_fresh (b_batch st) (toIndexed (clock w) r) w fts rows Ht)
        as (batch' & w1 & Hpush).
      { rewrite cons_middle, app_assoc in Hnd. by apply NoDup_app in Hnd as (? & _ & _). }
      assert (∃ st1, buildStep st r w = (Ok st1, w1) ∧ b_batch st1 = batch') as (st1 & Hst & Hb).
      { unfold buildStep. unfold hasTitle in Hr. destruct (Js.truthyStr (jr_title r)); [|done].
        simpl. unfold dateNow, bind, get, ret. simpl.
        unfold bind in Hpush. rewrite Hpush. eauto. }
      rewrite (bind_eq _ _ _ _ _ Hst).
      apply pushBatch_Ok in Hpush as [_ Hpush].
      apply (IH st1 w1 (fts ++ [toRow (toIndexed (clock w) r)])
                (rows ++ [toRow (toIndexed (clock w) r)])).
      * rewrite Hb, Hpush. unfold tablesPlus in *.
        destruct (tables w) as [[f0 r0]|]; [|done]. simpl in *.
        injection Ht as <- <-. unfold appendRows. simpl.
        by rewrite !fmap_app, !app_assoc.
      * rewrite fmap_app. simpl. by rewrite <-app_assoc.
    + rewrite (bind_eq _ _ _ _ _ (buildStep_skip st r w Hr)). by eapply IH.
Qed.

Lemma updateStep_skip st r w : ¬ hasTitle r → updateStep st r w = (Ok st, w).
Proof.
  unfold hasTitle, updateStep. by destruct (Js.truthyStr (jr_title r)).
Qed.

Lemma updateStep_Ok st r w st' w' :
  hasTitle r → updateStep st r w = (Ok st', w') →
  sameButIndexDb w w' ∧
  tablesPlus w' (u_batch st') = tablesPlus w (u_batch st ++ [toIndexed (clock w) r]) ∧
  u_indexedReminders st' = u_indexedReminders st ++ [toIndexed (clock w) r] ∧
  u_newCompleted st' = u_newCompleted st + countCompleted [toIndexed (clock w) r] ∧
  u_newPending st' = u_newPending st + countPending [toIndexed (clock w) r] ∧
  u_lastRowid st ≤ u_lastRowid st'.
Proof.
  unfold hasTitle, updateStep. destruct (Js.truthyStr (jr_title r)); [|done].
  intros _ Hs. simpl in Hs. inv_bind Hs. injection E as <- <-.
  inv_bind Hs. injection Hs as <- <-. simpl.
  apply pushBatch_Ok in E as [? ?]. split_and!; try done.
  - rewrite countCompleted_one. simpl. destruct (bool_decide _); lia.
  - rewrite countPending_one. simpl. destruct (bool_decide _); lia.
  - case_bool_decide; lia.
Qed.

Lemma update_loop_Ok rs : ∀ st w st' w',
  forEach updateStep rs st w = (Ok st', w') →
  sameButIndexDb w w' ∧
  tablesPlus w' (u_batch st') =
    tablesPlus w (u_batch st ++ (toIndexed (clock w) <$> filter hasTitle rs)) ∧
  u_indexedReminders st' =
    u_indexedReminders st ++ (toIndexed (clock w) <$> filter hasTitle rs) ∧
  u_newCompleted st' =
    u_newCompleted st + countCompleted (toIndexed (clock w) <$> filter hasTitle rs) ∧
  u_newPending st' =
    u_newPending st + countPending (toIndexed (clock w) <$> filter hasTitle rs) ∧
  u_lastRowid st ≤ u_lastRowid st'.
Proof.
  induction rs as [|r rs IH]; intros st w st' w' Hl; simpl in Hl.
  - injection Hl as <- <-. simpl. rewrite !app_nil_r.
    unfold countCompleted, countPending. simpl. split_and!; (done || lia).
  - inv_bind Hl. rewrite filter_cons. destruct (decide (hasTitle r)) as [Ht|Ht].
    + apply updateStep_Ok in E as (Hsame & Htab & Hidx & Hc & Hp & Hid); [|done].
      apply IH in Hl as (Hsame' & Htab' & Hidx' & Hc' & Hp' & Hid').
      assert (clock w0 = clock w) as Hclock by apply Hsame.
      rewrite Hclock in *. rewrite fmap_cons.
      split_and!.
      * by eapply sameButIndexDb_trans.
      * rewrite Htab'. rewrite (tablesPlus_app _ _ _ _ _ Htab). by rewrite <-app_assoc.
      * rewrite Hidx', Hidx. by rewrite <-app_assoc.
      * rewrite countCompleted_cons, Hc', Hc. lia.
      * rewrite countPending_cons, Hp', Hp. lia.
      * lia.
    + rewrite updateStep_skip in E by done. injection E as <- <-. by apply IH.
Qed.

(** What a successful full rebuild leaves behind. *)
Lemma buildIndex_Ok w stats w' :
  buildIndex w = (Ok stats, w') →
  ∃ reminders,
    queryAllDatabases w = (Ok reminders, w) ∧
    let kept := toIndexed (clock w) <$> filter hasTitle reminders in
    tables w' = Some (toRow <$> kept, toRow <$> kept) ∧
    fuzzyFile w' = Some kept ∧
    statsFile w' = Some stats ∧
    sourceDir w' = sourceDir w ∧ clock w' = clock w ∧
    totalReminders stats = Z.of_nat (length kept) ∧
    completedReminders stats = countCompleted kept ∧
    pendingReminders stats = countPending kept ∧
    totalLists stats = countLists kept ∧
    lastIndexedRowid stats = Some (maxId kept).
Proof.
  unfold buildIndex. intros H.
  inv_bind H. rename a into reminders.
  pose proof (queryAllDatabases_world _ _ _ E) as ->.
  exists reminders. split; [done|].
  inv_bind H. unfold createIndexDb, bind, get, put in E0. simpl in E0.
  injection E0 as _ <-.
  inv_bind H. apply build_loop_Ok in E0 as (Hsame & Htab & Hidx & Hc & Hp).
  simpl in *.
  inv_bind H. apply flushBatch_Ok in E0 as (Hsame' & Htab').
  inv_bind H. apply liftResult_Ok in E0 as [Hadd ->].
  apply addAll_Ok in Hadd. simpl in Hadd.
  inv_bind H. unfold writeFuzzy, bind, get, put in E0. simpl in E0.
  injection E0 as _ <-.
  inv_bind H. unfold dateNow, bind, get, ret in E0. simpl in E0.
  injection E0 as <- <-.
  inv_bind H. unfold saveStats, bind, get, put in E0. simpl in E0.
  injection E0 as _ <-. injection H as <- <-. simpl.
  destruct Hsame as (Hs1 & Hs2 & Hs3 & Hs4).
  destruct Hsame' as (Hs1' & Hs2' & Hs3' & Hs4'). simpl in *.
  subst a2. rewrite Hidx in *.
  split_and!; try done; try congruence; try lia.
  change (tables (withStats _ (withFuzzy _ ?w))) with (tables w).
  by rewrite Htab', Htab.
Qed.

(** A full rebuild succeeds as soon as one database file is found. *)
Lemma buildIndex_succeeds w :
  databases w ≠ [] → ∃ stats w', buildIndex w = (Ok stats, w').
Proof.
  intros Hdbs. pose proof (queryAllDatabases_eq w Hdbs) as Hq.
  pose proof (queryAllDatabases_ids _ _ _ Hq) as Hnd.
  unfold buildIndex. rewrite (bind_eq _ _ _ _ _ Hq).
  set (out := allReminders _) in *.
  set (w1 := withIndexDb (Some (mkDbFile (Some (clock w)) (Tables [] []))) w).
  assert (createIndexDb w = (Ok tt, w1)) as Hc by done.
  rewrite (bind_eq _ _ _ _ _ Hc).
  destruct (build_loop_fresh out (mkBuildLoop None 0 0 0 [] []) w1 [] [])
    as (st & w2 & Hloop); [done|done|].
  rewrite (bind_eq _ _ _ _ _ Hloop).
  apply build_loop_Ok in Hloop as (Hsame & Htab & Hidx & _). simpl in Htab, Hidx.
  change (clock w1) with (clock w) in *.
  set (kept := toIndexed (clock w) <$> filter hasTitle out) in *.
  assert (NoDup (ir_id <$> kept)) as Hkept by (unfold kept; by rewrite ir_id_toIndexed).
  destruct (flushBatch_fresh (b_batch st) w2 (toRow <$> kept) (toRow <$> kept))
    as (w3 & Hflush); [done | by rewrite row_id_toRow |].
  rewrite (bind_eq _ _ _ _ _ Hflush).
  rewrite Hidx. rewrite (addAll_fresh kept []) by done. simpl.
  unfold bind, ret, writeFuzzy, dateNow, saveStats, get, put, bind. simpl. eauto.
Qed.



(** After a full rebuild both stores hold the canonical form of the same
    rows, and no two of these rows have the same Dedup Key or the same
    identifier. *)
Lemma canonical_records_unique w stats w' :
  buildIndex w = (Ok stats, w') →
  ∃ kept,
    fuzzyFile w' = Some (toIndexed (clock w) <$> kept) ∧
    tables w' = Some (toRow <$> (toIndexed (clock w) <$> kept),
                      toRow <$> (toIndexed (clock w) <$> kept)) ∧
    NoDup (dedupTuple <$> kept) ∧
    NoDup (jr_id <$> kept).
Proof.
  intros (reminders & Hq & Ht & Hf & _)%buildIndex_Ok.
  exists (filter hasTitle reminders). split_and!; [done|done| |].
  - apply queryAllDatabases_Ok in Hq as (_ & _ & ->).
    pose proof (ScanInv_foldl (scanned (databases w))) as Hinv.
    eapply sublist_NoDup; [|apply fmap_sublist, sublist_filter].
    apply NoDup_alt. intros i j k Hi Hj.
    apply list_lookup_fmap_Some in Hi as (r & -> & Hr).
    apply list_lookup_fmap_Some in Hj as (r' & Heq & Hr').
    apply dedupKey_tuple in Heq.
    eapply NoDup_lookup; [apply (inv_nodup _ _ Hinv)| |].
    + rewrite list_lookup_fmap, Hr. done.
    + rewrite list_lookup_fmap, Hr'. simpl. by rewrite Heq.
  - by eapply queryAllDatabases_ids.
Qed.

(** What a successful incremental update leaves behind. *)
Lemma updateIndex_Ok w stats w' :
  updateIndex w = (Ok (Some stats), w') →
  ∃ existing hwm dbs,
    getStats w = (Ok (Some existing), w) ∧
    lastIndexedRowid existing = Some hwm ∧ hwm ≠ 0 ∧
    findRemindersDatabases w = (Ok dbs, w) ∧
    let kept := toIndexed (clock w) <$> filter hasTitle (collectNew hwm dbs) in
    tables w' = tablesPlus w kept ∧
    fuzzyFile w' = (λ index, index ++ kept) <$> fuzzyFile w ∧
    statsFile w' = Some stats ∧
    sourceDir w' = sourceDir w ∧ clock w' = clock w ∧
    totalReminders stats = totalReminders existing + Z.of_nat (length kept) ∧
    completedReminders stats = completedReminders existing + countCompleted kept ∧
    pendingReminders stats = pendingReminders existing + countPending kept ∧
    ∃ hwm', lastIndexedRowid stats = Some hwm' ∧ hwm ≤ hwm'.
Proof.
  unfold updateIndex. intros H.
  inv_bind H. pose proof (getStats_world _ _ _ E) as ->.
  destruct a as [existing|]; [|done].
  destruct (Js.truthyNum (lastIndexedRowid existing)) eqn:Hhwm; [|done].
  apply truthyNum_Some in Hhwm as (hwm & Hhwm & Hnz). rewrite Hhwm in H.
  simpl in H. inv_bind H. pose proof (findRemindersDatabases_world _ _ _ E0) as ->.
  rename a into dbs. exists existing, hwm, dbs.
  do 4 (split; [done|]).
  destruct dbs as [|db dbs]; [done|].
  remember (collectNew hwm (db :: dbs)) as delta eqn:Hdelta.
  destruct delta as [|r delta'].
  - bind_inv H as now w1 Hnow. unfold dateNow, bind, get, ret in Hnow. simpl in Hnow.
    injection Hnow as <- <-.
    bind_inv H as u w1 Hsave. unfold saveStats, bind, get, put in Hsave. simpl in Hsave.
    injection Hsave as _ <-. injection H as <- <-. simpl.
    split_and!; try done; try lia.
    + by rewrite tablesPlus_nil.
    + destruct (fuzzyFile w); simpl; [|done]. by rewrite app_nil_r.
    + unfold countCompleted. simpl. lia.
    + unfold countPending. simpl. lia.
    + exists hwm. split; [done | lia].
  - remember (r :: delta') as delta.
    bind_inv H as u0 w0 Hopen.
    assert (sameButIndexDb w w0 ∧ tables w0 = tables w) as (Hsame0 & Htab0).
    { unfold openIndexDb, bind, get, put, throw, ret in Hopen. simpl in Hopen.
      destruct (indexDbFile w) as [[m [|fts rows]]|]; try done.
      by injection Hopen as _ <-. }
    bind_inv H as fuzzy w1 Hload.
    assert (w1 = w0 ∧ fuzzyFile w0 = Some fuzzy) as [-> Hfz].
    { unfold loadFuzzy, bind, get, ret, throw in Hload. simpl in Hload.
      destruct (fuzzyFile w0); [|done]. by injection Hload as <- <-. }
    bind_inv H as st w1 Hloop.
    apply update_loop_Ok in Hloop as (Hsame & Htab & Hidx & Hc & Hp & Hid).
    bind_inv H as u1 w2 Hflush. apply flushBatch_Ok in Hflush as (Hsame' & Htab').
    bind_inv H as index w3 Hadd. apply liftResult_Ok in Hadd as [Hadd ->].
    apply addAll_Ok in Hadd.
    bind_inv H as u2 w3 Hwrite. unfold writeFuzzy, bind, get, put in Hwrite.
    simpl in Hwrite. injection Hwrite as _ <-.
    bind_inv H as now w3 Hnow. unfold dateNow, bind, get, ret in Hnow. simpl in Hnow.
    injection Hnow as <- <-.
    bind_inv H as u3 w3 Hsave. unfold saveStats, bind, get, put in Hsave.
    simpl in Hsave. injection Hsave as _ <-. injection H as <- <-.
    destruct Hsame0 as (Ha1 & Ha2 & Ha3 & Ha4).
    destruct Hsame as (Hs1 & Hs2 & Hs3 & Hs4).
    destruct Hsame' as (Hs1' & Hs2' & Hs3' & Hs4').
    simpl in Hidx, Hc, Hp, Hid, Htab. rewrite Ha4 in *.
    subst index. rewrite Hidx in *.
    cbn [totalReminders completedReminders pendingReminders lastIndexedRowid
         withStats withFuzzy statsFile fuzzyFile sourceDir clock].
    split_and!; try done; try congruence; try lia.
    + change (tables (withStats _ (withFuzzy _ ?w))) with (tables w).
      rewrite Htab', Htab. unfold tablesPlus. by rewrite Htab0.
    + rewrite <-Ha2, Hfz. done.
    + exists (u_lastRowid st). split; [done | lia].
Qed.

(** ** Records without title *)

(** Claim C8.  A full rebuild and an incremental update index exactly the
    records that have a title: both tables of the structured store and the
    fuzzy store receive the canonical form of the titled records and nothing
    else, no stored record has an empty title, and the counts of the
    statistics (total, completed, pending, lists) are the counts over the
    titled records only. *)
Theorem untitled_excluded w :
  (∀ stats w', buildIndex w = (Ok stats, w') →
     ∃ reminders,
       queryAllDatabases w = (Ok reminders, w) ∧
       let kept := toIndexed (clock w) <$> filter hasTitle reminders in
       (∀ x, x ∈ kept → ir_title x ≠ "") ∧
       tables w' = Some (toRow <$> kept, toRow <$> kept) ∧
       fuzzyFile w' = Some kept ∧
       statsFile w' = Some stats ∧
       totalReminders stats = Z.of_nat (length kept) ∧
       completedReminders stats = countCompleted kept ∧
       pendingReminders stats = countPending kept ∧
       totalLists stats = countLists kept) ∧
  (∀ stats w', updateIndex w = (Ok (Some stats), w') →
     ∃ existing hwm dbs,
       getStats w = (Ok (Some existing), w) ∧
       lastIndexedRowid existing = Some hwm ∧
       findRemindersDatabases w = (Ok dbs, w) ∧
       let kept := toIndexed (clock w) <$> filter hasTitle (collectNew hwm dbs) in
       (∀ x, x ∈ kept → ir_title x ≠ "") ∧
       tables w' = tablesPlus w kept ∧
       fuzzyFile w' = (λ index, index ++ kept) <$> fuzzyFile w ∧
       statsFile w' = Some stats ∧
       totalReminders stats = totalReminders existing + Z.of_nat (length kept) ∧
       completedReminders stats = completedReminders existing + countCompleted kept ∧
       pendingReminders stats = pendingReminders existing + countPending kept).
Proof.
  split.
  - intros stats w' (reminders & Hq & Ht & Hf & Hs & _ & _ & Hn & Hc & Hp & Hl & _)%buildIndex_Ok.
    exists reminders. split; [done|]. split; [apply kept_titled|]. by split_and!.
  - intros stats w'
      (existing & hwm & dbs & Hg & Hh & _ & Hd & Ht & Hf & Hs & _ & _ & Hn & Hc & Hp & _)%updateIndex_Ok.
    exists existing, hwm, dbs. do 3 (split; [done|]).
    split; [apply kept_titled|]. by split_and!.
Qed.

Lemma untitled_excluded_witness :
  buildIndex milkWorld = (Ok milkStats, milkIndex) ∧
  tables milkIndex = Some (toRow <$> [buyMilk; callMum], toRow <$> [buyMilk; callMum]) ∧
  fuzzyFile milkIndex = Some [buyMilk; callMum] ∧
  totalReminders milkStats = 2 ∧
  updateIndex staleWorld = (Ok (Some staleStats), after updateIndex staleWorld) ∧
  totalReminders staleStats = 1 + 2.
Proof.
  assert (buildIndex milkWorld = (Ok milkStats, milkIndex)) as Hb
    by (vm_compute; reflexivity).
  assert (updateIndex staleWorld = (Ok (Some staleStats), after updateIndex staleWorld)) as Hu
    by (vm_compute; reflexivity).
  destruct (proj1 (untitled_excluded milkWorld) milkStats milkIndex Hb)
    as (reminders & Hq & _ & Ht & Hf & _ & Hn & _).
  destruct (proj2 (untitled_excluded staleWorld) staleStats _ Hu)
    as (existing & hwm & dbs & _ & _ & _ & _ & _ & _ & _ & _).
  assert (reminders = milkKept) as ->.
  { assert (queryAllDatabases milkWorld = (Ok milkKept, milkWorld)) as Hq'
      by (vm_compute; reflexivity).
    congruence. }
  split_and!; [exact Hb | exact Ht | exact Hf | reflexivity | exact Hu | reflexivity].
Defined.

(** ** The high-water-mark *)

(** Claim C5, as amended.  A successful incremental update persists a
    high-water-mark that is greater than or equal to the one it found.  A
    successful full rebuild persists the largest identifier of the records
    it has just indexed, whatever the previous value was. *)
Theorem high_water_mark_update_monotone w :
  (∀ stats w', updateIndex w = (Ok (Some stats), w') →
     ∃ old new,
       statsFile w ≫= lastIndexedRowid = Some old ∧
       statsFile w' = Some stats ∧
       lastIndexedRowid stats = Some new ∧
       old ≤ new) ∧
  (∀ stats w', buildIndex w = (Ok stats, w') →
     ∃ reminders,
       queryAllDatabases w = (Ok reminders, w) ∧
       statsFile w' = Some stats ∧
       lastIndexedRowid stats =
         Some (maxId (toIndexed (clock w) <$> filter hasTitle reminders))).
Proof.
  split.
  - intros stats w'
      (existing & hwm & dbs & Hg & Hh & _ & _ & _ & _ & Hs & _ & _ & _ & _ & _ & new & Hn & Hle)%updateIndex_Ok.
    apply getStats_Some in Hg as (data & Hdata & Heq).
    exists hwm, new. split_and!; try done.
    rewrite Hdata. simpl. congruence.
  - intros stats w' (reminders & Hq & _ & _ & Hs & _ & _ & _ & _ & _ & _ & Hl)%buildIndex_Ok.
    by exists reminders.
Qed.

Lemma high_water_mark_update_monotone_witness :
  updateIndex staleWorld = (Ok (Some staleStats), after updateIndex staleWorld) ∧
  ∃ old new,
    statsFile staleWorld ≫= lastIndexedRowid = Some old ∧
    statsFile (after updateIndex staleWorld) = Some staleStats ∧
    lastIndexedRowid staleStats = Some new ∧
    old ≤ new.
Proof.
  assert (updateIndex staleWorld = (Ok (Some staleStats), after updateIndex staleWorld)) as Hu
    by (vm_compute; reflexivity).
  split; [exact Hu|].
  exact (proj1 (high_water_mark_update_monotone staleWorld) staleStats _ Hu).
Defined.

(** After a build and an update the high-water-mark is 9; the full rebuild
    that follows succeeds and persists 2. *)
Lemma full_rebuild_lowers_high_water_mark :
  statsFile grownWorld ≫= lastIndexedRowid = Some 9 ∧
  (∃ stats, (buildIndex grownWorld).1 = Ok stats) ∧
  statsFile (after buildIndex grownWorld) ≫= lastIndexedRowid = Some 2.
Proof.
  split_and!; [vm_compute; reflexivity | | vm_compute; reflexivity].
  eexists. vm_compute. reflexivity.
Qed.

(** ** The empty delta *)

(** Claim C9.  When the incremental update finds no row past the
    high-water-mark, it succeeds, leaves [index.db] and the fuzzy index
    untouched and writes the Stats Record it has read with [indexedAt] set
    to the current time: the counts, the list count, the oldest and newest
    dates and the high-water-mark are the ones it has read. *)
Theorem updateIndex_empty_delta w existing hwm db dbs :
  (getStats w).1 = Ok (Some existing) →
  lastIndexedRowid existing = Some hwm → hwm ≠ 0 →
  (findRemindersDatabases w).1 = Ok (db :: dbs) →
  collectNew hwm (db :: dbs) = [] →
  ∃ updated w',
    updateIndex w = (Ok (Some updated), w') ∧
    w' = withStats (Some updated) w ∧
    indexDbFile w' = indexDbFile w ∧
    fuzzyFile w' = fuzzyFile w ∧
    statsFile w' = Some updated ∧
    indexedAt updated = Some (clock w) ∧
    totalReminders updated = totalReminders existing ∧
    completedReminders updated = completedReminders existing ∧
    pendingReminders updated = pendingReminders existing ∧
    totalLists updated = totalLists existing ∧
    oldestReminder updated = oldestReminder existing ∧
    newestReminder updated = newestReminder existing ∧
    lastIndexedRowid updated = lastIndexedRowid existing.
Proof.
  intros Hstats Hhwm Hnz Hdbs Hdelta.
  exists (withIndexedAt (clock w) existing),
         (withStats (Some (withIndexedAt (clock w) existing)) w).
  split; [|by repeat split].
  unfold updateIndex.
  destruct (getStats w) as [r w1] eqn:Hg. pose proof (getStats_world _ _ _ Hg) as ->.
  simpl in Hstats. subst r. rewrite (bind_eq _ _ _ _ _ Hg).
  rewrite Hhwm. simpl.
  destruct hwm as [|p|p]; [done| |]; simpl.
  all: destruct (findRemindersDatabases w) as [r w1] eqn:Hf;
    pose proof (findRemindersDatabases_world _ _ _ Hf) as ->;
    simpl in Hdbs; subst r; rewrite (bind_eq _ _ _ _ _ Hf);
    rewrite Hdelta; reflexivity.
Qed.

Lemma updateIndex_empty_delta_witness :
  (getStats lateWorld).1 = Ok (Some builtStats) ∧
  collectNew 3 [storeA; storeB [rowD]] = [] ∧
  updateIndex lateWorld = (Ok (Some lateStats), withStats (Some lateStats) lateWorld) ∧
  ∃ updated w',
    updateIndex lateWorld = (Ok (Some updated), w') ∧
    w' = withStats (Some updated) lateWorld ∧
    indexDbFile w' = indexDbFile lateWorld ∧
    fuzzyFile w' = fuzzyFile lateWorld ∧
    statsFile w' = Some updated ∧
    indexedAt updated = Some (clock lateWorld) ∧
    totalReminders updated = totalReminders builtStats ∧
    completedReminders updated = completedReminders builtStats ∧
    pendingReminders updated = pendingReminders builtStats ∧
    totalLists updated = totalLists builtStats ∧
    oldestReminder updated = oldestReminder builtStats ∧
    newestReminder updated = newestReminder builtStats ∧
    lastIndexedRowid updated = lastIndexedRowid builtStats.
Proof.
  split_and!; [vm_compute; reflexivity | vm_compute; reflexivity | vm_compute; reflexivity |].
  apply (updateIndex_empty_delta lateWorld builtStats 3 storeA [storeB [rowD]]).
  - vm_compute; reflexivity.
  - reflexivity.
  - discriminate.
  - vm_compute; reflexivity.
  - vm_compute; reflexivity.
Defined.

(** ** The dates of the statistics file *)
Lemma buildStep_oldest st r w st' w' :
  buildStep st r w = (Ok st', w') →
  is_Some (b_oldestDate st) ∨ hasTitle r → is_Some (b_oldestDate st').
Proof.
  unfold buildStep, hasTitle. destruct (Js.truthyStr (jr_title r)); simpl.
  - intros H _. inv_bind H. inv_bind H. injection H as <- <-. simpl. eauto.
  - intros [= <- <-] [?|[]]. done.
Qed.

Lemma build_loop_oldest rs : ∀ st w st' w',
  forEach buildStep rs st w = (Ok st', w') →
  is_Some (b_oldestDate st) ∨ filter hasTitle rs ≠ [] → is_Some (b_oldestDate st').
Proof.
  induction rs as [|r rs IH]; intros st w st' w' Hl Hsome; simpl in Hl.
  - injection Hl as <- <-. by destruct Hsome.
  - inv_bind Hl. destruct (decide (hasTitle r)) as [Hr|Hr].
    + eapply IH; [done|]. left. eapply buildStep_oldest; eauto.
    + rewrite buildStep_skip in E by done. injection E as <- <-.
      eapply IH; [done|]. by rewrite filter_cons_False in Hsome.
Qed.

Lemma updateStep_newest st r w st' w' :
  updateStep st r w = (Ok st', w') →
  is_Some (u_newestDate st) → is_Some (u_newestDate st').
Proof.
  unfold updateStep. destruct (Js.truthyStr (jr_title r)); simpl.
  - intros H [ms Hms]. inv_bind H. inv_bind H. injection H as <- <-. simpl.
    rewrite Hms. case_bool_decide; eauto.
  - by intros [= <- <-].
Qed.

Lemma update_loop_newest rs : ∀ st w st' w',
  forEach updateStep rs st w = (Ok st', w') →
  is_Some (u_newestDate st) → is_Some (u_newestDate st').
Proof.
  induction rs as [|r rs IH]; intros st w st' w' Hl Hsome; simpl in Hl.
  - by injection Hl as <- <-.
  - inv_bind Hl. eapply IH; [done|]. by eapply updateStep_newest.
Qed.

Lemma getStats_dates_valid w existing :
  getStats w = (Ok (Some existing), w) → datesValid existing.
Proof.
  unfold getStats, bind, get, ret. simpl. destruct (statsFile w); [|done].
  intros [= <-]. unfold datesValid, reviveDate. simpl. split_and!; eauto.
Qed.

(** A Stats Record written with a usable high-water-mark holds valid dates,
    after a full rebuild and after an incremental update. *)
Lemma buildIndex_dates_valid w stats w' :
  buildIndex w = (Ok stats, w') →
  Js.truthyNum (lastIndexedRowid stats) = true → datesValid stats.
Proof.
  intros Hb Hhwm.
  pose proof (buildIndex_Ok _ _ _ Hb) as (reminders & Hq & _ & _ & _ & _ & _ & _ & _ & _ & _ & Hl).
  rewrite Hl in Hhwm. apply truthyNum_Some in Hhwm as (k & [= Hk] & Hnz).
  assert (filter hasTitle reminders ≠ []) as Hne.
  { intros Hnil. rewrite Hnil in Hk. by subst k. }
  unfold buildIndex in Hb.
  bind_inv Hb as rs w1 Hq'. rewrite Hq in Hq'. injection Hq' as <- <-.
  bind_inv Hb as u1 w1 Hc. bind_inv Hb as st w2 Hloop.
  apply build_loop_oldest in Hloop; [|by right].
  bind_inv Hb as u2 w3 Hf. bind_inv Hb as ms w4 Ha. bind_inv Hb as u3 w5 Hw.
  bind_inv Hb as now w6 Hn. bind_inv Hb as u4 w7 Hs. injection Hb as <- <-.
  unfold datesValid. simpl. destruct Hloop as [o ->]. split_and!; eauto.
Qed.

Lemma updateIndex_dates_valid w stats w' :
  updateIndex w = (Ok (Some stats), w') → datesValid stats.
Proof.
  intros Hu.
  pose proof (updateIndex_Ok _ _ _ Hu) as (existing & hwm & dbs & Hg & Hh & Hnz & Hd & _).
  apply getStats_dates_valid in Hg as Hvalid. destruct Hvalid as (Hi & Ho & Hn).
  unfold updateIndex in Hu.
  bind_inv Hu as ex w1 Hg'. rewrite Hg in Hg'. injection Hg' as <- <-.
  rewrite Hh in Hu. simpl in Hu.
  destruct hwm as [|p|p]; [done| |]; simpl in Hu.
  all: bind_inv Hu as ds w1 Hd'; rewrite Hd in Hd'; injection Hd' as <- <-.
  all: destruct dbs as [|db dbs]; [done|].
  all: destruct (collectNew _ (db :: dbs)) as [|r delta].
  all: try (bind_inv Hu as now w1 Hnow; bind_inv Hu as u w2 Hs; injection Hu as <- <-;
            unfold datesValid; simpl; split_and!; eauto).
  all: bind_inv Hu as u0 w1 Hopen; bind_inv Hu as fz w2 Hload; bind_inv Hu as st w3 Hloop.
  all: apply update_loop_newest in Hloop; [|done].
  all: bind_inv Hu as u1 w4 Hf; bind_inv Hu as ms w5 Ha; bind_inv Hu as u2 w6 Hw.
  all: bind_inv Hu as now w7 Hn'; bind_inv Hu as u3 w8 Hs; injection Hu as <- <-.
  all: unfold datesValid; simpl; split_and!; eauto.
Qed.

(** Reading back a Stats Record with valid dates gives the record. *)
Lemma getStats_valid w data :
  statsFile w = Some data → datesValid data → getStats w = (Ok (Some data), w).
Proof.
  intros Hs ([a Ha] & [b Hb] & [c Hc]).
  unfold getStats, bind, get, ret. simpl. rewrite Hs.
  destruct data; simpl in *. subst. done.
Qed.

(** With an empty delta the rewritten statistics file is the previous file
    with [indexedAt] replaced, as soon as the previous file holds valid
    dates. *)
Lemma empty_delta_rewrites_file w data hwm db dbs :
  statsFile w = Some data → datesValid data →
  lastIndexedRowid data = Some hwm → hwm ≠ 0 →
  (findRemindersDatabases w).1 = Ok (db :: dbs) →
  collectNew hwm (db :: dbs) = [] →
  updateIndex w =
    (Ok (Some (withIndexedAt (clock w) data)),
     withStats (Some (withIndexedAt (clock w) data)) w).
Proof.
  intros Hs Hv Hh Hnz Hd Hdelta.
  pose proof (getStats_valid w data Hs Hv) as Hg.
  unfold updateIndex. rewrite (bind_eq _ _ _ _ _ Hg), Hh. simpl.
  destruct hwm as [|p|p]; [done| |]; simpl.
  all: destruct (findRemindersDatabases w) as [r w1] eqn:Hf;
    pose proof (findRemindersDatabases_world _ _ _ Hf) as ->;
    simpl in Hd; subst r; rewrite (bind_eq _ _ _ _ _ Hf);
    rewrite Hdelta; reflexivity.
Qed.








(** ** Queries on the structured store *)
Lemma limit_elem_of {A} n (l : list A) x : x ∈ Sql.limit n l → x ∈ l.
Proof.
  unfold Sql.limit. case_bool_decide; [done|]. apply subseteq_take.
Qed.

Lemma limit_length {A} n (l : list A) : 0 ≤ n → Z.of_nat (length (Sql.limit n l)) ≤ n.
Proof.
  intros Hn. unfold Sql.limit. rewrite bool_decide_eq_false_2 by lia.
  rewrite length_take. lia.
Qed.


Lemma slice0_length {A} n (l : list A) : 0 ≤ n → Z.of_nat (length (Js.slice0 n l)) ≤ n.
Proof.
  intros Hn. unfold Js.slice0. rewrite bool_decide_eq_false_2 by lia.
  rewrite length_take. lia.
Qed.



(** Claim C10.  Whatever the limit, every reminder [getFlaggedReminders]
    returns is flagged and is not completed. *)
Theorem getFlaggedReminders_pending limit w rs w' :
  getFlaggedReminders limit w = (Ok rs, w') →
  ∀ r, r ∈ rs → ir_flagged r = true ∧ ir_completed r = false.
Proof.
  unfold getFlaggedReminders. intros H.
  inv_bind H. inv_bind H. inv_bind H. injection H as <- <-.
  intros r (row & -> & Hrow)%list_elem_of_fmap.
  apply limit_elem_of in Hrow. rewrite merge_sort_Permutation in Hrow.
  apply list_elem_of_filter in Hrow as [[Hf Hc] _].
  unfold rowToReminder; simpl. rewrite Hf, Hc. done.
Qed.

(** On a fresh index the call returns. *)
Lemma getFlaggedReminders_returns limit w fts rows :
  ensureIndex w = (Ok FreshNone, w) →
  tables w = Some (fts, rows) →
  ∃ rs, getFlaggedReminders limit w = (Ok rs, w).
Proof.
  intros He Ht. unfold getFlaggedReminders.
  rewrite (bind_eq _ _ _ _ _ He).
  unfold tables in Ht. destruct (indexDbFile w) as [[m [|fts' rows']]|] eqn:Hdb; try done.
  assert (getDb w = (Ok (Tables fts' rows'), w)) as Hg.
  { unfold getDb, bind, get, ret. simpl. by rewrite Hdb. }
  rewrite (bind_eq _ _ _ _ _ Hg). simpl. unfold bind, ret. eauto.
Qed.

Lemma getFlaggedReminders_pending_witness :
  getFlaggedReminders 10 milkIndex = (Ok [callMum], milkIndex) ∧
  ir_flagged callMum = true ∧ ir_completed callMum = false.
Proof.
  assert (getFlaggedReminders 10 milkIndex = (Ok [callMum], milkIndex)) as Hg
    by (vm_compute; reflexivity).
  split; [exact Hg|].
  apply (getFlaggedReminders_pending 10 milkIndex [callMum] milkIndex Hg callMum).
  left.
Defined.

(** ** Search *)

Section SearchProperties.

Variable rank : string → list IndexedReminder → list SearchResult.

Lemma searchByList_length db l c limit w rs w' :
  0 ≤ limit → searchByList db l c limit w = (Ok rs, w') →
  Z.of_nat (length rs) ≤ limit.
Proof.
  intros Hl H. unfold searchByList in H. inv_bind H. injection H as <- <-.
  rewrite length_fmap. by apply limit_length.
Qed.

Lemma getAllReminders_length db c f limit w rs w' :
  0 ≤ limit → getAllReminders db c f limit w = (Ok rs, w') →
  Z.of_nat (length rs) ≤ limit.
Proof.
  intros Hl H. unfold getAllReminders in H. inv_bind H. injection H as <- <-.
  rewrite length_fmap. by apply limit_length.
Qed.

Lemma searchByText_length q l c f limit w rs w' :
  0 ≤ limit → searchByText rank q l c f limit w = (Ok rs, w') →
  Z.of_nat (length rs) ≤ limit.
Proof.
  intros Hl H. unfold searchByText in H. inv_bind H.
  destruct (filter _ _) in H.
  - injection H as <- <-. simpl. lia.
  - injection H as <- <-. by apply slice0_length.
Qed.

(** Claim C4, as amended.  For a limit that is zero or positive, [search]
    returns at most [limit] results on each of its three routes.  The limit
    is neither checked nor clamped. *)
Theorem search_length options w rs w' :
  0 ≤ so_limit options →
  search rank options w = (Ok rs, w') →
  Z.of_nat (length rs) ≤ so_limit options.
Proof.
  intros Hl H. unfold search in H. inv_bind H. inv_bind H.
  destruct (_ && _).
  - by eapply searchByList_length.
  - destruct (hasTextQuery _).
    + by eapply searchByText_length.
    + by eapply getAllReminders_length.
Qed.




End SearchProperties.

Lemma search_length_witness :
  0 ≤ so_limit pendingMilk ∧
  search titleRank pendingMilk milkIndex = (Ok [mkResult buyMilk 1%Q ["milk"]], milkIndex) ∧
  Z.of_nat (length [mkResult buyMilk 1%Q ["milk"]]) ≤ so_limit pendingMilk.
Proof.
  assert (0 ≤ so_limit pendingMilk) as Hl by (vm_compute; discriminate).
  assert (search titleRank pendingMilk milkIndex =
          (Ok [mkResult buyMilk 1%Q ["milk"]], milkIndex)) as Hs
    by (vm_compute; reflexivity).
  split_and!; [exact Hl | exact Hs |].
  exact (search_length titleRank pendingMilk milkIndex _ milkIndex Hl Hs).
Defined.

(** A limit of -1 is passed through: the browse returns the whole table,
    two results, which is more than the limit and more than a limit of 1
    would return. *)
Lemma search_negative_limit_unbounded :
  so_limit browseUnlimited = -1 ∧
  search titleRank browseUnlimited milkIndex =
    (Ok [mkResult callMum 1%Q []; mkResult buyMilk 1%Q []], milkIndex) ∧
  ¬ (Z.of_nat (length [mkResult callMum 1%Q []; mkResult buyMilk 1%Q []])
     ≤ so_limit browseUnlimited).
Proof.
  split_and!; [reflexivity | vm_compute; reflexivity | vm_compute; intros H; apply H; reflexivity].
Qed.

(** Claim C3, the code at the failing input.  A search with a list filter,
    [flagged] set and no text takes the list-only route, which has no
    flagged filter: it returns "Buy milk", which is not flagged. *)
Theorem list_route_ignores_flagged rank :
  so_flagged flaggedGroceries = Some true ∧
  search rank flaggedGroceries milkIndex = (Ok [mkResult buyMilk 1%Q []], milkIndex) ∧
  ir_flagged buyMilk = false.
Proof. split_and!; [reflexivity | vm_compute; reflexivity | reflexivity]. Qed.

(** On the same route the list filter is a [LIKE] pattern: "_" matches every
    list with a name, though no list name contains an underscore. *)
Example list_route_wildcard rank :
  search rank (mkOptions None (Some "_") None None 10) milkIndex =
    (Ok [mkResult callMum 1%Q []; mkResult buyMilk 1%Q []], milkIndex) ∧
  Js.includes (Js.toLowerCase (ir_listName callMum)) "_" = false.
Proof. split; vm_compute; reflexivity. Qed.

(** ** Incremental update against full rebuild *)

(** Claim C1, the code at the failing input.  The index is built over two
    stores; the second store then gains the row "D", whose source id 2 is
    not above the high-water-mark 3.  The incremental update succeeds, finds
    nothing and leaves "D" out, where a full rebuild indexes it.  In a single
    store whose row has the source id 5, the update that follows the build
    indexes that row a second time. *)
Theorem incremental_update_diverges :
  titles (after buildIndex (freshWorld (twoStores [rowD]))) = Some ["A"; "B"; "C"; "D"] ∧
  updateIndex lateWorld = (Ok (Some lateStats), withStats (Some lateStats) lateWorld) ∧
  titles (after updateIndex lateWorld) = Some ["A"; "B"; "C"] ∧
  titles (after buildIndex (freshWorld (oneStore [rowB9; rowUntitled]))) = Some ["A"; "B"] ∧
  updateIndex staleWorld = (Ok (Some staleStats), after updateIndex staleWorld) ∧
  titles (after updateIndex staleWorld) = Some ["A"; "A"; "B"].
Proof. split_and!; vm_compute; reflexivity. Qed.
(** * Further properties of the indexer *)

(** ** What the two indexing operations are made of *)

Lemma buildIndex_inv w stats w' :
  buildIndex w = (Ok stats, w') →
  ∃ reminders st w1 w2,
    queryAllDatabases w = (Ok reminders, w) ∧
    forEach buildStep reminders (mkBuildLoop None 0 0 0 [] [])
      (withIndexDb (Some (mkDbFile (Some (clock w)) (Tables [] []))) w) = (Ok st, w1) ∧
    flushBatch (b_batch st) w1 = (Ok tt, w2) ∧
    clock w2 = clock w ∧
    stats = mkStats (Z.of_nat (length (b_indexedReminders st)))
              (countLists (b_indexedReminders st))
              (b_completedCount st) (b_pendingCount st) (Some (clock w))
              ((λ s, s * 1000) <$> b_oldestDate st)
              (Some (b_newestDate st * 1000))
              (Some (maxId (b_indexedReminders st))) ∧
    w' = withStats (Some stats) (withFuzzy (Some (b_indexedReminders st)) w2).
Proof.
  unfold buildIndex. intros H.
  bind_inv H as reminders w0 Hq. pose proof (queryAllDatabases_world _ _ _ Hq) as ->.
  bind_inv H as u0 w0 Hc. unfold createIndexDb, bind, get, put in Hc. simpl in Hc.
  injection Hc as _ <-.
  bind_inv H as st w1 Hloop. bind_inv H as u1 w2 Hflush. destruct u1.
  bind_inv H as index w3 Hadd. apply liftResult_Ok in Hadd as [Hadd ->].
  apply addAll_Ok in Hadd. simpl in Hadd. subst index.
  bind_inv H as u2 w3 Hw. unfold writeFuzzy, bind, get, put in Hw. simpl in Hw.
  injection Hw as _ <-.
  bind_inv H as now w3 Hn. unfold dateNow, bind, get, ret in Hn. simpl in Hn.
  injection Hn as <- <-.
  bind_inv H as u3 w3 Hs. unfold saveStats, bind, get, put in Hs. simpl in Hs.
  injection Hs as _ <-. injection H as <- <-.
  pose proof (build_loop_Ok _ _ _ _ _ Hloop) as ((_ & _ & _ & Hc1) & _).
  pose proof (flushBatch_Ok _ _ _ _ Hflush) as ((_ & _ & _ & Hc2) & _).
  simpl in Hc1. exists reminders, st, w1, w2.
  assert (clock w2 = clock w) as Hclock by congruence.
  split_and!; try done. simpl. by rewrite Hclock.
Qed.

Lemma updateIndex_inv w stats w' :
  updateIndex w = (Ok (Some stats), w') →
  ∃ existing hwm dbs,
    getStats w = (Ok (Some existing), w) ∧
    lastIndexedRowid existing = Some hwm ∧ hwm ≠ 0 ∧
    findRemindersDatabases w = (Ok dbs, w) ∧ dbs ≠ [] ∧
    ((collectNew hwm dbs = [] ∧
      stats = withIndexedAt (clock w) existing ∧
      w' = withStats (Some stats) w) ∨
     (collectNew hwm dbs ≠ [] ∧
      ∃ w0 fuzzy st w1 w2,
        openIndexDb w = (Ok tt, w0) ∧ w0 = w ∧
        fuzzyFile w = Some fuzzy ∧
        forEach updateStep (collectNew hwm dbs)
          (mkUpdateLoop (newestReminder existing) hwm 0 0 [] []) w = (Ok st, w1) ∧
        flushBatch (u_batch st) w1 = (Ok tt, w2) ∧
        clock w2 = clock w ∧
        stats = mkStats (totalReminders existing + Z.of_nat (length (u_indexedReminders st)))
                  (totalLists existing)
                  (completedReminders existing + u_newCompleted st)
                  (pendingReminders existing + u_newPending st)
                  (Some (clock w)) (oldestReminder existing) (u_newestDate st)
                  (Some (u_lastRowid st)) ∧
        w' = withStats (Some stats)
               (withFuzzy (Some (fuzzy ++ u_indexedReminders st)) w2))).
Proof.
  unfold updateIndex. intros H.
  bind_inv H as ex w0 Hg. pose proof (getStats_world _ _ _ Hg) as ->.
  destruct ex as [existing|]; [|done].
  destruct (Js.truthyNum (lastIndexedRowid existing)) eqn:Hhwm; [|done].
  apply truthyNum_Some in Hhwm as (hwm & Hhwm & Hnz). rewrite Hhwm in H.
  simpl in H. bind_inv H as dbs w0 Hd.
  pose proof (findRemindersDatabases_world _ _ _ Hd) as ->.
  exists existing, hwm, dbs. do 4 (split; [done|]).
  destruct dbs as [|db dbs]; [done|]. split; [done|].
  remember (collectNew hwm (db :: dbs)) as delta eqn:Hdelta.
  destruct delta as [|r delta'].
  - left. bind_inv H as now w1 Hnow. unfold dateNow, bind, get, ret in Hnow.
    simpl in Hnow. injection Hnow as <- <-.
    bind_inv H as u w1 Hsave. unfold saveStats, bind, get, put in Hsave. simpl in Hsave.
    injection Hsave as _ <-. by injection H as <- <-.
  - right. split; [done|]. remember (r :: delta') as delta.
    bind_inv H as u0 w0 Hopen. destruct u0.
    assert (w0 = w) as ->.
    { unfold openIndexDb, bind, get, put, throw, ret in Hopen. simpl in Hopen.
      destruct (indexDbFile w) as [[m [|fts rows]]|]; try done.
      by injection Hopen as <-. }
    bind_inv H as fuzzy w1 Hload.
    assert (w1 = w ∧ fuzzyFile w = Some fuzzy) as [-> Hfz].
    { unfold loadFuzzy, bind, get, ret, throw in Hload. simpl in Hload.
      destruct (fuzzyFile w); [|done]. by injection Hload as <- <-. }
    bind_inv H as st w1 Hloop. bind_inv H as u1 w2 Hflush. destruct u1.
    bind_inv H as index w3 Hadd. apply liftResult_Ok in Hadd as [Hadd ->].
    apply addAll_Ok in Hadd. subst index.
    bind_inv H as u2 w3 Hw. unfold writeFuzzy, bind, get, put in Hw. simpl in Hw.
    injection Hw as _ <-.
    bind_inv H as now w3 Hn. unfold dateNow, bind, get, ret in Hn. simpl in Hn.
    injection Hn as <- <-.
    bind_inv H as u3 w3 Hs. unfold saveStats, bind, get, put in Hs. simpl in Hs.
    injection Hs as _ <-. injection H as <- <-.
    pose proof (update_loop_Ok _ _ _ _ _ Hloop) as ((_ & _ & _ & Hc1) & _).
    pose proof (flushBatch_Ok _ _ _ _ Hflush) as ((_ & _ & _ & Hc2) & _).
    assert (clock w2 = clock w) as Hclock by congruence.
    exists w, fuzzy, st, w1, w2. split_and!; try done. simpl. by rewrite Hclock.
Qed.

(** ** The two stores stay in step *)

(** Property X1.  After a successful full rebuild both tables of [index.db]
    hold exactly the rows of the documents of the fuzzy index, in the same
    order; a successful incremental update keeps it so. *)
Theorem stores_stay_mirrored w :
  (∀ stats w', buildIndex w = (Ok stats, w') → mirrored w') ∧
  (∀ stats w', updateIndex w = (Ok (Some stats), w') → mirrored w → mirrored w').
Proof.
  split.
  - intros stats w' Hb.
    destruct (buildIndex_Ok _ _ _ Hb) as (reminders & _ & Ht & Hf & _). by eexists.
  - intros stats w' Hu (index & Hi & Hti).
    destruct (updateIndex_Ok _ _ _ Hu)
      as (existing & hwm & dbs & _ & _ & _ & _ & Ht & Hf & _).
    simpl in Ht, Hf. rewrite Hi in Hf. simpl in Hf.
    eexists. split; [exact Hf|].
    rewrite Ht. unfold tablesPlus. rewrite Hti. simpl.
    unfold appendRows. simpl. by rewrite fmap_app.
Qed.

Lemma stores_stay_mirrored_witness :
  buildIndex milkWorld = (Ok milkStats, milkIndex) ∧ mirrored milkIndex ∧
  updateIndex staleWorld = (Ok (Some staleStats), after updateIndex staleWorld) ∧
  mirrored (after updateIndex staleWorld).
Proof.
  assert (buildIndex milkWorld = (Ok milkStats, milkIndex)) as Hb
    by (vm_compute; reflexivity).
  assert (updateIndex staleWorld = (Ok (Some staleStats), after updateIndex staleWorld)) as Hu
    by (vm_compute; reflexivity).
  assert (∃ stats, buildIndex (freshWorld (oneStore [])) =
                   (Ok stats, after buildIndex (freshWorld (oneStore []))))
    as [stats0 Hb0] by (eexists; vm_compute; reflexivity).
  split; [exact Hb|]. split.
  { exact (proj1 (stores_stay_mirrored milkWorld) _ _ Hb). }
  split; [exact Hu|].
  apply (proj2 (stores_stay_mirrored staleWorld) _ _ Hu).
  destruct (proj1 (stores_stay_mirrored (freshWorld (oneStore []))) _ _ Hb0)
    as (index & Hi & Ht).
  exists index. split; [exact Hi | exact Ht].
Defined.

(** ** When the incremental update does not apply *)

Lemma updateIndex_applies w :
  Js.truthyNum (storedMark w) = true → (updateIndex w).1 ≠ Ok None.
Proof.
  intros Hm Hn. destruct (updateIndex w) as [r w'] eqn:Hu. simpl in Hn. subst r.
  unfold updateIndex in Hu.
  bind_inv Hu as ex w0 Hg. pose proof (getStats_world _ _ _ Hg) as ->.
  destruct ex as [existing|].
  - apply getStats_Some in Hg as (data & Hdata & Heq).
    unfold storedMark in Hm. rewrite Hdata in Hm. simpl in Hm. rewrite <-Heq in Hm.
    rewrite Hm in Hu. simpl in Hu.
    bind_inv Hu as dbs w0 Hd. destruct dbs as [|db dbs]; [done|].
    destruct (collectNew _ (db :: dbs)).
    + bind_inv Hu as now w1 Hnow. bind_inv Hu as u w2 Hs. done.
    + bind_inv Hu as u0 w1 Ho. bind_inv Hu as fz w2 Hl. bind_inv Hu as st w3 Hloop.
      bind_inv Hu as u1 w4 Hf. bind_inv Hu as ix w5 Ha. bind_inv Hu as u2 w6 Hw.
      bind_inv Hu as now w7 Hn. bind_inv Hu as u3 w8 Hs. done.
  - unfold getStats, bind, get, ret in Hg. simpl in Hg.
    unfold storedMark in Hm. destruct (statsFile w); [done|]. done.
Qed.

Lemma updateIndex_skips w :
  Js.truthyNum (storedMark w) = false → updateIndex w = (Ok None, w).
Proof.
  intros Hm. unfold updateIndex, storedMark in *.
  unfold getStats, bind at 1, get, ret, bind. simpl.
  destruct (statsFile w) as [data|]; simpl in *; [|done]. by rewrite Hm.
Qed.


(** ** What the indexing loops keep track of *)

Ltac snoc_elem := rewrite elem_of_app, list_elem_of_singleton; auto.

Ltac snoc_inv H :=
  apply elem_of_app in H as [H|H]; [|apply list_elem_of_singleton in H as ->].

Lemma buildStep_state st r w st' w' :
  hasTitle r → buildStep st r w = (Ok st', w') →
  ∃ x batch,
    st' = mkBuildLoop
            (Some (match b_oldestDate st with
                   | None => ir_creationDate x
                   | Some o => if bool_decide (ir_creationDate x < o)
                               then ir_creationDate x else o
                   end))
            (if bool_decide (b_newestDate st < ir_creationDate x)
             then ir_creationDate x else b_newestDate st)
            (if ir_completed x then b_completedCount st + 1 else b_completedCount st)
            (if ir_completed x then b_pendingCount st else b_pendingCount st + 1)
            (b_indexedReminders st ++ [x]) batch.
Proof.
  intros Hr H. unfold buildStep in H. unfold hasTitle in Hr.
  destruct (Js.truthyStr (jr_title r)); [|done]. simpl in H.
  bind_inv H as now w0 Hn. bind_inv H as batch w1 Hp.
  injection H as <- <-. by exists (toIndexed now r), batch.
Qed.

Lemma buildStep_dates st r w st' w' :
  buildStep st r w = (Ok st', w') → BuildDates st → BuildDates st'.
Proof.
  intros H (Hnil & Hall & Hmin & Hmax & Hpos).
  destruct (decide (hasTitle r)) as [Hr|Hr].
  - destruct (buildStep_state _ _ _ _ _ Hr H) as (x & batch & ->). clear H.
    unfold BuildDates. simpl. split_and!.
    + intros Habs. by destruct (b_indexedReminders st).
    + intros y Hy; snoc_inv Hy.
      * destruct (Hall y Hy) as (o & Ho & Hb). rewrite Ho.
        eexists. split; [done|]. repeat case_bool_decide; lia.
      * eexists. split; [done|].
        destruct (b_oldestDate st); repeat case_bool_decide; lia.
    + intros _. destruct (b_indexedReminders st) as [|y l] eqn:Hl.
      * rewrite Hnil by done. exists x. split; [snoc_elem|done].
      * destruct Hmin as (z & Hz & Ho); [done|]. rewrite Ho.
        destruct (bool_decide (ir_creationDate x < ir_creationDate z)).
        -- exists x. split; [snoc_elem|done].
        -- exists z. split; [snoc_elem|done].
    + destruct (bool_decide (b_newestDate st < ir_creationDate x)).
      * right. exists x. split; [snoc_elem|done].
      * destruct Hmax as [?|(z & Hz & ?)]; [by left|].
        right. exists z. split; [snoc_elem|done].
    + case_bool_decide; lia.
  - rewrite buildStep_skip in H by done. by injection H as <- <-.
Qed.

Lemma build_loop_dates rs : ∀ st w st' w',
  forEach buildStep rs st w = (Ok st', w') → BuildDates st → BuildDates st'.
Proof.
  induction rs as [|r rs IH]; intros st w st' w' H Hd; simpl in H.
  - by injection H as <- <-.
  - bind_inv H as st1 w1 Hs. eauto using buildStep_dates.
Qed.

Lemma updateStep_state st r w st' w' :
  hasTitle r → updateStep st r w = (Ok st', w') →
  ∃ x batch,
    ir_id x = jr_id r ∧
    st' = mkUpdateLoop
            (match u_newestDate st with
             | Some ms => if bool_decide (ms < createdMs x)
                          then Some (createdMs x) else Some ms
             | None => None
             end)
            (if bool_decide (u_lastRowid st < ir_id x) then ir_id x else u_lastRowid st)
            (if ir_completed x then u_newCompleted st + 1 else u_newCompleted st)
            (if ir_completed x then u_newPending st else u_newPending st + 1)
            (u_indexedReminders st ++ [x]) batch.
Proof.
  intros Hr H. unfold updateStep in H. unfold hasTitle in Hr.
  destruct (Js.truthyStr (jr_title r)); [|done]. simpl in H.
  bind_inv H as now w0 Hn. bind_inv H as batch w1 Hp.
  injection H as <- <-. by exists (toIndexed now r), batch.
Qed.

Lemma updateStep_marks hwm newest st r w st' w' :
  updateStep st r w = (Ok st', w') → UpdateMarks hwm newest st → UpdateMarks hwm newest st'.
Proof.
  intros H (Hle & Hall & Hmark & n & Hn & Hnle & Hnall & Hnew).
  destruct (decide (hasTitle r)) as [Hr|Hr].
  - destruct (updateStep_state _ _ _ _ _ Hr H) as (x & batch & _ & ->). clear H.
    unfold UpdateMarks. simpl. rewrite Hn. split_and!.
    + case_bool_decide; lia.
    + intros y Hy; snoc_inv Hy.
      * specialize (Hall y Hy). case_bool_decide; lia.
      * case_bool_decide; lia.
    + destruct (bool_decide (u_lastRowid st < ir_id x)).
      * right. exists x. split; [snoc_elem|done].
      * destruct Hmark as [?|(z & Hz & ?)]; [by left|].
        right. exists z. split; [snoc_elem|done].
    + case_bool_decide.
      * eexists. split; [done|]. split; [lia|]. split.
        -- intros y Hy; snoc_inv Hy; [|lia].
           specialize (Hnall y Hy). lia.
        -- right. exists x. split; [snoc_elem|done].
      * eexists. split; [done|]. split; [lia|]. split.
        -- intros y Hy; snoc_inv Hy; [by apply Hnall|lia].
        -- destruct Hnew as [?|(z & Hz & ?)]; [by left|].
           right. exists z. split; [snoc_elem|done].
  - rewrite updateStep_skip in H by done. injection H as <- <-.
    split_and!; try done. by exists n.
Qed.

Lemma update_loop_marks hwm newest rs : ∀ st w st' w',
  forEach updateStep rs st w = (Ok st', w') →
  UpdateMarks hwm newest st → UpdateMarks hwm newest st'.
Proof.
  induction rs as [|r rs IH]; intros st w st' w' H Hd; simpl in H.
  - by injection H as <- <-.
  - bind_inv H as st1 w1 Hs. eauto using updateStep_marks.
Qed.

Lemma getStats_file w existing :
  getStats w = (Ok (Some existing), w) →
  ∃ data, statsFile w = Some data ∧
    totalReminders existing = totalReminders data ∧
    totalLists existing = totalLists data ∧
    completedReminders existing = completedReminders data ∧
    pendingReminders existing = pendingReminders data ∧
    lastIndexedRowid existing = lastIndexedRowid data ∧
    oldestReminder existing = Some (default 0 (oldestReminder data)) ∧
    newestReminder existing = Some (default 0 (newestReminder data)).
Proof.
  unfold getStats, bind, get, ret. simpl. destruct (statsFile w) as [data|]; [|done].
  intros [= <-]. by exists data.
Qed.

Lemma collectNew_above hwm dbs r : r ∈ collectNew hwm dbs → hwm < jr_id r.
Proof.
  unfold collectNew. intros (db & Hin & _)%list_elem_of_bind.
  unfold newRows in Hin. destruct (sf_rows db); [|by apply elem_of_nil in Hin].
  apply selectAfter_elem_of in Hin. tauto.
Qed.

(** The mark and the dates a successful update persists. *)
Lemma updateIndex_marks w stats w' :
  updateIndex w = (Ok (Some stats), w') →
  ∃ data hwm dbs new n,
    statsFile w = Some data ∧ lastIndexedRowid data = Some hwm ∧
    findRemindersDatabases w = (Ok dbs, w) ∧
    let appended := toIndexed (clock w) <$> filter hasTitle (collectNew hwm dbs) in
    lastIndexedRowid stats = Some new ∧ hwm ≤ new ∧
    (∀ x, x ∈ appended → hwm < ir_id x ≤ new) ∧
    (new = hwm ∨ ∃ x, x ∈ appended ∧ ir_id x = new) ∧
    newestReminder stats = Some n ∧ default 0 (newestReminder data) ≤ n ∧
    (∀ x, x ∈ appended → createdMs x ≤ n) ∧
    (n = default 0 (newestReminder data) ∨ ∃ x, x ∈ appended ∧ n = createdMs x) ∧
    oldestReminder stats = Some (default 0 (oldestReminder data)) ∧
    totalLists stats = totalLists data.
Proof.
  intros Hu.
  destruct (updateIndex_inv _ _ _ Hu)
    as (existing & hwm & dbs & Hg & Hh & _ & Hd & _ & Hcase).
  destruct (getStats_file _ _ Hg)
    as (data & Hdata & _ & Hlists & _ & _ & Hmark & Hold & Hnew).
  set (appended := toIndexed (clock w) <$> filter hasTitle (collectNew hwm dbs)).
  assert (∀ x, x ∈ appended → hwm < ir_id x) as Habove.
  { intros x (r & -> & [Hr Hin]%list_elem_of_filter)%list_elem_of_fmap. simpl.
    by apply collectNew_above in Hin. }
  destruct Hcase as [(Hnil & -> & ->)
                    |(_ & w0 & fuzzy & st & w1 & w2 & _ & _ & _ & Hloop & _ & _ & -> & ->)].
  - exists data, hwm, dbs, hwm, (default 0 (newestReminder data)). simpl.
    fold appended. split_and!; try done; try (by left); try congruence; try lia.
    + subst appended. rewrite Hnil. intros x Hx. by apply elem_of_nil in Hx.
    + subst appended. rewrite Hnil. intros x Hx. by apply elem_of_nil in Hx.
  - pose proof (update_loop_Ok _ _ _ _ _ Hloop) as (_ & _ & Hix & _). simpl in Hix.
    assert (UpdateMarks hwm (default 0 (newestReminder data))
              (mkUpdateLoop (newestReminder existing) hwm 0 0 [] [])) as Hinit.
    { unfold UpdateMarks. simpl. split_and!; [lia| |by left|].
      - intros y Hy. by apply elem_of_nil in Hy.
      - rewrite Hnew. eexists. split; [done|]. split; [lia|]. split; [|by left].
        intros y Hy. by apply elem_of_nil in Hy. }
    pose proof (update_loop_marks _ _ _ _ _ _ _ Hloop Hinit)
      as (Hle & Hall & Hatt & n & Hn & Hnle & Hnall & Hnatt).
    fold appended in Hix. rewrite Hix in Hall, Hatt, Hnall, Hnatt.
    exists data, hwm, dbs, (u_lastRowid st), n. simpl. fold appended.
    split_and!; try done; try congruence.
    intros x Hx. split; [by apply Habove|by apply Hall].
Qed.

(** Property X3.  A successful incremental update appends to both stores
    only records whose source identifier lies above the high-water-mark it
    found, and the mark it persists is the largest identifier it has
    appended (the old mark when it has appended nothing): no appended record
    is selected again by the next update. *)
Theorem update_appends_above_mark w stats w' :
  updateIndex w = (Ok (Some stats), w') →
  ∃ old new appended,
    storedMark w = Some old ∧
    storedMark w' = Some new ∧
    fuzzyFile w' = (λ index, index ++ appended) <$> fuzzyFile w ∧
    tables w' = tablesPlus w appended ∧
    (∀ x, x ∈ appended → old < ir_id x ≤ new) ∧
    (new = old ∨ ∃ x, x ∈ appended ∧ ir_id x = new).
Proof.
  intros Hu.
  destruct (updateIndex_Ok _ _ _ Hu)
    as (existing & hwm & dbs & Hg & Hh & _ & Hd & Ht & Hf & Hs & _).
  destruct (updateIndex_marks _ _ _ Hu)
    as (data & hwm' & dbs' & new & n & Hdata & Hh' & Hd' & Hnew & _ & Hall & Hatt & _).
  destruct (getStats_file _ _ Hg) as (data' & Hdata' & _ & _ & _ & _ & Hmark & _).
  assert (data' = data) as -> by congruence.
  assert (hwm' = hwm) as -> by congruence.
  assert (dbs' = dbs) as -> by congruence.
  exists hwm, new, (toIndexed (clock w) <$> filter hasTitle (collectNew hwm dbs)).
  split_and!; try done.
  - unfold storedMark. by rewrite Hdata.
  - unfold storedMark. by rewrite Hs.
Qed.

Lemma update_appends_above_mark_witness :
  updateIndex staleWorld = (Ok (Some staleStats), after updateIndex staleWorld) ∧
  ∃ old new appended,
    storedMark staleWorld = Some old ∧
    storedMark (after updateIndex staleWorld) = Some new ∧
    fuzzyFile (after updateIndex staleWorld) =
      (λ index, index ++ appended) <$> fuzzyFile staleWorld ∧
    tables (after updateIndex staleWorld) = tablesPlus staleWorld appended ∧
    (∀ x, x ∈ appended → old < ir_id x ≤ new) ∧
    (new = old ∨ ∃ x, x ∈ appended ∧ ir_id x = new).
Proof.
  assert (updateIndex staleWorld = (Ok (Some staleStats), after updateIndex staleWorld)) as Hu
    by (vm_compute; reflexivity).
  split; [exact Hu|].
  exact (update_appends_above_mark staleWorld staleStats (after updateIndex staleWorld) Hu).
Defined.
(** ** The statistics describe the index *)

(** Property X4.  After a successful full rebuild the statistics file
    describes the fuzzy index: [totalReminders], [completedReminders] and
    [pendingReminders] count its documents, its completed and its pending
    documents, and [lastIndexedRowid] bounds their identifiers.  A
    successful incremental update keeps it so. *)
Theorem stats_describe_index w :
  (∀ stats w', buildIndex w = (Ok stats, w') → statsDescribeIndex w') ∧
  (∀ stats w', updateIndex w = (Ok (Some stats), w') →
     statsDescribeIndex w → statsDescribeIndex w').
Proof.
  split.
  - intros stats w' Hb.
    destruct (buildIndex_Ok _ _ _ Hb)
      as (reminders & _ & _ & Hf & Hs & _ & _ & Htot & Hc & Hp & _ & Hm).
    eexists stats, _. split_and!; try done.
    eexists. split; [done|]. intros x Hx. by apply maxId_upper.
  - intros stats w' Hu (old & index & Hold & Hix & Htot & Hc & Hp & mark & Hmark & Hle).
    destruct (updateIndex_Ok _ _ _ Hu)
      as (existing & hwm & dbs & Hg & Hh & _ & Hd & _ & Hf & Hs & _ & _ & Htot' & Hc' & Hp' & _).
    destruct (updateIndex_marks _ _ _ Hu)
      as (data & hwm' & dbs' & new & n & Hdata & Hh' & Hd' & Hnew & Hge & Hall & _).
    destruct (getStats_file _ _ Hg)
      as (data' & Hdata' & Et & _ & Ec & Ep & Em & _).
    assert (data' = data) as -> by congruence.
    assert (old = data) as -> by congruence.
    assert (hwm' = hwm) as -> by congruence.
    assert (dbs' = dbs) as -> by congruence.
    assert (mark = hwm) as -> by congruence.
    simpl in *. rewrite Hix in Hf. simpl in Hf.
    eexists stats, _. split; [done|]. split; [exact Hf|].
    split_and!.
    + rewrite Htot', Et, Htot, length_app. lia.
    + rewrite Hc', Ec, Hc, countCompleted_app. lia.
    + rewrite Hp', Ep, Hp, countPending_app. lia.
    + exists new. split; [done|].
      intros x [Hx|Hx]%elem_of_app.
      * specialize (Hle x Hx). lia.
      * specialize (Hall x Hx). lia.
Qed.

Lemma stats_describe_index_witness :
  buildIndex milkWorld = (Ok milkStats, milkIndex) ∧ statsDescribeIndex milkIndex ∧
  updateIndex staleWorld = (Ok (Some staleStats), after updateIndex staleWorld) ∧
  statsDescribeIndex (after updateIndex staleWorld).
Proof.
  assert (buildIndex milkWorld = (Ok milkStats, milkIndex)) as Hb
    by (vm_compute; reflexivity).
  assert (updateIndex staleWorld = (Ok (Some staleStats), after updateIndex staleWorld)) as Hu
    by (vm_compute; reflexivity).
  assert (∃ stats, buildIndex (freshWorld (oneStore [])) =
                   (Ok stats, after buildIndex (freshWorld (oneStore []))))
    as [stats0 Hb0] by (eexists; vm_compute; reflexivity).
  split; [exact Hb|]. split.
  { exact (proj1 (stats_describe_index milkWorld) _ _ Hb). }
  split; [exact Hu|].
  apply (proj2 (stats_describe_index staleWorld) _ _ Hu).
  destruct (proj1 (stats_describe_index (freshWorld (oneStore []))) _ _ Hb0)
    as (stats & index & Hs & Hi & Hrest).
  exists stats, index. split; [exact Hs|]. split; [exact Hi|exact Hrest].
Defined.

(** ** The span of the creation dates *)

Lemma BuildDates_init : BuildDates (mkBuildLoop None 0 0 0 [] []).
Proof.
  unfold BuildDates. simpl. split_and!; [done| |done|by left|done].
  intros x Hx. by apply elem_of_nil in Hx.
Qed.

(** Property X5.  The two dates a full rebuild persists span the creation
    dates of the indexed documents: [oldestReminder] is the earliest creation
    date (an invalid date when nothing is indexed), [newestReminder] is the
    latest one, or the epoch when no document was created after it.  An
    incremental update copies [oldestReminder] from the file and raises
    [newestReminder] to the latest creation date it appends. *)
Theorem stats_dates_span w :
  (∀ stats w', buildIndex w = (Ok stats, w') →
     ∃ index n,
       fuzzyFile w' = Some index ∧ newestReminder stats = Some n ∧ 0 ≤ n ∧
       (index = [] → oldestReminder stats = None) ∧
       (∀ x, x ∈ index →
          ∃ o, oldestReminder stats = Some o ∧ o ≤ createdMs x ≤ n) ∧
       (index ≠ [] → ∃ x, x ∈ index ∧ oldestReminder stats = Some (createdMs x)) ∧
       (n = 0 ∨ ∃ x, x ∈ index ∧ n = createdMs x)) ∧
  (∀ stats w', updateIndex w = (Ok (Some stats), w') →
     ∃ appended n,
       fuzzyFile w' = (λ index, index ++ appended) <$> fuzzyFile w ∧
       oldestReminder stats = Some (default 0 (statsFile w ≫= oldestReminder)) ∧
       newestReminder stats = Some n ∧
       default 0 (statsFile w ≫= newestReminder) ≤ n ∧
       (∀ x, x ∈ appended → createdMs x ≤ n) ∧
       (n = default 0 (statsFile w ≫= newestReminder) ∨
        ∃ x, x ∈ appended ∧ n = createdMs x)).
Proof.
  split.
  - intros stats w' Hb.
    destruct (buildIndex_inv _ _ _ Hb)
      as (reminders & st & w1 & w2 & _ & Hloop & _ & _ & -> & ->).
    pose proof (build_loop_dates _ _ _ _ _ Hloop BuildDates_init)
      as (Hnil & Hall & Hmin & Hmax & Hpos).
    exists (b_indexedReminders st), (b_newestDate st * 1000). simpl.
    split_and!; try done.
    + lia.
    + intros Hnil'. by rewrite Hnil.
    + intros x Hx. destruct (Hall x Hx) as (o & -> & Ho). simpl.
      eexists. split; [done|]. unfold createdMs. lia.
    + intros Hne. destruct (Hmin Hne) as (x & Hx & ->). by exists x.
    + destruct Hmax as [->|(x & Hx & ->)]; [by left|]. right. by exists x.
  - intros stats w' Hu.
    destruct (updateIndex_Ok _ _ _ Hu)
      as (existing & hwm & dbs & Hg & Hh & _ & Hd & _ & Hf & _).
    destruct (updateIndex_marks _ _ _ Hu)
      as (data & hwm' & dbs' & new & n & Hdata & Hh' & Hd' & _ & _ & _ & _
          & Hn & Hnle & Hnall & Hnatt & Hold & _).
    destruct (getStats_file _ _ Hg) as (data' & Hdata' & _ & _ & _ & _ & Em & _).
    assert (data' = data) as -> by congruence.
    assert (hwm' = hwm) as -> by congruence.
    assert (dbs' = dbs) as -> by congruence.
    exists (toIndexed (clock w) <$> filter hasTitle (collectNew hwm dbs)), n.
    rewrite Hdata. simpl. split_and!; done.
Qed.

Lemma stats_dates_span_witness :
  buildIndex milkWorld = (Ok milkStats, milkIndex) ∧
  updateIndex staleWorld = (Ok (Some staleStats), after updateIndex staleWorld) ∧
  (∃ index n,
     fuzzyFile milkIndex = Some index ∧ newestReminder milkStats = Some n ∧ 0 ≤ n ∧
     (index = [] → oldestReminder milkStats = None) ∧
     (∀ x, x ∈ index →
        ∃ o, oldestReminder milkStats = Some o ∧ o ≤ createdMs x ≤ n) ∧
     (index ≠ [] → ∃ x, x ∈ index ∧ oldestReminder milkStats = Some (createdMs x)) ∧
     (n = 0 ∨ ∃ x, x ∈ index ∧ n = createdMs x)) ∧
  (∃ appended n,
     fuzzyFile (after updateIndex staleWorld) =
       (λ index, index ++ appended) <$> fuzzyFile staleWorld ∧
     oldestReminder staleStats = Some (default 0 (statsFile staleWorld ≫= oldestReminder)) ∧
     newestReminder staleStats = Some n ∧
     default 0 (statsFile staleWorld ≫= newestReminder) ≤ n ∧
     (∀ x, x ∈ appended → createdMs x ≤ n) ∧
     (n = default 0 (statsFile staleWorld ≫= newestReminder) ∨
      ∃ x, x ∈ appended ∧ n = createdMs x)).
Proof.
  assert (buildIndex milkWorld = (Ok milkStats, milkIndex)) as Hb
    by (vm_compute; reflexivity).
  assert (updateIndex staleWorld = (Ok (Some staleStats), after updateIndex staleWorld)) as Hu
    by (vm_compute; reflexivity).
  split; [exact Hb|]. split; [exact Hu|]. split.
  - exact (proj1 (stats_dates_span milkWorld) _ _ Hb).
  - exact (proj2 (stats_dates_span staleWorld) _ _ Hu).
Defined.
(** ** The freshness check *)

Lemma bind_Throw {A B} (m : M A) (k : A → M B) w e w' :
  bind m k w = (Throw e, w') →
  m w = (Throw e, w') ∨ ∃ a w1, m w = (Ok a, w1) ∧ k a w1 = (Throw e, w').
Proof.
  unfold bind. destruct (m w) as [[a|e'] w1]; [by eauto|].
  intros [= -> ->]. by left.
Qed.

Lemma newestMtime_foldl dbs : ∀ a,
  let out := foldl (λ newest db,
                      match sf_mtime db with
                      | Some mtime => if bool_decide (newest < mtime) then mtime else newest
                      | None => newest
                      end) a dbs in
  a ≤ out ∧
  (∀ db t, db ∈ dbs → sf_mtime db = Some t → t ≤ out) ∧
  (out = a ∨ ∃ db, db ∈ dbs ∧ sf_mtime db = Some out).
Proof.
  induction dbs as [|db dbs IH]; intros a; simpl.
  - split_and!; [lia| |by left]. intros db t Hdb. by apply elem_of_nil in Hdb.
  - destruct (sf_mtime db) as [t0|] eqn:Ht0.
    + destruct (IH (if bool_decide (a < t0) then t0 else a)) as (Hle & Hall & Hatt).
      revert Hle Hall Hatt. generalize (bool_decide_reflect (a < t0)).
      destruct (bool_decide (a < t0)); intros Hlt; inversion_clear Hlt;
        match goal with |- context [foldl ?g ?b dbs] => generalize (foldl g b dbs) end;
        intros out Hle Hall Hatt.
      * split_and!; [lia| |].
        -- intros db' t [->|Hin]%elem_of_cons Ht; [|by eapply Hall].
           assert (t = t0) by congruence. lia.
        -- right. destruct Hatt as [->|(db' & Hin & Hatt)].
           ++ exists db. split; [by left|done].
           ++ exists db'. split; [by right|done].
      * split_and!; [lia| |].
        -- intros db' t [->|Hin]%elem_of_cons Ht; [|by eapply Hall].
           assert (t = t0) by congruence. lia.
        -- destruct Hatt as [->|(db' & Hin & Hatt)]; [by left|].
           right. exists db'. split; [by right|done].
    + destruct (IH a) as (Hle & Hall & Hatt). split_and!; [done| |].
      * intros db' t [->|Hin]%elem_of_cons Ht; [congruence|by eapply Hall].
      * destruct Hatt as [?|(db' & Hin & Hatt)]; [by left|].
        right. exists db'. split; [by right|done].
Qed.

Lemma newestMtime_spec dbs :
  0 ≤ newestMtime dbs ∧
  (∀ db t, db ∈ dbs → sf_mtime db = Some t → t ≤ newestMtime dbs) ∧
  (newestMtime dbs = 0 ∨ ∃ db, db ∈ dbs ∧ sf_mtime db = Some (newestMtime dbs)).
Proof. apply newestMtime_foldl. Qed.

Lemma databases_listable w : databases w ≠ [] → sourceDir w ≠ DirUnlistable.
Proof. unfold databases. by destruct (sourceDir w). Qed.

Lemma findRemindersDatabases_listable w :
  sourceDir w ≠ DirUnlistable → findRemindersDatabases w = (Ok (databases w), w).
Proof. intros Hl. rewrite findRemindersDatabases_eq. by destruct (sourceDir w). Qed.

Lemma findRemindersDatabases_unlistable w :
  sourceDir w = DirUnlistable → findRemindersDatabases w = (Throw FsError, w).
Proof. intros Hl. by rewrite findRemindersDatabases_eq, Hl. Qed.

Lemma getSourceModTime_eq w :
  sourceDir w ≠ DirUnlistable →
  getSourceModTime w = (Ok (newestMtime (databases w)), w).
Proof.
  intros Hl. unfold getSourceModTime.
  by rewrite (bind_eq _ _ _ _ _ (findRemindersDatabases_listable w Hl)).
Qed.

Lemma statIndexDb_eq w :
  statIndexDb w =
  (match indexDbFile w ≫= db_mtime with
   | Some mtime => Ok mtime
   | None => Throw FsError
   end, w).
Proof.
  unfold statIndexDb, bind, get, ret, throw. simpl.
  by destruct (indexDbFile w) as [[[m|] c]|].
Qed.

(** What [indexNeedsRebuild] answers, by the state of the two directories. *)
Lemma indexNeedsRebuild_eq w :
  indexNeedsRebuild w =
  (match indexDbFile w, fuzzyFile w with
   | Some f, Some _ =>
       match sourceDir w with
       | DirUnlistable => Throw FsError
       | _ =>
           match databases w with
           | [] => Ok false
           | _ :: _ =>
               match db_mtime f with
               | Some m => Ok (bool_decide (m < newestMtime (databases w)))
               | None => Ok true
               end
           end
       end
   | _, _ => Ok true
   end, w).
Proof.
  unfold indexNeedsRebuild. rewrite (bind_eq _ _ _ _ _ (indexExists_eq w)).
  destruct (indexDbFile w) as [f|] eqn:Hi; [|done].
  destruct (fuzzyFile w) as [index|] eqn:Hf; [|done]. simpl.
  assert (sourceDir w = DirUnlistable ∨ sourceDir w ≠ DirUnlistable) as [Hl|Hl]
    by (destruct (sourceDir w); auto).
  { rewrite (bind_throw _ _ _ _ _ (findRemindersDatabases_unlistable w Hl)).
    by rewrite Hl. }
  rewrite (bind_eq _ _ _ _ _ (findRemindersDatabases_listable w Hl)).
  assert (∀ A (x y : A), match sourceDir w with DirUnlistable => x | _ => y end = y)
    as -> by (intros; by destruct (sourceDir w)).
  destruct (databases w) as [|db dbs] eqn:Hdbs; [done|].
  unfold catch.
  rewrite (bind_eq _ _ _ _ _ (getSourceModTime_eq w Hl)).
  unfold bind at 1. rewrite statIndexDb_eq, Hi. simpl. rewrite Hdbs.
  by destruct (db_mtime f).
Qed.

Lemma indexNeedsRebuild_world w r w' : indexNeedsRebuild w = (r, w') → w' = w.
Proof. rewrite indexNeedsRebuild_eq. by intros [= _ <-]. Qed.

(** Property X6.  With both index files in place, an [index.db] whose
    modification time can be read and at least one source database, the
    index is declared stale exactly when some source database was modified
    after [index.db] (or [index.db] is dated before the epoch); a source
    database whose modification time cannot be read is not counted. *)
Theorem staleness_criterion w f m :
  indexDbFile w = Some f → db_mtime f = Some m → is_Some (fuzzyFile w) →
  databases w ≠ [] →
  ∃ stale, indexNeedsRebuild w = (Ok stale, w) ∧
    (stale = true ↔
     m < 0 ∨ ∃ db t, db ∈ databases w ∧ sf_mtime db = Some t ∧ m < t).
Proof.
  intros Hf Hm [index Hix] Hdbs. rewrite indexNeedsRebuild_eq, Hf, Hix, Hm.
  pose proof (databases_listable _ Hdbs) as Hl.
  destruct (newestMtime_spec (databases w)) as (Hpos & Hall & Hatt).
  exists (bool_decide (m < newestMtime (databases w))). split.
  - destruct (sourceDir w); try done; by destruct (databases w).
  - rewrite bool_decide_eq_true. split.
    + intros Hlt. destruct Hatt as [H0|(db & Hin & Hdb)]; [left; lia|].
      right. by exists db, (newestMtime (databases w)).
    + intros [Hneg|(db & t & Hin & Ht & Hlt)]; [lia|].
      specialize (Hall db t Hin Ht). lia.
Qed.

Lemma staleness_criterion_witness :
  ∃ stale, indexNeedsRebuild touchedWorld = (Ok stale, touchedWorld) ∧
    (stale = true ↔
     5000 < 0 ∨ ∃ db t, db ∈ databases touchedWorld ∧ sf_mtime db = Some t ∧ 5000 < t).
Proof.
  apply (staleness_criterion touchedWorld
           (mkDbFile (Some 5000)
              (Tables (toRow <$> [sampleIndexed 1 "A" 1 "Home" 100 false;
                                  sampleIndexed 2 "B" 1 "Home" 200 false;
                                  sampleIndexed 3 "C" 2 "Work" 300 false])
                      (toRow <$> [sampleIndexed 1 "A" 1 "Home" 100 false;
                                  sampleIndexed 2 "B" 1 "Home" 200 false;
                                  sampleIndexed 3 "C" 2 "Work" 300 false])))
           5000).
  - vm_compute. reflexivity.
  - reflexivity.
  - vm_compute. eexists. reflexivity.
  - vm_compute. discriminate.
Defined.

(** ** What a freshness check has done *)

Lemma ensureIndex_Ok w f w' :
  ensureIndex w = (Ok f, w') →
  match f with
  | FreshNone => w' = w ∧ indexNeedsRebuild w = (Ok false, w)
  | FreshIncremental =>
      indexNeedsRebuild w = (Ok true, w) ∧ (indexExists w).1 = Ok true ∧
      ∃ stats, updateIndex w = (Ok (Some stats), w')
  | FreshFull =>
      indexNeedsRebuild w = (Ok true, w) ∧ ∃ stats, buildIndex w = (Ok stats, w')
  end.
Proof.
  unfold ensureIndex. intros H.
  bind_inv H as stale w0 Hn. pose proof (indexNeedsRebuild_world _ _ _ Hn) as ->.
  destruct stale; simpl in H; [|by injection H as <- <-].
  bind_inv H as stats w0 Hg. pose proof (getStats_world _ _ _ Hg) as ->.
  bind_inv H as present w0 Hp. rewrite indexExists_eq in Hp. injection Hp as <- <-.
  destruct (Js.truthyNum (stats ≫= lastIndexedRowid) && _) eqn:Hc.
  - apply andb_prop in Hc as [_ Hpresent].
    bind_inv H as result w1 Hu. destruct result as [st|].
    + injection H as <- <-. split; [done|]. split; [|by exists st].
      by rewrite indexExists_eq, Hpresent.
    + bind_inv H as st w2 Hb. injection H as <- <-. split; [done|].
      destruct (Js.truthyNum (storedMark w)) eqn:Hm.
      * apply updateIndex_applies in Hm. by rewrite Hu in Hm.
      * rewrite (updateIndex_skips _ Hm) in Hu. injection Hu as <-. by exists st.
  - bind_inv H as st w2 Hb. injection H as <- <-. split; [done|]. by exists st.
Qed.

Lemma indexExists_tables w index t :
  fuzzyFile w = Some index → tables w = Some t → (indexExists w).1 = Ok true.
Proof.
  intros Hf Ht. rewrite indexExists_eq, Hf. unfold tables in Ht.
  by destruct (indexDbFile w).
Qed.

Lemma ensureIndex_leaves_index w f w' :
  ensureIndex w = (Ok f, w') → (indexExists w').1 = Ok true.
Proof.
  intros H. apply ensureIndex_Ok in H. destruct f.
  - destruct H as [-> Hn].
    rewrite indexNeedsRebuild_eq in Hn. rewrite indexExists_eq.
    by destruct (indexDbFile w), (fuzzyFile w).
  - destruct H as (_ & Hp & stats & Hu).
    destruct (updateIndex_inv _ _ _ Hu)
      as (existing & hwm & dbs & _ & _ & _ & _ & _ & Hcase).
    destruct Hcase as [(_ & _ & ->)
                      |(_ & w0 & fuzzy & st & w1 & w2 & Ho & _ & Hf & Hloop & Hfl & _ & _ & ->)].
    + by rewrite indexExists_eq in *.
    + rewrite indexExists_eq. simpl.
      pose proof (update_loop_Ok _ _ _ _ _ Hloop) as (_ & Ht1 & _).
      pose proof (flushBatch_Ok _ _ _ _ Hfl) as (_ & Ht2).
      assert (is_Some (tables w)) as [t Ht].
      { unfold openIndexDb, bind, get, put, throw, ret in Ho. simpl in Ho.
        unfold tables. by destruct (indexDbFile w) as [[m [|fts rows]]|]. }
      rewrite Ht1 in Ht2. unfold tablesPlus in Ht2. rewrite Ht in Ht2.
      unfold tables in Ht2. by destruct (indexDbFile w2).
  - destruct H as (_ & stats & Hb).
    destruct (buildIndex_Ok _ _ _ Hb) as (reminders & _ & Ht & Hf & _).
    by eapply indexExists_tables.
Qed.

(** Property X7.  A freshness check that returns has left both index files
    in place.  Its report says what it did: [none] means that no file was
    touched, [incremental] that the state is the one the incremental update
    produces, [full] that it is the one a full rebuild produces from the
    state the check started in (an update that declined has left no
    trace). *)
Theorem ensureIndex_outcome w f w' :
  ensureIndex w = (Ok f, w') →
  (indexExists w').1 = Ok true ∧
  (f = FreshNone → w' = w) ∧
  (f = FreshIncremental → ∃ stats, updateIndex w = (Ok (Some stats), w')) ∧
  (f = FreshFull → ∃ stats, buildIndex w = (Ok stats, w')).
Proof.
  intros H. split; [by eapply ensureIndex_leaves_index|].
  apply ensureIndex_Ok in H. destruct f.
  - destruct H as [-> Hn]. by split_and!.
  - destruct H as (_ & Hp & stats & Hu). split_and!; try done. by eauto.
  - destruct H as (_ & stats & Hb). split_and!; try done. by eauto.
Qed.

Lemma ensureIndex_outcome_witness :
  (indexExists milkIndex).1 = Ok true ∧
  (FreshFull = FreshNone → milkIndex = milkWorld) ∧
  (FreshFull = FreshIncremental →
   ∃ stats, updateIndex milkWorld = (Ok (Some stats), milkIndex)) ∧
  (FreshFull = FreshFull → ∃ stats, buildIndex milkWorld = (Ok stats, milkIndex)).
Proof.
  apply (ensureIndex_outcome milkWorld FreshFull milkIndex).
  vm_compute. reflexivity.
Defined.
(** ** The modification time of [index.db] *)

Lemma insertBatch_stamped batch w u w' :
  insertBatch batch w = (Ok u, w') → stamped w'.
Proof.
  unfold insertBatch, bind, get, put, throw. simpl.
  destruct (indexDbFile w) as [f|]; [|done].
  destruct (insertRows _ _); [|done]. intros [= _ <-]. by eexists.
Qed.

Lemma pushBatch_stamped batch x w batch' w' :
  pushBatch batch x w = (Ok batch', w') → stamped w → stamped w'.
Proof.
  unfold pushBatch. destruct (bool_decide _).
  - intros H _. bind_inv H as u w1 Hi. injection H as _ <-.
    by eapply insertBatch_stamped.
  - by intros [= _ <-].
Qed.

Lemma flushBatch_stamped batch w u w' :
  flushBatch batch w = (Ok u, w') → stamped w → stamped w'.
Proof.
  destruct batch; simpl.
  - by intros [= _ <-].
  - intros H _. by eapply insertBatch_stamped.
Qed.

Lemma buildStep_stamped st r w st' w' :
  buildStep st r w = (Ok st', w') → stamped w → stamped w'.
Proof.
  unfold buildStep. destruct (Js.truthyStr (jr_title r)); simpl.
  - intros H. bind_inv H as now w0 Hn. injection Hn as _ <-.
    bind_inv H as batch w1 Hp. injection H as _ <-. by eapply pushBatch_stamped.
  - by intros [= _ <-].
Qed.

Lemma build_loop_stamped rs : ∀ st w st' w',
  forEach buildStep rs st w = (Ok st', w') → stamped w → stamped w'.
Proof.
  induction rs as [|r rs IH]; intros st w st' w' H Hs; simpl in H.
  - by injection H as _ <-.
  - bind_inv H as st1 w1 H1. eauto using buildStep_stamped.
Qed.

Lemma buildIndex_stamped w stats w' :
  buildIndex w = (Ok stats, w') →
  ∃ f, indexDbFile w' = Some f ∧ db_mtime f = Some (clock w).
Proof.
  intros Hb.
  destruct (buildIndex_inv _ _ _ Hb)
    as (reminders & st & w1 & w2 & _ & Hloop & Hfl & Hc & _ & ->).
  assert (stamped (withIndexDb (Some (mkDbFile (Some (clock w)) (Tables [] []))) w))
    as Hinit by (by eexists).
  pose proof (build_loop_stamped _ _ _ _ _ Hloop Hinit) as H1.
  destruct (flushBatch_stamped _ _ _ _ Hfl H1) as (f & Hf & Hm).
  exists f. simpl. by rewrite <-Hc.
Qed.

Lemma buildIndex_not_stale w stats w' now :
  buildIndex w = (Ok stats, w') →
  (∀ db t, db ∈ databases w → sf_mtime db = Some t → t ≤ clock w) →
  0 ≤ clock w →
  indexNeedsRebuild (withClock now w') = (Ok false, withClock now w').
Proof.
  intros Hb Hold Hpos.
  destruct (buildIndex_stamped _ _ _ Hb) as (f & Hf & Hm).
  destruct (buildIndex_Ok _ _ _ Hb) as (reminders & Hq & _ & Hfz & _ & Hsd & _).
  apply queryAllDatabases_Ok in Hq as (_ & Hdbs & _).
  assert (databases (withClock now w') = databases w) as Hsame.
  { unfold databases. simpl. by rewrite Hsd. }
  rewrite indexNeedsRebuild_eq. simpl. rewrite Hf, Hfz, Hsame, Hsd, Hm.
  pose proof (databases_listable _ Hdbs).
  destruct (newestMtime_spec (databases w)) as (_ & _ & [H0|(db & Hin & Hdb)]).
  - rewrite H0, bool_decide_eq_false_2 by lia.
    destruct (sourceDir w); try done; by destruct (databases w).
  - specialize (Hold _ _ Hin Hdb). rewrite bool_decide_eq_false_2 by lia.
    destruct (sourceDir w); try done; by destruct (databases w).
Qed.

(** Property X8.  Once a full rebuild has returned, the freshness check
    reports [none] and touches nothing, at any later time, as long as the
    source databases carry modification times that are not later than the
    time of the rebuild. *)
Theorem fresh_after_build w stats w' now :
  buildIndex w = (Ok stats, w') →
  (∀ db t, db ∈ databases w → sf_mtime db = Some t → t ≤ clock w) →
  0 ≤ clock w →
  ensureIndex (withClock now w') = (Ok FreshNone, withClock now w').
Proof.
  intros Hb Hold Hpos.
  pose proof (buildIndex_not_stale _ _ _ now Hb Hold Hpos) as Hn.
  unfold ensureIndex. by rewrite (bind_eq _ _ _ _ _ Hn).
Qed.

Lemma fresh_after_build_witness :
  buildIndex milkWorld = (Ok milkStats, milkIndex) ∧
  ensureIndex (withClock 9000 milkIndex) = (Ok FreshNone, withClock 9000 milkIndex).
Proof.
  assert (buildIndex milkWorld = (Ok milkStats, milkIndex)) as Hb
    by (vm_compute; reflexivity).
  split; [exact Hb|].
  apply (fresh_after_build milkWorld milkStats milkIndex 9000 Hb).
  - intros db t Hin Ht. vm_compute in Hin.
    apply elem_of_cons in Hin as [->|Hin];
      [|apply elem_of_cons in Hin as [->|Hin]; [|by apply elem_of_nil in Hin]];
      injection Ht as <-; vm_compute; discriminate.
  - vm_compute. discriminate.
Defined.

(** Property X9.  An incremental update that finds no row above the
    high-water-mark rewrites the statistics only: [index.db] keeps its
    modification time, so the index stays stale and the next freshness
    check runs the incremental update again, with the same outcome. *)
Theorem empty_update_stays_stale w w' hwm :
  ensureIndex w = (Ok FreshIncremental, w') →
  storedMark w = Some hwm → collectNew hwm (databases w) = [] →
  indexDbFile w' = indexDbFile w ∧
  indexNeedsRebuild w' = (Ok true, w') ∧
  ensureIndex w' = (Ok FreshIncremental, w').
Proof.
  intros He Hmark Hnil.
  apply ensureIndex_Ok in He as (Hn & Hp & stats & Hu).
  pose proof (updateIndex_dates_valid _ _ _ Hu) as Hvalid.
  destruct (updateIndex_inv _ _ _ Hu)
    as (existing & hwm' & dbs & Hg & Hh & Hnz & Hd & Hne & Hcase).
  destruct (getStats_file _ _ Hg) as (data & Hdata & _ & _ & _ & _ & Em & _).
  assert (hwm' = hwm) as ->.
  { unfold storedMark in Hmark. rewrite Hdata in Hmark. simpl in Hmark. congruence. }
  assert (dbs = databases w) as ->.
  { rewrite findRemindersDatabases_eq in Hd. destruct (sourceDir w); congruence. }
  destruct Hcase as [(_ & Hstats & ->)|(Habs & _)]; [|done].
  split; [done|].
  assert (indexNeedsRebuild (withStats (Some stats) w) =
          (Ok true, withStats (Some stats) w)) as Hn'.
  { rewrite indexNeedsRebuild_eq in Hn |- *. simpl.
    change (databases (withStats (Some stats) w)) with (databases w).
    by injection Hn as ->. }
  split; [done|].
  unfold ensureIndex. rewrite (bind_eq _ _ _ _ _ Hn'). simpl.
  assert (getStats (withStats (Some stats) w) =
          (Ok (Some stats), withStats (Some stats) w)) as Hg'
    by (by apply getStats_valid).
  rewrite (bind_eq _ _ _ _ _ Hg').
  rewrite (bind_eq _ _ _ _ _ (indexExists_eq _)). simpl.
  rewrite indexExists_eq in Hp. simpl in Hp. injection Hp as ->.
  assert (lastIndexedRowid stats = Some hwm) as Hs by (by rewrite Hstats).
  pose proof (databases_listable _ Hne) as Hl.
  rewrite Hs. destruct (databases w) as [|db dbs] eqn:Hdbs; [done|].
  assert (Js.truthyNum (Some hwm) = true) as -> by (by destruct hwm).
  simpl.
  assert (updateIndex (withStats (Some stats) w) =
          (Ok (Some stats), withStats (Some stats) w)) as Hu'.
  { rewrite (empty_delta_rewrites_file _ stats hwm db dbs); try done.
    - by rewrite Hstats.
    - rewrite findRemindersDatabases_eq. simpl.
      change (databases (withStats (Some stats) w)) with (databases w).
      rewrite Hdbs. by destruct (sourceDir w). }
  by rewrite (bind_eq _ _ _ _ _ Hu').
Qed.

Lemma empty_update_stays_stale_witness :
  storedMark touchedWorld = Some 3 ∧
  collectNew 3 (databases touchedWorld) = [] ∧
  indexDbFile (after ensureIndex touchedWorld) = indexDbFile touchedWorld ∧
  indexNeedsRebuild (after ensureIndex touchedWorld) =
    (Ok true, after ensureIndex touchedWorld) ∧
  ensureIndex (after ensureIndex touchedWorld) =
    (Ok FreshIncremental, after ensureIndex touchedWorld).
Proof.
  assert (ensureIndex touchedWorld = (Ok FreshIncremental, after ensureIndex touchedWorld))
    as He by (vm_compute; reflexivity).
  assert (storedMark touchedWorld = Some 3) as Hm by reflexivity.
  assert (collectNew 3 (databases touchedWorld) = []) as Hnil by (vm_compute; reflexivity).
  split; [exact Hm|]. split; [exact Hnil|].
  exact (empty_update_stays_stale touchedWorld _ 3 He Hm Hnil).
Defined.
(** ** The errors of the indexer *)

Tactic Notation "throw_inv" hyp(H) "as" ident(a) ident(w) ident(E) :=
  apply bind_Throw in H as [H|(a & w & E & H)].

















Lemma getMiniSearch_after_ensureIndex w f w1 :
  ensureIndex w = (Ok f, w1) → ∃ index, getMiniSearch w1 = (Ok index, w1).
Proof.
  intros He%ensureIndex_leaves_index. unfold getMiniSearch, bind, get, ret, throw.
  simpl. rewrite indexExists_eq in He.
  destruct (indexDbFile w1), (fuzzyFile w1); try done. by eexists.
Qed.
(** * Further properties of the queries *)

(** ** Statements of the form [SELECT ... WHERE ... ORDER BY ... LIMIT ?] *)

#[local] Instance byNewest_total : Total byNewest.
Proof. intros a b. unfold byNewest. lia. Qed.

#[local] Instance byNewest_trans : Transitive byNewest.
Proof. intros a b c. unfold byNewest. lia. Qed.

#[local] Instance byDueThenNewest_total : Total byDueThenNewest.
Proof.
  intros a b. unfold byDueThenNewest.
  destruct (row_due_date a), (row_due_date b); try tauto; lia.
Qed.

#[local] Instance byDueThenNewest_trans : Transitive byDueThenNewest.
Proof.
  intros a b c. unfold byDueThenNewest.
  destruct (row_due_date a), (row_due_date b), (row_due_date c); try tauto; lia.
Qed.

#[local] Instance byCompletionNewest_total : Total byCompletionNewest.
Proof.
  intros a b. unfold byCompletionNewest.
  destruct (row_completion_date a), (row_completion_date b); try tauto; lia.
Qed.

#[local] Instance byCompletionNewest_trans : Transitive byCompletionNewest.
Proof.
  intros a b c. unfold byCompletionNewest.
  destruct (row_completion_date a), (row_completion_date b), (row_completion_date c);
    try tauto; lia.
Qed.

#[local] Instance byDue_total : Total byDue.
Proof.
  intros a b. unfold byDue. destruct (row_due_date a), (row_due_date b); try tauto; lia.
Qed.

#[local] Instance byDue_trans : Transitive byDue.
Proof.
  intros a b c. unfold byDue.
  destruct (row_due_date a), (row_due_date b), (row_due_date c); try tauto; lia.
Qed.

#[local] Instance byPendingFirst_total : Total byPendingFirst.
Proof.
  intros a b. unfold byPendingFirst.
  destruct (Z.lt_trichotomy (row_completed a) (row_completed b)) as [?|[?|?]]; auto.
  destruct (total byDueThenNewest a b); auto.
Qed.

#[local] Instance byPendingFirst_trans : Transitive byPendingFirst.
Proof.
  intros a b c. unfold byPendingFirst. intros [?|[? Hab]] [?|[? Hbc]]; try lia.
  right. split; [lia|]. by transitivity b.
Qed.

Section Select.

Context (orderBy : relation Row) `{!RelDecision orderBy}.
Context `{!Total orderBy, !Transitive orderBy}.

Implicit Types rows : list Row.

Lemma select_elem_of n rows r : r ∈ Sql.limit n (merge_sort orderBy rows) → r ∈ rows.
Proof. intros Hr%limit_elem_of. by rewrite merge_sort_Permutation in Hr. Qed.

Lemma select_unlimited n rows r :
  n < 0 → r ∈ rows → r ∈ Sql.limit n (merge_sort orderBy rows).
Proof.
  intros Hn Hr. unfold Sql.limit. rewrite bool_decide_eq_true_2 by done.
  by rewrite merge_sort_Permutation.
Qed.

Lemma limit_sorted {A} (R : relation A) n (l : list A) :
  StronglySorted R l → StronglySorted R (Sql.limit n l).
Proof.
  intros Hs. unfold Sql.limit. case_bool_decide; [done|].
  rewrite <-(take_drop (Z.to_nat n) l) in Hs. by apply StronglySorted_app_1_l in Hs.
Qed.

Lemma select_sorted n rows :
  StronglySorted orderBy (Sql.limit n (merge_sort orderBy rows)).
Proof. apply limit_sorted, StronglySorted_merge_sort; apply _. Qed.

(** A row the limit leaves out does not sort before a row it keeps. *)
Lemma select_first n rows r r' :
  r ∈ Sql.limit n (merge_sort orderBy rows) → r' ∈ rows →
  r' ∉ Sql.limit n (merge_sort orderBy rows) →
  orderBy r r'.
Proof.
  set (sorted := merge_sort orderBy rows).
  assert (StronglySorted orderBy sorted) as Hs
    by (apply StronglySorted_merge_sort; apply _).
  unfold Sql.limit. case_bool_decide.
  - intros _ Hr' Hout. destruct Hout. subst sorted. by rewrite merge_sort_Permutation.
  - intros Hr Hr' Hout.
    assert (r' ∈ sorted) as Hin by (subst sorted; by rewrite merge_sort_Permutation).
    rewrite <-(take_drop (Z.to_nat n) sorted) in Hin, Hs.
    apply elem_of_app in Hin as [Hin|Hin]; [done|].
    by eapply StronglySorted_app_1_elem_of.
Qed.

Lemma select_length n rows :
  0 ≤ n →
  Z.of_nat (length (Sql.limit n (merge_sort orderBy rows))) =
  Z.min n (Z.of_nat (length rows)).
Proof.
  intros Hn. unfold Sql.limit. rewrite bool_decide_eq_false_2 by lia.
  rewrite length_take, merge_sort_Permutation. lia.
Qed.

End Select.

(** ** Reading the table after the freshness check *)

Lemma table_read w db w1 rows w2 :
  getDb w = (Ok db, w1) → prepareSelect db w1 = (Ok rows, w2) →
  w1 = w ∧ w2 = w ∧ rows = remindersTable w.
Proof.
  unfold getDb, bind, get, ret, throw. simpl.
  destruct (indexDbFile w) as [[m c]|] eqn:Hf; [|done].
  intros [= <- <-] (-> & fts & Hc)%prepareSelect_Ok. simpl in Hc. subst c.
  split_and!; try done. unfold remindersTable, tables. by rewrite Hf.
Qed.

Lemma getRecentReminders_Ok limit w rs w' :
  getRecentReminders limit w = (Ok rs, w') →
  ∃ f, ensureIndex w = (Ok f, w') ∧
    rs = rowToReminder <$> Sql.limit limit (merge_sort byNewest (remindersTable w')).
Proof.
  unfold getRecentReminders. intros H.
  bind_inv H as f w1 He. bind_inv H as db w2 Hd. bind_inv H as rows w3 Hp.
  destruct (table_read _ _ _ _ _ Hd Hp) as (-> & -> & ->).
  injection H as <- <-. by exists f.
Qed.

Lemma getPendingReminders_Ok limit w rs w' :
  getPendingReminders limit w = (Ok rs, w') →
  ∃ f, ensureIndex w = (Ok f, w') ∧
    rs = rowToReminder <$>
           Sql.limit limit
             (merge_sort byDueThenNewest
                (filter (λ r, row_completed r = 0) (remindersTable w'))).
Proof.
  unfold getPendingReminders. intros H.
  bind_inv H as f w1 He. bind_inv H as db w2 Hd. bind_inv H as rows w3 Hp.
  destruct (table_read _ _ _ _ _ Hd Hp) as (-> & -> & ->).
  injection H as <- <-. by exists f.
Qed.

Lemma getCompletedReminders_Ok limit w rs w' :
  getCompletedReminders limit w = (Ok rs, w') →
  ∃ f, ensureIndex w = (Ok f, w') ∧
    rs = rowToReminder <$>
           Sql.limit limit
             (merge_sort byCompletionNewest
                (filter (λ r, row_completed r = 1) (remindersTable w'))).
Proof.
  unfold getCompletedReminders. intros H.
  bind_inv H as f w1 He. bind_inv H as db w2 Hd. bind_inv H as rows w3 Hp.
  destruct (table_read _ _ _ _ _ Hd Hp) as (-> & -> & ->).
  injection H as <- <-. by exists f.
Qed.

Lemma getDueReminders_Ok before limit w rs w' :
  getDueReminders before limit w = (Ok rs, w') →
  ∃ f, ensureIndex w = (Ok f, w') ∧
    rs = rowToReminder <$>
           Sql.limit limit
             (merge_sort byDue (filter (dueBy (before `div` 1000)) (remindersTable w'))).
Proof.
  unfold getDueReminders. intros H.
  bind_inv H as f w1 He. bind_inv H as db w2 Hd. bind_inv H as rows w3 Hp.
  destruct (table_read _ _ _ _ _ Hd Hp) as (-> & -> & ->).
  injection H as <- <-. by exists f.
Qed.


Lemma not_elem_of_fmap {A B} (f : A → B) (l : list A) x : f x ∉ f <$> l → x ∉ l.
Proof. intros Hn Hx. apply Hn. by apply list_elem_of_fmap_2. Qed.

(** ** The browse functions *)

(** Property X10.  [getRecentReminders] returns reminders of the table,
    newest first; a reminder the limit leaves out is not newer than any
    reminder returned; a limit that is not negative gives that many
    reminders, or the whole table if it is smaller, and a negative limit
    gives the whole table. *)
Theorem getRecentReminders_newest limit w rs w' :
  getRecentReminders limit w = (Ok rs, w') →
  StronglySorted newestFirst rs ∧
  (∀ x, x ∈ rs → ∃ row, row ∈ remindersTable w' ∧ x = rowToReminder row) ∧
  (∀ x row, x ∈ rs → row ∈ remindersTable w' → rowToReminder row ∉ rs →
     row_creation_date row ≤ ir_creationDate x) ∧
  (0 ≤ limit →
   Z.of_nat (length rs) = Z.min limit (Z.of_nat (length (remindersTable w')))) ∧
  (limit < 0 → ∀ row, row ∈ remindersTable w' → rowToReminder row ∈ rs).
Proof.
  intros (f & _ & ->)%getRecentReminders_Ok. split_and!.
  - eapply StronglySorted_fmap; [|apply (select_sorted byNewest)]. done.
  - intros x (row & -> & Hrow)%list_elem_of_fmap.
    exists row. split; [|done]. by eapply select_elem_of.
  - intros x row (r & -> & Hr)%list_elem_of_fmap Hrow Hout%not_elem_of_fmap.
    apply (select_first byNewest _ _ _ _ Hr Hrow Hout).
  - intros Hn. rewrite length_fmap. by apply select_length.
  - intros Hn row Hrow. apply list_elem_of_fmap_2. by apply select_unlimited.
Qed.

Lemma getRecentReminders_newest_witness :
  getRecentReminders 1 milkIndex = (Ok [callMum], milkIndex) ∧
  StronglySorted newestFirst [callMum] ∧
  (∀ x row, x ∈ [callMum] → row ∈ remindersTable milkIndex →
     rowToReminder row ∉ [callMum] → row_creation_date row ≤ ir_creationDate x) ∧
  (0 ≤ 1 →
   Z.of_nat (length [callMum]) = Z.min 1 (Z.of_nat (length (remindersTable milkIndex)))).
Proof.
  assert (getRecentReminders 1 milkIndex = (Ok [callMum], milkIndex)) as Hg
    by (vm_compute; reflexivity).
  destruct (getRecentReminders_newest 1 milkIndex [callMum] milkIndex Hg)
    as (Hs & _ & Hfirst & Hlen & _).
  split; [exact Hg|]. split; [exact Hs|]. split; [exact Hfirst|exact Hlen].
Defined.

(** Property X11.  [getDueReminders] returns pending reminders that have a
    due date, none of them due after the given date, earliest due first; a
    reminder of that kind that the limit leaves out is not due before any
    reminder returned, and a negative limit leaves none out. *)
Theorem getDueReminders_due before limit w rs w' :
  getDueReminders before limit w = (Ok rs, w') →
  StronglySorted earliestDueFirst rs ∧
  (∀ x, x ∈ rs →
     ir_completed x = false ∧ ∃ d, ir_dueDate x = Some d ∧ d * 1000 ≤ before) ∧
  (∀ x row, x ∈ rs → row ∈ remindersTable w' → dueBy (before `div` 1000) row →
     rowToReminder row ∉ rs →
     ∃ d d', ir_dueDate x = Some d ∧ row_due_date row = Some d' ∧ d ≤ d') ∧
  (limit < 0 → ∀ row, row ∈ remindersTable w' → dueBy (before `div` 1000) row →
     rowToReminder row ∈ rs).
Proof.
  intros (f & _ & ->)%getDueReminders_Ok. split_and!.
  - eapply StronglySorted_fmap; [|apply (select_sorted byDue)]. done.
  - intros x (row & -> & Hrow)%list_elem_of_fmap.
    apply select_elem_of, list_elem_of_filter in Hrow as [(Hc & d & Hd & Hle) _].
    simpl. rewrite Hc, Hd. split; [done|]. exists d. split; [done|].
    pose proof (Z.mul_div_le before 1000). lia.
  - intros x row (r & -> & Hr)%list_elem_of_fmap Hrow Hdue Hout%not_elem_of_fmap.
    assert (row ∈ filter (dueBy (before `div` 1000)) (remindersTable w')) as Hin
      by (by apply list_elem_of_filter).
    pose proof (select_first byDue _ _ _ _ Hr Hin Hout) as Hord.
    apply select_elem_of, list_elem_of_filter in Hr as [(_ & d & Hd & _) _].
    destruct Hdue as (_ & d' & Hd' & _).
    unfold byDue in Hord. rewrite Hd, Hd' in Hord. simpl. by exists d, d'.
  - intros Hn row Hrow Hdue. apply list_elem_of_fmap_2, select_unlimited; [done|].
    by apply list_elem_of_filter.
Qed.

Lemma getDueReminders_due_witness :
  getDueReminders 978307400999 10 choresIndex = (Ok [payRent], choresIndex) ∧
  StronglySorted earliestDueFirst [payRent] ∧
  (∀ x, x ∈ [payRent] →
     ir_completed x = false ∧ ∃ d, ir_dueDate x = Some d ∧ d * 1000 ≤ 978307400999).
Proof.
  assert (getDueReminders 978307400999 10 choresIndex = (Ok [payRent], choresIndex)) as Hg
    by (vm_compute; reflexivity).
  destruct (getDueReminders_due 978307400999 10 choresIndex [payRent] choresIndex Hg)
    as (Hs & Hdue & _).
  split; [exact Hg|]. split; [exact Hs|exact Hdue].
Defined.

(** Property X12.  [getPendingReminders] returns reminders that are not
    completed, by due date with the undated ones last and the newest first
    among equals; [getCompletedReminders] returns completed reminders, the
    latest completion first.  With a negative limit each returns every
    reminder of its kind. *)
Theorem browse_by_status limit w :
  (∀ rs w', getPendingReminders limit w = (Ok rs, w') →
     StronglySorted dueThenNewest rs ∧
     (∀ x, x ∈ rs → ir_completed x = false) ∧
     (limit < 0 → ∀ row, row ∈ remindersTable w' → row_completed row = 0 →
        rowToReminder row ∈ rs)) ∧
  (∀ rs w', getCompletedReminders limit w = (Ok rs, w') →
     StronglySorted latestCompletionFirst rs ∧
     (∀ x, x ∈ rs → ir_completed x = true) ∧
     (limit < 0 → ∀ row, row ∈ remindersTable w' → row_completed row = 1 →
        rowToReminder row ∈ rs)).
Proof.
  split.
  - intros rs w' (f & _ & ->)%getPendingReminders_Ok. split_and!.
    + eapply StronglySorted_fmap; [|apply (select_sorted byDueThenNewest)]. done.
    + intros x (row & -> & Hrow)%list_elem_of_fmap.
      apply select_elem_of, list_elem_of_filter in Hrow as [Hc _].
      simpl. by rewrite Hc.
    + intros Hn row Hrow Hc. apply list_elem_of_fmap_2, select_unlimited; [done|].
      by apply list_elem_of_filter.
  - intros rs w' (f & _ & ->)%getCompletedReminders_Ok. split_and!.
    + eapply StronglySorted_fmap; [|apply (select_sorted byCompletionNewest)]. done.
    + intros x (row & -> & Hrow)%list_elem_of_fmap.
      apply select_elem_of, list_elem_of_filter in Hrow as [Hc _].
      simpl. by rewrite Hc.
    + intros Hn row Hrow Hc. apply list_elem_of_fmap_2, select_unlimited; [done|].
      by apply list_elem_of_filter.
Qed.

Lemma browse_by_status_witness :
  getPendingReminders 10 choresIndex = (Ok [payRent; fileTaxes; bookFlights], choresIndex) ∧
  getCompletedReminders 10 choresIndex = (Ok [waterPlants], choresIndex) ∧
  StronglySorted dueThenNewest [payRent; fileTaxes; bookFlights] ∧
  (∀ x, x ∈ [payRent; fileTaxes; bookFlights] → ir_completed x = false) ∧
  StronglySorted latestCompletionFirst [waterPlants] ∧
  (∀ x, x ∈ [waterPlants] → ir_completed x = true).
Proof.
  assert (getPendingReminders 10 choresIndex =
          (Ok [payRent; fileTaxes; bookFlights], choresIndex)) as Hp
    by (vm_compute; reflexivity).
  assert (getCompletedReminders 10 choresIndex = (Ok [waterPlants], choresIndex)) as Hc
    by (vm_compute; reflexivity).
  destruct (proj1 (browse_by_status 10 choresIndex) _ _ Hp) as (Hs1 & Hf1 & _).
  destruct (proj2 (browse_by_status 10 choresIndex) _ _ Hc) as (Hs2 & Hf2 & _).
  split; [exact Hp|]. split; [exact Hc|]. split; [exact Hs1|]. split; [exact Hf1|].
  split; [exact Hs2|exact Hf2].
Defined.
(** ** The lists and their counts *)

#[local] Instance byName_total : Total byName.
Proof.
  intros a b. unfold byName. destruct (String.leb_total a b) as [->| ->]; simpl; auto.
Qed.

Lemma sumCase_count c group :
  sumCase c group = countWhere (λ r, row_completed r = c) group.
Proof.
  unfold countWhere. induction group as [|r group IH]; simpl; [done|].
  rewrite IH, filter_cons. case_bool_decide.
  - rewrite decide_True by done. simpl. lia.
  - rewrite decide_False by done. lia.
Qed.

Lemma sumZ_cons x l : sumZ (x :: l) = x + sumZ l.
Proof. done. Qed.

Lemma sumZ_zero {A} (f : A → Z) l : (∀ x, x ∈ l → f x = 0) → sumZ (f <$> l) = 0.
Proof.
  induction l as [|x l IH]; intros H; [done|].
  rewrite fmap_cons, sumZ_cons, H by left. rewrite IH; [done|].
  intros y Hy. apply H. by right.
Qed.

Lemma sumZ_add {A} (f g : A → Z) l :
  sumZ ((λ x, f x + g x) <$> l) = sumZ (f <$> l) + sumZ (g <$> l).
Proof.
  induction l as [|x l IH]; [done|]. rewrite !fmap_cons, !sumZ_cons, IH. lia.
Qed.

Lemma sumZ_indicator (k : string) (c : Z) names :
  NoDup names → k ∈ names →
  sumZ ((λ name, if decide (k = name) then c else 0) <$> names) = c.
Proof.
  induction names as [|n names IH]; intros Hnd Hk; [by apply elem_of_nil in Hk|].
  apply NoDup_cons in Hnd as [Hn Hnd]. rewrite fmap_cons, sumZ_cons.
  destruct (decide (k = n)) as [->|Hne].
  - rewrite sumZ_zero; [lia|]. intros x Hx. rewrite decide_False; [done|]. by intros ->.
  - apply elem_of_cons in Hk as [?|Hk]; [done|]. rewrite IH by done. lia.
Qed.

(** The counts of the groups add up to the count of the whole. *)
Lemma sum_groups (P : Row → Prop) `{!∀ r, Decision (P r)} names : ∀ rows,
  NoDup names → (∀ r, r ∈ rows → row_list_name r ∈ names) →
  sumZ ((λ name, countWhere (λ r, row_list_name r = name ∧ P r) rows) <$> names) =
  countWhere P rows.
Proof.
  unfold countWhere. induction rows as [|r rows IH]; intros Hnd Hall.
  - simpl. by apply sumZ_zero.
  - rewrite filter_cons.
    erewrite (list_fmap_ext _
      (λ name, (if decide (row_list_name r = name) then (if decide (P r) then 1 else 0) else 0)
               + Z.of_nat (length (filter (λ r0, row_list_name r0 = name ∧ P r0) rows)))).
    2:{ intros i name _. simpl. rewrite filter_cons.
        destruct (decide (row_list_name r = name)) as [Hn|Hn], (decide (P r)) as [Hp|Hp].
        - rewrite decide_True by done. simpl. lia.
        - rewrite decide_False by tauto. lia.
        - rewrite decide_False by tauto. lia.
        - rewrite decide_False by tauto. lia. }
    rewrite (sumZ_add (λ name, if decide (row_list_name r = name)
                               then (if decide (P r) then 1 else 0) else 0)).
    rewrite sumZ_indicator; [|done|apply Hall; by left].
    rewrite IH; [|done|intros r0 Hr0; apply Hall; by right].
    destruct (decide (P r)); simpl; lia.
Qed.

Lemma getLists_Ok w lists w' :
  getLists w = (Ok lists, w') →
  ∃ f, ensureIndex w = (Ok f, w') ∧
    let rows := filter (λ r, row_list_name r ≠ "") (remindersTable w') in
    lists =
      (λ name, let group := filter (λ r, row_list_name r = name) rows in
               mkListInfo name (sumCase 0 group) (sumCase 1 group))
        <$> merge_sort byName (remove_dups (row_list_name <$> rows)).
Proof.
  unfold getLists. intros H.
  bind_inv H as f w1 He. bind_inv H as db w2 Hd. bind_inv H as rows w3 Hp.
  destruct (table_read _ _ _ _ _ Hd Hp) as (-> & -> & ->).
  injection H as <- <-. by exists f.
Qed.

(** What [getLists] computes from the table. *)
Lemma lists_of_table (table : list Row) :
  let rows := filter (λ r, row_list_name r ≠ "") table in
  let names := merge_sort byName (remove_dups (row_list_name <$> rows)) in
  let lists :=
    (λ name, let group := filter (λ r, row_list_name r = name) rows in
             mkListInfo name (sumCase 0 group) (sumCase 1 group)) <$> names in
  li_name <$> lists = names ∧
  NoDup names ∧ Sorted byName names ∧
  (∀ name, name ∈ names ↔
           name ≠ "" ∧ ∃ row, row ∈ table ∧ row_list_name row = name) ∧
  (∀ li, li ∈ lists →
     li_pendingCount li =
       countWhere (λ r, row_list_name r = li_name li ∧ row_completed r = 0) table ∧
     li_completedCount li =
       countWhere (λ r, row_list_name r = li_name li ∧ row_completed r = 1) table) ∧
  sumZ (li_pendingCount <$> lists) =
    countWhere (λ r, row_list_name r ≠ "" ∧ row_completed r = 0) table ∧
  sumZ (li_completedCount <$> lists) =
    countWhere (λ r, row_list_name r ≠ "" ∧ row_completed r = 1) table.
Proof.
  intros rows names lists.
  assert (NoDup names) as Hnd.
  { subst names. rewrite merge_sort_Permutation. apply NoDup_remove_dups. }
  assert (∀ name, name ∈ names ↔
            name ≠ "" ∧ ∃ row, row ∈ table ∧ row_list_name row = name) as Hnames.
  { intros name. subst names rows.
    rewrite merge_sort_Permutation, elem_of_remove_dups, list_elem_of_fmap. split.
    - intros (row & -> & [Hne Hin]%list_elem_of_filter). eauto.
    - intros (Hne & row & Hin & <-). exists row. split; [done|].
      by apply list_elem_of_filter. }
  assert (∀ c name, name ≠ "" →
            sumCase c (filter (λ r, row_list_name r = name) rows) =
            countWhere (λ r, row_list_name r = name ∧ row_completed r = c) table) as Hcount.
  { intros c name Hne. rewrite sumCase_count. unfold countWhere. subst rows.
    rewrite !list_filter_filter. f_equal. f_equal. apply list_filter_iff.
    intros r. split; [tauto|]. intros [<- ?]. tauto. }
  assert (∀ c, sumZ ((λ name, sumCase c (filter (λ r, row_list_name r = name) rows))
                       <$> names) =
               countWhere (λ r, row_list_name r ≠ "" ∧ row_completed r = c) table) as Hsum.
  { intros c.
    erewrite (list_fmap_ext _
      (λ name, countWhere (λ r, row_list_name r = name ∧ row_completed r = c) rows)).
    2:{ intros i name _. simpl. rewrite sumCase_count. unfold countWhere.
        rewrite list_filter_filter. f_equal. f_equal. apply list_filter_iff.
        intros r. tauto. }
    rewrite sum_groups; [|done|].
    - unfold countWhere. subst rows. rewrite list_filter_filter. f_equal. f_equal.
      apply list_filter_iff. intros r. tauto.
    - intros r Hr. apply Hnames. subst rows.
      apply list_elem_of_filter in Hr as [Hne Hin]. eauto. }
  split_and!; try done.
  - subst lists. rewrite <-list_fmap_compose. rewrite <-(list_fmap_id names) at 2.
    by apply list_fmap_ext.
  - subst names. apply Sorted_merge_sort. apply _.
  - intros li (name & -> & Hin)%list_elem_of_fmap. simpl.
    apply Hnames in Hin as [Hne _]. by rewrite !Hcount.
  - subst lists. rewrite <-list_fmap_compose. apply (Hsum 0).
  - subst lists. rewrite <-list_fmap_compose. apply (Hsum 1).
Qed.

(** Property X13.  [getLists] reports every list name of the table other
    than the empty one, once, in ascending byte order, with the number of
    its rows that are pending and of those that are completed; over all
    lists these numbers add up to the pending and to the completed rows
    that carry a list name. *)
Theorem getLists_groups w lists w' :
  getLists w = (Ok lists, w') →
  NoDup (li_name <$> lists) ∧ Sorted byName (li_name <$> lists) ∧
  (∀ name, name ∈ li_name <$> lists ↔
           name ≠ "" ∧ ∃ row, row ∈ remindersTable w' ∧ row_list_name row = name) ∧
  (∀ li, li ∈ lists →
     li_pendingCount li =
       countWhere (λ r, row_list_name r = li_name li ∧ row_completed r = 0)
         (remindersTable w') ∧
     li_completedCount li =
       countWhere (λ r, row_list_name r = li_name li ∧ row_completed r = 1)
         (remindersTable w')) ∧
  sumZ (li_pendingCount <$> lists) =
    countWhere (λ r, row_list_name r ≠ "" ∧ row_completed r = 0) (remindersTable w') ∧
  sumZ (li_completedCount <$> lists) =
    countWhere (λ r, row_list_name r ≠ "" ∧ row_completed r = 1) (remindersTable w').
Proof.
  intros (f & _ & ->)%getLists_Ok.
  destruct (lists_of_table (remindersTable w')) as (-> & Hnd & Hs & Hn & Hc & Hp & Hd).
  by split_and!.
Qed.

Lemma getLists_groups_witness :
  getLists choresIndex = (Ok [mkListInfo "Home" 1 1; mkListInfo "Work" 2 0], choresIndex) ∧
  NoDup (li_name <$> [mkListInfo "Home" 1 1; mkListInfo "Work" 2 0]) ∧
  Sorted byName (li_name <$> [mkListInfo "Home" 1 1; mkListInfo "Work" 2 0]) ∧
  sumZ (li_pendingCount <$> [mkListInfo "Home" 1 1; mkListInfo "Work" 2 0]) =
    countWhere (λ r, row_list_name r ≠ "" ∧ row_completed r = 0)
      (remindersTable choresIndex).
Proof.
  assert (getLists choresIndex =
          (Ok [mkListInfo "Home" 1 1; mkListInfo "Work" 2 0], choresIndex)) as Hg
    by (vm_compute; reflexivity).
  destruct (getLists_groups choresIndex _ choresIndex Hg) as (Hnd & Hs & _ & _ & Hp & _).
  split; [exact Hg|]. split; [exact Hnd|]. split; [exact Hs|exact Hp].
Defined.

(** ** The lists against the statistics *)

Lemma toIndexed_listed now r : ir_listName (toIndexed now r) ≠ "".
Proof. simpl. by destruct (jr_listName r) as [[|c s]|]. Qed.

Lemma count_rows_by_status (kept : list IndexedReminder) :
  (∀ x, x ∈ kept → ir_listName x ≠ "") →
  countWhere (λ r, row_list_name r ≠ "" ∧ row_completed r = 0) (toRow <$> kept) =
    countPending kept ∧
  countWhere (λ r, row_list_name r ≠ "" ∧ row_completed r = 1) (toRow <$> kept) =
    countCompleted kept.
Proof.
  unfold countWhere. induction kept as [|x kept IH]; intros Hall; [done|].
  destruct IH as [IHp IHc]; [intros y Hy; apply Hall; by right|].
  assert (ir_listName x ≠ "") as Hx by (apply Hall; by left).
  rewrite countPending_cons, countCompleted_cons, countPending_one, countCompleted_one.
  rewrite fmap_cons, !filter_cons. simpl. destruct (ir_completed x).
  - rewrite decide_False by (intros [_ ?]; done). rewrite decide_True by done.
    simpl. rewrite IHp. split; [lia|]. rewrite <-IHc. lia.
  - rewrite decide_True by done. rewrite decide_False by (intros [_ ?]; done).
    simpl. rewrite IHc. split; [|lia]. rewrite <-IHp. lia.
Qed.

Lemma getLists_fresh w fts rows :
  ensureIndex w = (Ok FreshNone, w) → tables w = Some (fts, rows) →
  ∃ lists, getLists w = (Ok lists, w).
Proof.
  intros He Ht. unfold getLists. rewrite (bind_eq _ _ _ _ _ He).
  unfold tables in Ht. destruct (indexDbFile w) as [[m [|fts' rows']]|] eqn:Hdb; try done.
  assert (getDb w = (Ok (Tables fts' rows'), w)) as Hg.
  { unfold getDb, bind, get, ret. simpl. by rewrite Hdb. }
  rewrite (bind_eq _ _ _ _ _ Hg). simpl. unfold bind, ret. eauto.
Qed.

(** Property X14.  Right after a full rebuild over source databases that
    are not modified later than it, [getLists] returns, and the pending and
    the completed counts of its lists add up to [pendingReminders] and to
    [completedReminders] of the statistics the rebuild has returned. *)
Theorem lists_agree_with_stats w stats w' :
  buildIndex w = (Ok stats, w') →
  (∀ db t, db ∈ databases w → sf_mtime db = Some t → t ≤ clock w) →
  0 ≤ clock w →
  ∃ lists, getLists w' = (Ok lists, w') ∧
    sumZ (li_pendingCount <$> lists) = pendingReminders stats ∧
    sumZ (li_completedCount <$> lists) = completedReminders stats.
Proof.
  intros Hb Hold Hpos.
  pose proof (buildIndex_not_stale _ _ _ (clock w') Hb Hold Hpos) as Hn.
  assert (withClock (clock w') w' = w') as Hw by (by destruct w').
  rewrite Hw in Hn.
  assert (ensureIndex w' = (Ok FreshNone, w')) as He
    by (unfold ensureIndex; by rewrite (bind_eq _ _ _ _ _ Hn)).
  destruct (buildIndex_Ok _ _ _ Hb)
    as (reminders & _ & Ht & _ & _ & _ & _ & _ & Hc & Hp & _).
  destruct (getLists_fresh _ _ _ He Ht) as [lists Hg].
  exists lists. split; [done|].
  destruct (getLists_Ok _ _ _ Hg) as (f & _ & ->).
  destruct (lists_of_table (remindersTable w')) as (_ & _ & _ & _ & _ & -> & ->).
  unfold remindersTable. rewrite Ht. simpl.
  destruct (count_rows_by_status (toIndexed (clock w) <$> filter hasTitle reminders))
    as [-> ->]; [|done].
  intros x (r & -> & _)%list_elem_of_fmap. apply toIndexed_listed.
Qed.

Lemma lists_agree_with_stats_witness :
  ∃ lists, getLists choresIndex = (Ok lists, choresIndex) ∧
    sumZ (li_pendingCount <$> lists) = 3 ∧
    sumZ (li_completedCount <$> lists) = 1.
Proof.
  assert (buildIndex (freshWorld choresSource) =
          (Ok (mkStats 4 2 1 3 (Some 5000) (Some 978307210000) (Some 978307240000) (Some 4)),
           choresIndex)) as Hb by (vm_compute; reflexivity).
  apply (lists_agree_with_stats _ _ _ Hb).
  - intros db t Hin Ht. vm_compute in Hin.
    apply elem_of_cons in Hin as [->|Hin]; [|by apply elem_of_nil in Hin].
    injection Ht as <-. vm_compute. discriminate.
  - vm_compute. discriminate.
Defined.
(** ** [LIKE] against a pattern without wildcards *)










(** ** The list filter *)





(** ** The routes of [search] *)

Section SearchRoutes.

Variable rank : string → list IndexedReminder → list SearchResult.












End SearchRoutes.





(** * Properties of the scripts *)

(** ** Escaping *)

Lemma append_assoc (a b c : string) : (a +:+ b) +:+ c = a +:+ b +:+ c.
Proof.
  induction a as [|x a IH]; [done|].
  change (String x ((a +:+ b) +:+ c) = String x (a +:+ b +:+ c)). by rewrite IH.
Qed.

Lemma escapeAppleScript_cons c s :
  escapeAppleScript (String c s) = escapeChar c +:+ escapeAppleScript s.
Proof.
  unfold escapeAppleScript, escapeChar. simpl.
  destruct (Ascii.eqb c JsStr.backslash) eqn:Hb.
  - apply Ascii.eqb_eq in Hb as ->. done.
  - simpl. by destruct (Ascii.eqb c JsStr.quote).
Qed.

Lemma readLiteral_escapeChar c text :
  readLiteral (escapeChar c +:+ text) =
  match readLiteral text with
  | Some (body, rest) => Some (String c body, rest)
  | None => None
  end.
Proof.
  unfold escapeChar. destruct (Ascii.eqb c JsStr.backslash) eqn:Hb.
  - apply Ascii.eqb_eq in Hb as ->. done.
  - destruct (Ascii.eqb c JsStr.quote) eqn:Hq.
    + apply Ascii.eqb_eq in Hq as ->. done.
    + simpl. by rewrite Hq, Hb.
Qed.

(** Property X20.  A string literal that [escapeAppleScript] has filled
    ends at the quote that follows the escaped text, and denotes the string
    that was escaped, whatever characters it holds: no part of a title, a
    note or a list name is read as script. *)
Theorem escapeAppleScript_reads_back str rest :
  readLiteral (escapeAppleScript str +:+ JsStr.dq +:+ rest) = Some (str, rest).
Proof.
  induction str as [|c str IH]; [done|].
  by rewrite escapeAppleScript_cons, append_assoc, readLiteral_escapeChar, IH.
Qed.

(** ** Guessing a list *)


Lemma firstList_Some test names n :
  firstList test names = Some n →
  ∃ pre post, names = pre ++ n :: post ∧
    Js.toLowerCase n ≠ "" ∧ test (Js.toLowerCase n) = true ∧
    ∀ m, m ∈ pre → Js.toLowerCase m = "" ∨ test (Js.toLowerCase m) = false.
Proof.
  induction names as [|m names IH]; simpl; [done|].
  destruct (_ && _) eqn:Hm.
  - intros [= ->]. exists [], names. apply andb_prop in Hm as [Ht Hm].
    split_and!; try done.
    + intros Hl. by rewrite Hl in Ht.
    + intros m Hin. by apply elem_of_nil in Hin.
  - intros (pre & post & -> & Hne & Ht & Hpre)%IH.
    exists (m :: pre), post. split_and!; try done.
    intros m' Hin. apply elem_of_cons in Hin as [->|Hin]; [|by apply Hpre].
    apply andb_false_iff in Hm as [Hm|Hm]; [|by right].
    left. by destruct (Js.toLowerCase m).
Qed.


Lemma byKeyword_Some text names entries n :
  byKeyword text names entries = Some n →
  n ∈ names ∧ Js.toLowerCase n ≠ "" ∧
  ∃ category keywords kw,
    (category, keywords) ∈ entries ∧ kw ∈ keywords ∧ Js.includes text kw = true ∧
    (Js.includes (Js.toLowerCase n) category = true ∨
     Js.includes category (Js.toLowerCase n) = true).
Proof.
  induction entries as [|[category keywords] entries IH]; simpl; [done|].
  assert (byKeyword text names entries = Some n →
          n ∈ names ∧ Js.toLowerCase n ≠ "" ∧
          ∃ category0 keywords0 kw,
            (category0, keywords0) ∈ (category, keywords) :: entries ∧ kw ∈ keywords0 ∧
            Js.includes text kw = true ∧
            (Js.includes (Js.toLowerCase n) category0 = true ∨
             Js.includes category0 (Js.toLowerCase n) = true)) as Hrest.
  { intros (Hin & Hne & c & ks & kw & Hc & Hrest)%IH. split_and!; try done.
    exists c, ks, kw. split; [by right|done]. }
  destruct (existsb _ keywords) eqn:Hkw; [|done].
  destruct (firstList _ names) as [m|] eqn:Hfirst; [|done].
  intros [= ->].
  apply firstList_Some in Hfirst as (pre & post & -> & Hne & Ht & _).
  apply existsb_exists in Hkw as (kw & Hkw & Hinc).
  split_and!; [apply elem_of_app; right; by left|done|].
  exists category, keywords, kw. split_and!; [by left|by apply list_elem_of_In|done|].
  by apply orb_prop in Ht.
Qed.

Lemma guessListForReminder_available title notes availableLists n :
  guessListForReminder title notes availableLists = Some n →
  n ∈ lg_name <$> availableLists.
Proof.
  unfold guessListForReminder. destruct availableLists as [|l ls]; [done|].
  destruct (firstList _ _) as [m|] eqn:Hfirst.
  - intros [= ->]. apply firstList_Some in Hfirst as (pre & post & -> & _).
    apply elem_of_app. right. by left.
  - by intros (Hin & _)%byKeyword_Some.
Qed.


(** ** Creating a reminder *)

Lemma chooseList_cases options :
  (Js.truthyStr (co_list options) = true ∧
   chooseList options = (default "" (co_list options), false)) ∨
  (Js.truthyStr (co_list options) = false ∧
   ∃ lists guessed,
     co_availableLists options = Some lists ∧
     guessListForReminder (co_title options) (co_notes options) lists = Some guessed ∧
     guessed ≠ "" ∧ chooseList options = (guessed, true)) ∨
  (Js.truthyStr (co_list options) = false ∧ chooseList options = ("Reminders", false)).
Proof.
  unfold chooseList. destruct (Js.truthyStr (co_list options)); [by left|]. right.
  destruct (co_availableLists options) as [[|l ls]|]; [by right| |by right].
  destruct (guessListForReminder _ _ _) as [guessed|] eqn:Hg; [|by right].
  destruct guessed as [|c guessed]; [by right|]. left. split; [done|].
  by exists (l :: ls), (String c guessed).
Qed.

(** Property X22.  [createReminder] files the reminder in the list it is
    given whenever that list is not the empty string, and then guesses
    nothing; otherwise in a list it has guessed, which is one of the
    available lists, or in the list Reminders.  The list is never the empty
    string.  What it returns on success carries the title as given, that
    list and whether it was guessed; a failure names that list or carries
    the message of the command. *)
Theorem createReminder_list osascript options :
  (chooseList options).1 ≠ "" ∧
  (∀ l, co_list options = Some l → l ≠ "" → chooseList options = (l, false)) ∧
  ((chooseList options).2 = true →
   Js.truthyStr (co_list options) = false ∧
   ∃ lists, co_availableLists options = Some lists ∧
            (chooseList options).1 ∈ lg_name <$> lists) ∧
  ((chooseList options).2 = false → Js.truthyStr (co_list options) = false →
   (chooseList options).1 = "Reminders") ∧
  (∀ r, createReminder osascript options = inl r →
     cr_title r = co_title options ∧
     (cr_list r, cr_wasGuessed r) = chooseList options) ∧
  (∀ e, createReminder osascript options = inr e →
     e = ListNotInReminders (chooseList options).1 ∨ ∃ message, e = FailedToCreate message).
Proof.
  split_and!.
  - destruct (chooseList_cases options) as [[Ht ->]|[(_ & ls & g & _ & _ & Hg & ->)|[_ ->]]];
      try done.
    simpl. by destruct (co_list options) as [[|c s]|].
  - intros l Hl Hne. unfold chooseList. rewrite Hl. by destruct l.
  - destruct (chooseList_cases options)
      as [[Ht ->]|[(Hf & ls & g & Hls & Hguess & Hg & ->)|[_ ->]]]; try done.
    intros _. split; [done|]. exists ls. split; [done|]. simpl.
    by eapply guessListForReminder_available.
  - destruct (chooseList_cases options)
      as [[Ht ->]|[(Hf & ls & g & Hls & Hguess & Hg & ->)|[_ ->]]]; try done.
    intros _ Hf. by rewrite Hf in Ht.
  - intros r. unfold createReminder. destruct (chooseList options) as [listName guessed].
    destruct (osascript _).
    + by intros [= <-].
    + by destruct (_ && _).
  - intros e. unfold createReminder. destruct (chooseList options) as [listName guessed].
    destruct (osascript _) as [out|message]; [done|].
    destruct (_ && _); intros [= <-]; [by left|right; by eexists].
Qed.

Lemma createReminder_list_witness :
  createReminder printsId
    (mkCreateOptions "Buy milk" None None None None None (Some someLists)) =
    inl (mkCreated "Buy milk" "Groceries" "x-apple-reminder://1" true) ∧
  chooseList (mkCreateOptions "Buy milk" (Some "Errands") None None None None (Some someLists))
    = ("Errands", false) ∧
  (cr_list (mkCreated "Buy milk" "Groceries" "x-apple-reminder://1" true),
   cr_wasGuessed (mkCreated "Buy milk" "Groceries" "x-apple-reminder://1" true)) =
    chooseList (mkCreateOptions "Buy milk" None None None None None (Some someLists)).
Proof.
  assert (createReminder printsId
            (mkCreateOptions "Buy milk" None None None None None (Some someLists)) =
          inl (mkCreated "Buy milk" "Groceries" "x-apple-reminder://1" true)) as Hc
    by (vm_compute; reflexivity).
  split; [exact Hc|]. split.
  - destruct (createReminder_list printsId
                (mkCreateOptions "Buy milk" (Some "Errands") None None None None
                   (Some someLists))) as (_ & Hgiven & _).
    apply (Hgiven "Errands"); [reflexivity|discriminate].
  - destruct (createReminder_list printsId
                (mkCreateOptions "Buy milk" None None None None None (Some someLists)))
      as (_ & _ & _ & _ & Hok & _).
    exact (proj2 (Hok _ Hc)).
Defined.

(** ** Editing and completing *)

Lemma editUpdates_nil options :
  editUpdates options = [] ↔
  eo_newTitle options = None ∧ eo_notes options = None ∧ eo_dueDate options = None ∧
  eo_priority options = None ∧ eo_flagged options = None.
Proof.
  unfold editUpdates. split.
  - by destruct (eo_newTitle options), (eo_notes options),
      (eo_dueDate options) as [[|]|], (eo_priority options), (eo_flagged options).
  - by intros (-> & -> & -> & -> & ->).
Qed.

(** Property X23.  [editReminder] refuses with No updates specified
    exactly when none of the five changes is asked for, whatever the
    command would do: it then runs no script.  An empty new title or empty
    notes are changes. *)
Theorem editReminder_no_updates osascript options :
  editReminder osascript options = inr NoUpdatesSpecified ↔
  eo_newTitle options = None ∧ eo_notes options = None ∧ eo_dueDate options = None ∧
  eo_priority options = None ∧ eo_flagged options = None.
Proof.
  rewrite <-editUpdates_nil. unfold editReminder.
  destruct (editUpdates options) as [|u us]; [done|]. split; [|done].
  destruct (osascript _) as [out|message]; [done|].
  destruct (Js.includes message "No matching reminder found"); [done|].
  by destruct (Js.includes message "doesn't exist").
Qed.

Lemma editReminder_no_updates_witness :
  editReminder (failsWith "not running") (mkEditOptions "Buy milk" None None None None None None)
    = inr NoUpdatesSpecified ∧
  editReminder printsId (mkEditOptions "Buy milk" None None None None None None)
    = inr NoUpdatesSpecified.
Proof.
  split.
  - apply (proj2 (editReminder_no_updates (failsWith "not running")
                    (mkEditOptions "Buy milk" None None None None None None))).
    repeat split.
  - apply (proj2 (editReminder_no_updates printsId
                    (mkEditOptions "Buy milk" None None None None None None))).
    repeat split.
Defined.

(** ** How failures are told apart *)

Lemma prefix_spec p : ∀ s, String.prefix p s = true ↔ ∃ post, s = p +:+ post.
Proof.
  induction p as [|a p IH]; intros s.
  - split; [intros _; by exists s|]. intros _. by destruct s.
  - destruct s as [|b s]; simpl.
    + split; [done|]. by intros [post ?].
    + destruct (ascii_dec a b) as [->|Hne].
      * rewrite IH. split; intros [post Hpost]; exists post; [by rewrite Hpost|].
        by injection Hpost.
      * split; [done|]. intros [post [= ? _]]. done.
Qed.

Lemma includes_spec s x : Js.includes s x = true ↔ ∃ pre post, s = pre +:+ x +:+ post.
Proof.
  induction s as [|c s IH].
  - change (Js.includes "" x) with (String.prefix x "" || false).
    rewrite orb_false_r, prefix_spec. split.
    + intros [post Hpost]. by exists "", post.
    + intros (pre & post & Hs). destruct pre; [by exists post|done].
  - change (Js.includes (String c s) x) with (String.prefix x (String c s) || Js.includes s x).
    rewrite orb_true_iff, prefix_spec, IH. split.
    + intros [[post Hpost]|(pre & post & ->)]; [by exists "", post|].
      by exists (String c pre), post.
    + intros (pre & post & Hs). destruct pre as [|a pre]; [left; by exists post|].
      right. injection Hs as -> ->. by exists pre, post.
Qed.

Lemma includes_trans m s x :
  Js.includes m s = true → Js.includes s x = true → Js.includes m x = true.
Proof.
  rewrite !includes_spec. intros (p1 & q1 & ->) (p2 & q2 & ->).
  exists (p1 +:+ p2), (q2 +:+ q1). by rewrite !append_assoc.
Qed.

Lemma includes_scriptOf lines line x :
  line ∈ lines → Js.includes line x = true → Js.includes (scriptOf lines) x = true.
Proof.
  intros Hin Hx. eapply includes_trans; [|done]. clear x Hx.
  apply includes_spec. unfold scriptOf.
  assert (∃ pre post,
            foldr (λ line rest, line +:+ JsStr.nl +:+ rest) "" lines =
            pre +:+ line +:+ post) as (pre & post & ->).
  { induction Hin as [line lines|line other lines Hin (pre & post & IH)].
    - exists "". simpl. by eexists.
    - exists (other +:+ JsStr.nl +:+ pre), post. simpl. rewrite IH.
      by rewrite !append_assoc. }
  exists (JsStr.nl +:+ pre), post. by rewrite !append_assoc.
Qed.

Lemma editScript_names_error options :
  Js.includes (editScript options) "No matching reminder found" = true.
Proof.
  unfold editScript. destruct (Js.truthyStr (eo_searchList options)).
  - apply (includes_scriptOf _ ("  error " +:+ quoted "No matching reminder found"));
      [|vm_compute; reflexivity].
    do 10 apply list_elem_of_further. apply list_elem_of_here.
  - apply (includes_scriptOf _ ("  error " +:+ quoted "No matching reminder found"));
      [|vm_compute; reflexivity].
    do 11 apply list_elem_of_further. apply list_elem_of_here.
Qed.

Lemma completeScript_names_error title list_ :
  Js.includes (completeScript title list_) "No matching reminder found" = true.
Proof.
  unfold completeScript. destruct (Js.truthyStr list_).
  - apply (includes_scriptOf _ ("  error " +:+ quoted "No matching reminder found"));
      [|vm_compute; reflexivity].
    do 8 apply list_elem_of_further. apply list_elem_of_here.
  - apply (includes_scriptOf _ ("  error " +:+ quoted "No matching reminder found"));
      [|vm_compute; reflexivity].
    do 9 apply list_elem_of_further. apply list_elem_of_here.
Qed.

Lemma failsWith_quotesScript stderr : quotesScript (failsWith stderr).
Proof.
  intros script message [= <-]. apply includes_spec.
  by exists "Command failed: /usr/bin/osascript -e ", (JsStr.nl +:+ stderr).
Qed.

(** Property X24.  [editReminder] and [completeReminder] recognise a
    reminder that was not found by the words No matching reminder found in
    the message of the failure, and these words stand in the scripts
    themselves.  So whenever the message of a failed command quotes the
    script that was run, every failure of the two operations is reported as
    a reminder that was not found: a list that does not exist or any other
    failure is never reported as such. *)
Theorem failures_read_as_no_match osascript :
  quotesScript osascript →
  (∀ options e, editReminder osascript options = inr e →
     e = NoUpdatesSpecified ∨ e = NoPendingMatch (eo_searchTitle options)) ∧
  (∀ title list_ e, completeReminder osascript title list_ = inr e →
     e = NoPendingMatch title).
Proof.
  intros Hq. split.
  - intros options e. unfold editReminder.
    destruct (editUpdates options); [intros [= <-]; by left|].
    destruct (osascript (editScript options)) as [out|message] eqn:Hrun; [done|].
    rewrite (includes_trans _ _ _ (Hq _ _ Hrun) (editScript_names_error options)).
    intros [= <-]. by right.
  - intros title list_ e. unfold completeReminder.
    destruct (osascript (completeScript title list_)) as [out|message] eqn:Hrun; [done|].
    rewrite (includes_trans _ _ _ (Hq _ _ Hrun) (completeScript_names_error title list_)).
    by intros [= <-].
Qed.

Lemma failures_read_as_no_match_witness :
  completeReminder (failsWith "execution error: Can't get list Errands. (-1728)")
    "Buy milk" (Some "Errands") = inr (NoPendingMatch "Buy milk").
Proof.
  assert (∃ e, completeReminder
                 (failsWith "execution error: Can't get list Errands. (-1728)")
                 "Buy milk" (Some "Errands") = inr e) as [e He].
  { unfold completeReminder, failsWith. destruct (Js.includes _ _); [by eexists|].
    destruct (Js.includes _ _); by eexists. }
  rewrite He. f_equal.
  exact (proj2 (failures_read_as_no_match _ (failsWith_quotesScript _)) _ _ _ He).
Defined.

(** ** Reading what the command prints *)








(** ** Priorities and hours *)



(** Property X27.  For an hour of the day, [formatAppleScriptDate] writes
    an hour from 1 to 12 with AM or PM from which the hour is recovered:
    midnight is 12 AM and noon is 12 PM. *)
Theorem hour12_reads_back hours :
  0 ≤ hours < 24 →
  1 ≤ hour12 hours ≤ 12 ∧
  hours = hour12 hours `mod` 12 + (if String.eqb (ampm hours) "PM" then 12 else 0).
Proof.
  intros Hh. unfold hour12, ampm. rewrite Z.rem_mod_nonneg by lia.
  pose proof (Z.mod_pos_bound hours 12 ltac:(lia)) as Hm.
  pose proof (Z.div_mod hours 12 ltac:(lia)) as Hd.
  assert (hours `div` 12 = 0 ∨ hours `div` 12 = 1) as Hq.
  { assert (0 ≤ hours `div` 12 < 2); [|lia].
    split; [apply Z.div_pos; lia|apply Z.div_lt_upper_bound; lia]. }
  repeat case_bool_decide; simpl.
  - split; [lia|]. rewrite Z.mod_same by lia. lia.
  - split; [lia|]. rewrite Z.mod_same by lia. lia.
  - split; [lia|]. rewrite Z.mod_mod by lia. lia.
  - split; [lia|]. rewrite Z.mod_mod by lia. lia.
Qed.

Lemma hour12_reads_back_witness :
  1 ≤ hour12 0 ≤ 12 ∧
  0 = hour12 0 `mod` 12 + (if String.eqb (ampm 0) "PM" then 12 else 0).
Proof. apply (hour12_reads_back 0). lia. Defined.
(** * Further properties of the full rebuild *)

(** ** The rebuild does not read the index *)

Lemma insertBatch_frame f s batch w :
  insertBatch batch (reframe f s w) =
  ((insertBatch batch w).1, reframe f s (insertBatch batch w).2).
Proof.
  unfold insertBatch, bind, get, put, throw. simpl.
  destruct (indexDbFile w) as [d|]; [|done]. by destruct (insertRows _ _).
Qed.

Lemma pushBatch_frame f s batch x w :
  pushBatch batch x (reframe f s w) =
  ((pushBatch batch x w).1, reframe f s (pushBatch batch x w).2).
Proof.
  unfold pushBatch. destruct (bool_decide _); [|done].
  unfold bind. rewrite insertBatch_frame.
  by destruct (insertBatch _ w) as [[u|e] w1].
Qed.

Lemma flushBatch_frame f s batch w :
  flushBatch batch (reframe f s w) =
  ((flushBatch batch w).1, reframe f s (flushBatch batch w).2).
Proof. destruct batch; [done|]. apply insertBatch_frame. Qed.

Lemma buildStep_frame f s st r w :
  buildStep st r (reframe f s w) =
  ((buildStep st r w).1, reframe f s (buildStep st r w).2).
Proof.
  unfold buildStep. destruct (negb _); [done|].
  unfold bind, dateNow, get, ret. simpl. rewrite pushBatch_frame.
  by destruct (pushBatch _ _ w) as [[b|e] w1].
Qed.

Lemma build_loop_frame f s rs : ∀ st w,
  forEach buildStep rs st (reframe f s w) =
  ((forEach buildStep rs st w).1, reframe f s (forEach buildStep rs st w).2).
Proof.
  induction rs as [|r rs IH]; intros st w; [done|].
  simpl. unfold bind. rewrite buildStep_frame.
  destruct (buildStep st r w) as [[st1|e] w1]; [|done]. apply IH.
Qed.

Lemma queryAllDatabases_source w w' :
  sourceDir w' = sourceDir w → (queryAllDatabases w').1 = (queryAllDatabases w).1.
Proof.
  intros Hs. unfold queryAllDatabases, bind.
  rewrite !findRemindersDatabases_eq. unfold databases. rewrite Hs.
  destruct (sourceDir w); try done; by destruct (filter _ _).
Qed.

(** Property X28.  A full rebuild that succeeds does not depend on the
    index it replaces: from the same source directory at the same time it
    returns the same statistics and leaves the same three files, whatever
    [index.db], [fuzzy.json] and [stats.json] held before, or whether they
    existed. *)
Theorem rebuild_ignores_index w stats w' d f s :
  buildIndex w = (Ok stats, w') →
  buildIndex (mkWorld (sourceDir w) d f s (clock w)) = (Ok stats, w').
Proof.
  intros Hb.
  destruct (buildIndex_inv _ _ _ Hb)
    as (reminders & st & w1 & w2 & Hq & Hloop & Hfl & Hc & Hstats & ->).
  set (w0 := mkWorld (sourceDir w) d f s (clock w)).
  set (fresh := Some (mkDbFile (Some (clock w)) (Tables [] []))) in *.
  assert (queryAllDatabases w0 = (Ok reminders, w0)) as Hq0.
  { pose proof (queryAllDatabases_source w w0 eq_refl) as Hsame. rewrite Hq in Hsame.
    destruct (queryAllDatabases w0) as [r w0'] eqn:Hq0. simpl in Hsame. subst r.
    by rewrite (queryAllDatabases_world _ _ _ Hq0). }
  assert (createIndexDb w0 = (Ok tt, reframe f s (withIndexDb fresh w))) as Hc0 by done.
  assert (forEach buildStep reminders (mkBuildLoop None 0 0 0 [] [])
            (reframe f s (withIndexDb fresh w)) = (Ok st, reframe f s w1)) as Hloop0
    by (by rewrite build_loop_frame, Hloop).
  assert (flushBatch (b_batch st) (reframe f s w1) = (Ok tt, reframe f s w2)) as Hfl0
    by (by rewrite flushBatch_frame, Hfl).
  assert (liftResult (addAll [] (b_indexedReminders st)) (reframe f s w2) =
          (Ok (b_indexedReminders st), reframe f s w2)) as Hadd.
  { pose proof (build_loop_Ok _ _ _ _ _ Hloop) as (_ & _ & Hix & _). simpl in Hix.
    rewrite addAll_fresh; [done|]. simpl. rewrite Hix, ir_id_toIndexed.
    by eapply queryAllDatabases_ids. }
  unfold buildIndex.
  rewrite (bind_eq _ _ _ _ _ Hq0), (bind_eq _ _ _ _ _ Hc0), (bind_eq _ _ _ _ _ Hloop0),
    (bind_eq _ _ _ _ _ Hfl0), (bind_eq _ _ _ _ _ Hadd).
  unfold writeFuzzy, saveStats, dateNow, bind, get, put, ret. simpl.
  rewrite Hc. by subst stats.
Qed.

Lemma rebuild_ignores_index_witness :
  buildIndex (mkWorld milkSource (indexDbFile choresIndex) (fuzzyFile choresIndex)
                (statsFile choresIndex) 5000) = (Ok milkStats, milkIndex).
Proof.
  apply (rebuild_ignores_index milkWorld milkStats milkIndex).
  vm_compute. reflexivity.
Defined.

(** ** Source databases that cannot be read *)

Lemma scanned_unreadable dbs :
  (∀ db, db ∈ dbs → sf_rows db = None) → scanned dbs = [].
Proof.
  unfold scanned. induction dbs as [|db dbs IH]; intros Hall; [done|].
  simpl. rewrite (Hall db) by left. simpl. apply IH. intros d Hd. apply Hall. by right.
Qed.

(** Property X29.  When source databases are found but none of them can be
    read, the full rebuild does not fail: it replaces the index by an empty
    one.  The statistics it persists count no reminder, carry an invalid
    oldest date and the high-water-mark 0, with which the incremental
    update declines. *)
Theorem rebuild_over_unreadable_sources w :
  databases w ≠ [] → (∀ db, db ∈ databases w → sf_rows db = None) →
  ∃ stats w',
    buildIndex w = (Ok stats, w') ∧
    fuzzyFile w' = Some [] ∧ tables w' = Some ([], []) ∧ statsFile w' = Some stats ∧
    totalReminders stats = 0 ∧ oldestReminder stats = None ∧
    lastIndexedRowid stats = Some 0 ∧
    updateIndex w' = (Ok None, w').
Proof.
  intros Hdbs Hall.
  destruct (buildIndex_succeeds w Hdbs) as (stats & w' & Hb).
  exists stats, w'. split; [done|].
  destruct (buildIndex_Ok _ _ _ Hb)
    as (reminders & Hq & Ht & Hf & Hs & _ & _ & Htot & _ & _ & _ & Hm).
  apply queryAllDatabases_Ok in Hq as (_ & _ & ->).
  rewrite (scanned_unreadable _ Hall) in *. simpl in *.
  destruct (buildIndex_inv _ _ _ Hb)
    as (reminders & st & w1 & w2 & Hq & Hloop & _ & _ & Hstats & _).
  apply queryAllDatabases_Ok in Hq as (_ & _ & ->).
  rewrite (scanned_unreadable _ Hall) in Hloop. simpl in Hloop.
  injection Hloop as <- <-. simpl in Hstats.
  split_and!; try done.
  - by rewrite Hstats.
  - apply updateIndex_skips. unfold storedMark. rewrite Hs. simpl. by rewrite Hm.
Qed.

Lemma rebuild_over_unreadable_sources_witness :
  fuzzyFile lockedWorld = Some [buyMilk; callMum] ∧
  ∃ stats w',
    buildIndex lockedWorld = (Ok stats, w') ∧
    fuzzyFile w' = Some [] ∧ tables w' = Some ([], []) ∧ statsFile w' = Some stats ∧
    totalReminders stats = 0 ∧ oldestReminder stats = None ∧
    lastIndexedRowid stats = Some 0 ∧
    updateIndex w' = (Ok None, w').
Proof.
  split; [vm_compute; reflexivity|].
  apply (rebuild_over_unreadable_sources lockedWorld).
  - vm_compute. discriminate.
  - intros db Hdb. vm_compute in Hdb.
    apply elem_of_cons in Hdb as [->|Hdb]; [reflexivity|by apply elem_of_nil in Hdb].
Defined.
(** * Further properties of the incremental update *)

Lemma pushBatch_written batch x w batch' w' :
  pushBatch batch x w = (Ok batch', w') → batch' ≠ [] ∨ stamped w'.
Proof.
  unfold pushBatch. destruct (bool_decide _).
  - intros H. bind_inv H as u w1 Hi. injection H as _ <-. right.
    by eapply insertBatch_stamped.
  - intros [= <- _]. left. by destruct batch.
Qed.

Lemma updateStep_written st r w st' w' :
  updateStep st r w = (Ok st', w') → UpdateWritten st w → UpdateWritten st' w'.
Proof.
  unfold updateStep, UpdateWritten. destruct (Js.truthyStr (jr_title r)); simpl.
  - intros H _. bind_inv H as now w0 Hn. injection Hn as _ <-.
    bind_inv H as batch w1 Hp. injection H as <- <-. simpl. right.
    by eapply pushBatch_written.
  - by intros [= <- <-].
Qed.

Lemma update_loop_written rs : ∀ st w st' w',
  forEach updateStep rs st w = (Ok st', w') → UpdateWritten st w → UpdateWritten st' w'.
Proof.
  induction rs as [|r rs IH]; intros st w st' w' H Hw; simpl in H.
  - by injection H as <- <-.
  - bind_inv H as st1 w1 Hs. eauto using updateStep_written.
Qed.

Lemma updateIndex_stamped w stats w' :
  updateIndex w = (Ok (Some stats), w') → tables w' ≠ tables w →
  ∃ f, indexDbFile w' = Some f ∧ db_mtime f = Some (clock w).
Proof.
  intros Hu Hwritten.
  destruct (updateIndex_inv _ _ _ Hu)
    as (existing & hwm & dbs & _ & _ & _ & _ & _ & Hcase).
  destruct Hcase as [(_ & _ & ->)
                    |(_ & w0 & fuzzy & st & w1 & w2 & _ & _ & _ & Hloop & Hfl & Hc & _ & ->)];
    [done|].
  assert (UpdateWritten (mkUpdateLoop (newestReminder existing) hwm 0 0 [] []) w) as Hinit
    by (by left).
  pose proof (update_loop_written _ _ _ _ _ Hloop Hinit) as Hw.
  pose proof (update_loop_Ok _ _ _ _ _ Hloop) as (_ & Ht1 & Hix & _).
  pose proof (flushBatch_Ok _ _ _ _ Hfl) as (_ & Ht2).
  simpl in Ht1, Hix.
  assert (stamped w2) as (f & Hf & Hm).
  { destruct Hw as [Hnone|[Hbatch|Hst]].
    - destruct Hwritten. simpl. change (tables (withStats _ (withFuzzy _ w2))) with (tables w2).
      rewrite Ht2, Ht1, <-Hix, Hnone. apply tablesPlus_nil.
    - destruct (u_batch st) as [|x batch]; [done|]. by eapply insertBatch_stamped.
    - by eapply flushBatch_stamped. }
  exists f. split; [done|]. by rewrite <-Hc.
Qed.

(** Property X30.  An incremental update that has written to [index.db]
    leaves it with the time of the update as its modification time: the
    freshness check then reports [none] and touches nothing, at any later
    time, as long as the source databases carry modification times that are
    not later than the time of the update. *)
Theorem fresh_after_update w stats w' now :
  updateIndex w = (Ok (Some stats), w') → tables w' ≠ tables w →
  (∀ db t, db ∈ databases w → sf_mtime db = Some t → t ≤ clock w) →
  0 ≤ clock w →
  ensureIndex (withClock now w') = (Ok FreshNone, withClock now w').
Proof.
  intros Hu Hwritten Hold Hpos.
  destruct (updateIndex_stamped _ _ _ Hu Hwritten) as (f & Hf & Hm).
  destruct (updateIndex_Ok _ _ _ Hu)
    as (existing & hwm & dbs & _ & _ & _ & Hd & _ & Hfz & _ & Hsd & _).
  destruct (updateIndex_inv _ _ _ Hu)
    as (existing' & hwm' & dbs' & _ & _ & _ & Hd' & Hne & Hcase).
  assert (dbs' = databases w) as ->.
  { rewrite findRemindersDatabases_eq in Hd'. destruct (sourceDir w); congruence. }
  assert (is_Some (fuzzyFile w')) as [index Hix].
  { destruct Hcase as [(_ & _ & ->)|(_ & w0 & fuzzy & st & w1 & w2 & _ & _ & _ & _ & _ & _ & _ & ->)];
      [|by eexists].
    destruct Hwritten. done. }
  assert (databases (withClock now w') = databases w) as Hsame.
  { unfold databases. simpl. by rewrite Hsd. }
  assert (indexNeedsRebuild (withClock now w') = (Ok false, withClock now w')) as Hn.
  { rewrite indexNeedsRebuild_eq. simpl. rewrite Hf, Hix, Hsame, Hsd, Hm.
    pose proof (databases_listable _ Hne).
    destruct (newestMtime_spec (databases w)) as (_ & _ & [H0|(db & Hin & Hdb)]).
    - rewrite H0, bool_decide_eq_false_2 by lia.
      destruct (sourceDir w); try done; by destruct (databases w).
    - specialize (Hold _ _ Hin Hdb). rewrite bool_decide_eq_false_2 by lia.
      destruct (sourceDir w); try done; by destruct (databases w). }
  unfold ensureIndex. by rewrite (bind_eq _ _ _ _ _ Hn).
Qed.

Lemma fresh_after_update_witness :
  updateIndex staleWorld = (Ok (Some staleStats), after updateIndex staleWorld) ∧
  tables (after updateIndex staleWorld) ≠ tables staleWorld ∧
  ensureIndex (withClock 9000 (after updateIndex staleWorld)) =
    (Ok FreshNone, withClock 9000 (after updateIndex staleWorld)).
Proof.
  assert (updateIndex staleWorld = (Ok (Some staleStats), after updateIndex staleWorld)) as Hu
    by (vm_compute; reflexivity).
  assert (tables (after updateIndex staleWorld) ≠ tables staleWorld) as Hw
    by (vm_compute; discriminate).
  split; [exact Hu|]. split; [exact Hw|].
  apply (fresh_after_update staleWorld staleStats _ 9000 Hu Hw).
  - intros db t Hin Ht. vm_compute in Hin.
    apply elem_of_cons in Hin as [->|Hin]; [|by apply elem_of_nil in Hin].
    injection Ht as <-. vm_compute. discriminate.
  - vm_compute. discriminate.
Defined.
